(** * gofpdf: the PDF reader and the byte-level form editors

    A shallow embedding of the packages [reader] and [form] of gofpdf:
    the lexer and parser of PDF objects, the cross-reference table, RC4
    password validation, the document with its page tree and AcroForm
    fields, and the byte editors [Fill] and [Flatten].

    Conventions.
    - A byte is a [Z] in [0, 256); a byte slice and a Go string are both
      [list Z].  [bytes_of "xref"] is the byte sequence of a literal.
    - A Go [int]/[int64] is a [Z]; conversions that can wrap are written
      out ([wrap64], [wrap32], [Z.modulo _ 256]).
    - A function that returns [(T, error)] returns [outcome T]; a run-time
      panic of the Go code is the outcome [Panic], and a recursion that is
      cut off by the model's fuel is [OutOfFuel].
    - Functions of the Go standard library that the code calls and that are
      not part of the repository (MD5, zlib, ASCII85, float parsing and
      formatting, regular expressions, the iteration order of maps) are the
      fields of the class [GoLib]. *)

From Stdlib Require Import ZArith List Lia String Ascii.
From stdpp Require Import base option list gmap strings pretty.

Set Warnings "-register-all".

Open Scope Z_scope.

(** ** Bytes and literals *)

Definition ch (c : ascii) : Z := Z.of_N (N_of_ascii c).
Arguments ch c%_char.

Definition bytes_of (s : string) : list Z :=
  ch <$> list_ascii_of_string s.
Arguments bytes_of s%_string.

Definition backslash : Z := 92.

Definition wrap64 (z : Z) : Z := (z + 2 ^ 63) mod 2 ^ 64 - 2 ^ 63.
Definition wrap32 (z : Z) : Z := (z + 2 ^ 31) mod 2 ^ 32 - 2 ^ 31.
Definition uint32 (z : Z) : Z := z mod 2 ^ 32.
Definition uint8 (z : Z) : Z := z mod 256.

(** ** Results of fallible functions *)

Definition error := string.

Inductive outcome (A : Type) : Type :=
| Ok (a : A)
| Err (e : error)
| Panic (e : error)
| OutOfFuel.
Arguments Ok {A} a.
Arguments Err {A} e.
Arguments Panic {A} e.
Arguments OutOfFuel {A}.

#[global] Instance outcome_ret : MRet outcome := fun A a => Ok a.
#[global] Instance outcome_bind : MBind outcome := fun A B f m =>
  match m with
  | Ok a => f a
  | Err e => Err e
  | Panic e => Panic e
  | OutOfFuel => OutOfFuel
  end.

(** [fmt.Errorf("ctx: %w", err)]: the error is wrapped, other outcomes pass. *)
Definition wrapErr {A} (ctx : string) (m : outcome A) : outcome A :=
  match m with
  | Err e => Err (ctx +:+ ": " +:+ e)
  | o => o
  end.

(** The call returns (a value, an error or a panic) within the fuel. *)
Definition halts {A} (m : outcome A) : bool :=
  match m with OutOfFuel => false | _ => true end.

Definition isOk {A} (m : outcome A) : bool :=
  match m with Ok _ => true | _ => false end.
Definition isErr {A} (m : outcome A) : bool :=
  match m with Err _ => true | _ => false end.

(** ** strconv.ParseInt(s, 10, 64) and strconv.Atoi *)

Definition isDigit (b : Z) : bool := (48 <=? b) && (b <=? 57).

Fixpoint digitsValue (acc : Z) (l : list Z) : option Z :=
  match l with
  | [] => Some acc
  | b :: l' => if isDigit b then digitsValue (acc * 10 + (b - 48)) l' else None
  end.

(** An optional sign, then one or more decimal digits, and the value in the
    range of int64; every other string is an error. *)
Definition ParseInt (s : list Z) : option Z :=
  match s with
  | [] => None
  | b :: rest =>
    let '(neg, ds) := if b =? ch "+" then (false, rest)
                      else if b =? ch "-" then (true, rest)
                      else (false, s) in
    match ds with
    | [] => None
    | _ =>
      match digitsValue 0 ds with
      | None => None
      | Some u =>
        let v := if neg then - u else u in
        if (- 2 ^ 63 <=? v) && (v <=? 2 ^ 63 - 1) then Some v else None
      end
    end
  end.

(** [n, _ := strconv.Atoi(s)]: the value, clamped on overflow, 0 on a
    syntax error. *)
Definition Atoi_value (s : list Z) : Z :=
  match s with
  | [] => 0
  | b :: rest =>
    let '(neg, ds) := if b =? ch "+" then (false, rest)
                      else if b =? ch "-" then (true, rest)
                      else (false, s) in
    match ds with
    | [] => 0
    | _ =>
      match digitsValue 0 ds with
      | None => 0
      | Some u =>
        let v := if neg then - u else u in
        Z.max (- 2 ^ 63) (Z.min v (2 ^ 63 - 1))
      end
    end
  end.

(** ** crypto/rc4 *)

Module rc4.

Record Cipher := mkCipher { s : list Z; i : Z; j : Z }.

Definition swap (st : list Z) (a b : nat) : list Z :=
  let x := st !!! a in
  let y := st !!! b in
  <[b := x]> (<[a := y]> st).

(** The key schedule: 256 rounds over the identity permutation. *)
Fixpoint schedule (key : list Z) (rounds : nat) (idx : nat)
    (jj : Z) (st : list Z) : list Z :=
  match rounds with
  | O => st
  | S r =>
    let jj' := uint8 (jj + uint8 (st !!! idx)
                       + key !!! (idx mod length key)%nat) in
    schedule key r (S idx) jj' (swap st idx (Z.to_nat jj'))
  end.

Definition NewCipher (key : list Z) : option Cipher :=
  let k := length key in
  if ((k <? 1) || (256 <? k))%nat then None
  else Some (mkCipher (schedule key 256 0 0 (Z.of_nat <$> seq 0 256)) 0 0).

(** [c.XORKeyStream(dst, src)] with [dst] and [src] the same slice, or
    [dst] a fresh slice of the length of [src]: the result is the new
    content of [dst] and the advanced cipher. *)
Fixpoint XORKeyStream (c : Cipher) (src : list Z) : list Z * Cipher :=
  match src with
  | [] => ([], c)
  | v :: src' =>
    let i' := uint8 (i c + 1) in
    let x := s c !!! Z.to_nat i' in
    let j' := uint8 (j c + uint8 x) in
    let y := s c !!! Z.to_nat j' in
    let st := <[Z.to_nat j' := x]> (<[Z.to_nat i' := y]> (s c)) in
    let out := Z.lxor v (uint8 (st !!! Z.to_nat (uint8 (x + y)))) in
    let '(rest, c') := XORKeyStream (mkCipher st i' j') src' in
    (out :: rest, c')
  end.

End rc4.

(** ** The lexer (parser.go) *)

Record parser := mkParser {
  data : list Z;
  pos : nat;
  cipher : option rc4.Cipher   (* optional: decrypts strings/streams in byte order *)
}.

Definition newParser (d : list Z) : parser := mkParser d 0 None.

Definition set_pos (p : parser) (n : nat) : parser :=
  mkParser (data p) n (cipher p).
Definition advance (p : parser) (n : nat) : parser :=
  set_pos p (pos p + n).
Definition set_cipher (p : parser) (c : option rc4.Cipher) : parser :=
  mkParser (data p) (pos p) c.

(** The unread bytes [p.data[p.pos:]]. *)
Definition rest (p : parser) : list Z := drop (pos p) (data p).

Definition isWhitespace (b : Z) : bool :=
  (b =? ch " ") || (b =? 9) || (b =? 10) || (b =? 13) || (b =? 12) || (b =? 0).

Definition isDelimiter (b : Z) : bool :=
  (b =? ch "(") || (b =? ch ")") || (b =? ch "<") || (b =? ch ">") ||
  (b =? ch "[") || (b =? ch "]") || (b =? ch "{") || (b =? ch "}") ||
  (b =? ch "/") || (b =? ch "%").

Definition isRegular (b : Z) : bool :=
  negb (isWhitespace b) && negb (isDelimiter b).

Definition isEOL (b : Z) : bool := (b =? 10) || (b =? 13).

(** The number of bytes [skipWhitespace] passes over.  [inComment] is true
    inside the inner loop of the ['%'] case, which stops in front of the
    end of the line; the line end is then whitespace for the outer loop. *)
Fixpoint wsRun (inComment : bool) (l : list Z) : nat :=
  match l with
  | [] => 0%nat
  | b :: l' =>
    if inComment then
      if isEOL b then S (wsRun false l') else S (wsRun true l')
    else if isWhitespace b then S (wsRun false l')
    else if b =? ch "%" then S (wsRun true l')
    else 0%nat
  end.

Definition skipWhitespace (p : parser) : parser :=
  advance p (wsRun false (rest p)).

(** The length of the maximal run of regular bytes. *)
Fixpoint regularRun (l : list Z) : nat :=
  match l with
  | [] => 0%nat
  | b :: l' => if isRegular b then S (regularRun l') else 0%nat
  end.

Definition readToken (p : parser) : list Z * parser :=
  let p := skipWhitespace p in
  let n := regularRun (rest p) in
  (take n (rest p), advance p n).

Definition unhex (b : Z) : Z :=
  if (ch "0" <=? b) && (b <=? ch "9") then b - ch "0"
  else if (ch "a" <=? b) && (b <=? ch "f") then b - ch "a" + 10
  else if (ch "A" <=? b) && (b <=? ch "F") then b - ch "A" + 10
  else -1.

(** ** The Go standard library *)

(** What the code uses of packages outside the repository.  [float64] is
    kept abstract; the regular expressions are addressed by their source
    text, as in [regexp.MustCompile]. *)
Class GoLib := {
  float64 : Type;
  (** [strconv.ParseFloat(s, 64)] *)
  ParseFloat : list Z -> option float64;
  (** [float64(n)] and [int64(f)] *)
  floatOfInt : Z -> float64;
  intOfFloat : float64 -> Z;
  (** [fmt.Sprintf("%g", f)] *)
  formatG : float64 -> list Z;
  (** [md5.Sum] *)
  md5sum : list Z -> list Z;
  (** [zlib] and [ascii85] decoding of a whole buffer *)
  zlibDecode : list Z -> option (list Z);
  ascii85DecodeAll : list Z -> option (list Z);
  (** [regexp.MustCompile(re).FindAllSubmatchIndex(b, -1)]: for each match,
      in order, the bounds of the match followed by those of its groups. *)
  FindAllSubmatchIndex : string -> list Z -> list (list Z);
  (** a match lies inside the searched slice *)
  FindAllSubmatchIndex_bounds :
    forall re b m, m ∈ FindAllSubmatchIndex re b ->
      exists lo hi tl, m = lo :: hi :: tl /\ 0 <= lo <= hi /\ hi <= Z.of_nat (length b);
  (** [bytes.TrimSpace] *)
  TrimSpace : list Z -> list Z;
  (** the order in which [range] visits the keys of a map *)
  rangeOrder : forall {K : Type} `{Countable K} {V : Type},
      gmap K V -> list (K * V);
  rangeOrder_perm : forall K `{Countable K} V (m : gmap K V),
      rangeOrder m ≡ₚ map_to_list m
}.

Section Reader.
Context `{GoLib}.

(** ** PDF objects (objects.go) *)

Inductive Object : Type :=
| Null
| Boolean (b : bool)
| Integer (n : Z)
| Real (r : float64)
| Name (n : list Z)
| String (Value : list Z) (IsHex : bool)
| Array (a : list Object)
| Dict (d : gmap (list Z) Object)
| Stream (d : gmap (list Z) Object) (Data : list Z)
| Reference (Number : Z) (Generation : Z).

(** Dictionary accessors. *)
Definition GetName (d : gmap (list Z) Object) (key : list Z) : list Z :=
  match d !! key with
  | Some (Name n) => n
  | _ => []
  end.

Definition GetInt (d : gmap (list Z) Object) (key : list Z) : option Z :=
  match d !! key with
  | Some (Integer n) => Some n
  | Some (Real r) => Some (intOfFloat r)
  | _ => None
  end.

(** [GetDict] and [GetArray] return nil when the entry is absent or of
    another type. *)
Definition GetDict (d : gmap (list Z) Object) (key : list Z)
    : option (gmap (list Z) Object) :=
  match d !! key with
  | Some (Dict sub) => Some sub
  | _ => None
  end.

Definition GetArray (d : gmap (list Z) Object) (key : list Z)
    : option (list Object) :=
  match d !! key with
  | Some (Array arr) => Some arr
  | _ => None
  end.

Record IndirectObject := mkIndirect {
  io_Number : Z;
  io_Generation : Z;
  io_Value : Object
}.

(** ** The parser (parser.go) *)

(** [p.cipher.XORKeyStream(data, data)] when a cipher is attached. *)
Definition decryptBytes (p : parser) (bs : list Z) : list Z * parser :=
  match cipher p with
  | None => (bs, p)
  | Some c =>
    let '(out, c') := rc4.XORKeyStream c bs in
    (out, set_cipher p (Some c'))
  end.

(** The bytes of a name and the number of input bytes they take. *)
Fixpoint nameRun (l : list Z) : list Z * nat :=
  match l with
  | [] => ([], 0%nat)
  | b :: l' =>
    if isWhitespace b || isDelimiter b then ([], 0%nat)
    else
      let plain := let '(s, n) := nameRun l' in (b :: s, S n) in
      if b =? ch "#" then
        match l' with
        | h :: lo :: l'' =>
          if (0 <=? unhex h) && (0 <=? unhex lo) then
            let '(s, n) := nameRun l'' in
            (uint8 (Z.lor (Z.shiftl (unhex h) 4) (unhex lo)) :: s, (3 + n)%nat)
          else plain
        | _ => plain
        end
      else plain
  end.

Definition parseName (p : parser) : outcome (list Z * parser) :=
  match data p !! pos p with
  | None => Panic "index out of range"
  | Some b =>
    if negb (b =? ch "/") then Err "reader: expected '/'"
    else
      let p := advance p 1 in
      let '(s, n) := nameRun (rest p) in
      Ok (s, advance p n)
  end.

Definition parseBoolean (p : parser) : outcome (Object * parser) :=
  let '(tok, p) := readToken p in
  if decide (tok = bytes_of "true") then Ok (Boolean true, p)
  else if decide (tok = bytes_of "false") then Ok (Boolean false, p)
  else Err "reader: expected boolean".

Definition parseNull (p : parser) : outcome (Object * parser) :=
  let '(tok, p) := readToken p in
  if decide (tok = bytes_of "null") then Ok (Null, p)
  else Err "reader: expected null".

Definition parseNumberOrRef (p : parser) : outcome (Object * parser) :=
  let savedPos := pos p in
  let '(tok, p) := readToken p in
  match ParseInt tok with
  | Some intVal =>
    (* Could be start of an indirect reference "N G R" *)
    let pos2 := pos p in
    let p3 := skipWhitespace p in
    (* Not a reference, restore position after first token *)
    let integer := Ok (Integer intVal, set_pos p3 pos2) in
    match data p3 !! pos p3 with
    | Some b =>
      if isDigit b then
        let '(tok2, p4) := readToken p3 in
        match ParseInt tok2 with
        | Some genVal =>
          let p5 := skipWhitespace p4 in
          match data p5 !! pos p5 with
          | Some r =>
            if r =? ch "R" then Ok (Reference intVal genVal, advance p5 1)
            else integer
          | None => integer
          end
        | None => integer
        end
      else integer
    | None => integer
    end
  | None =>
    (* Try real number *)
    let p := set_pos p savedPos in
    let '(tok, p) := readToken p in
    match ParseFloat tok with
    | Some realVal => Ok (Real realVal, p)
    | None => Err "reader: invalid number"
    end
  end.

(** The bytes at the cursor read "N G R": an integer token [n], then a token
    that starts with a digit and is an integer [g], then the byte [R], each
    after optional whitespace and comments; [after] is the parser behind the
    [R]. *)
Definition referenceAhead (p : parser) (n g : Z) (after : parser) : Prop :=
  let '(tok, p1) := readToken p in
  let p2 := skipWhitespace p1 in
  let '(tok2, p3) := readToken p2 in
  let p4 := skipWhitespace p3 in
  ParseInt tok = Some n /\
  (exists b, data p2 !! pos p2 = Some b /\ isDigit b = true) /\
  ParseInt tok2 = Some g /\
  data p4 !! pos p4 = Some (ch "R") /\
  after = advance p4 1.

Definition isOctal (b : Z) : bool := (ch "0" <=? b) && (b <=? ch "7").

(** The body of a literal string after its opening parenthesis: the decoded
    bytes and the number of input bytes read.  [depth] counts the open
    parentheses; the loop ends when it reaches 0 or the input ends. *)
Fixpoint literalRun (depth : nat) (l : list Z) : outcome (list Z * nat) :=
  match depth with
  | O => Ok ([], 0%nat)
  | S d =>
    match l with
    | [] => Err "reader: unterminated literal string"
    | b :: l' =>
      if b =? ch "(" then
        '(s, n) ← literalRun (S (S d)) l'; Ok (b :: s, S n)
      else if b =? ch ")" then
        '(s, n) ← literalRun d l';
        Ok ((if (0 <? d)%nat then b :: s else s), S n)
      else if b =? backslash then
        match l' with
        | [] => Err "reader: unexpected end of string escape"
        | esc :: l'' =>
          let simple (c : Z) :=
            '(s, n) ← literalRun (S d) l''; Ok (c :: s, (2 + n)%nat) in
          if esc =? ch "n" then simple 10
          else if esc =? ch "r" then simple 13
          else if esc =? ch "t" then simple 9
          else if esc =? ch "b" then simple 8
          else if esc =? ch "f" then simple 12
          else if (esc =? ch "(") || (esc =? ch ")") || (esc =? backslash)
          then simple esc
          else if isOctal esc then
            (* Octal escape: up to two more digits *)
            let oct := esc - ch "0" in
            match l'' with
            | d1 :: l3 =>
              if isOctal d1 then
                let oct := oct * 8 + (d1 - ch "0") in
                match l3 with
                | d2 :: l4 =>
                  if isOctal d2 then
                    let oct := oct * 8 + (d2 - ch "0") in
                    '(s, n) ← literalRun (S d) l4;
                    Ok (uint8 oct :: s, (4 + n)%nat)
                  else
                    '(s, n) ← literalRun (S d) l3;
                    Ok (uint8 oct :: s, (3 + n)%nat)
                | [] =>
                  '(s, n) ← literalRun (S d) l3;
                  Ok (uint8 oct :: s, (3 + n)%nat)
                end
              else simple (uint8 oct)
            | [] => simple (uint8 oct)
            end
          else simple esc
        end
      else
        '(s, n) ← literalRun (S d) l'; Ok (b :: s, S n)
    end
  end.

Definition parseLiteralString (p : parser) : outcome (Object * parser) :=
  match data p !! pos p with
  | None => Panic "index out of range"
  | Some b =>
    if negb (b =? ch "(") then Err "reader: expected '('"
    else
      let p := advance p 1 in
      '(s, n) ← literalRun 1 (rest p);
      let '(s, p) := decryptBytes (advance p n) s in
      Ok (String s false, p)
  end.

(** The body of a hex string after ['<']: [hi] is the pending high nibble,
    or -1. *)
Fixpoint hexRun (hi : Z) (l : list Z) : outcome (list Z * nat) :=
  match l with
  | [] => Err "reader: unterminated hex string"
  | b :: l' =>
    if b =? ch ">" then
      Ok ((if 0 <=? hi then [uint8 (Z.shiftl hi 4)] else []), 1%nat)
    else if isWhitespace b then
      '(s, n) ← hexRun hi l'; Ok (s, S n)
    else
      let v := unhex b in
      if v <? 0 then Err "reader: invalid hex character in hex string"
      else if hi <? 0 then
        '(s, n) ← hexRun v l'; Ok (s, S n)
      else
        '(s, n) ← hexRun (-1) l';
        Ok (uint8 (Z.lor (Z.shiftl hi 4) v) :: s, S n)
  end.

Definition parseHexString (p : parser) : outcome (Object * parser) :=
  match data p !! pos p with
  | None => Panic "index out of range"
  | Some b =>
    if negb (b =? ch "<") then Err "reader: expected '<'"
    else
      let p := advance p 1 in
      '(s, n) ← hexRun (-1) (rest p);
      let '(s, p) := decryptBytes (advance p n) s in
      Ok (String s true, p)
  end.

(** [parseArray] and [parseDict] call [ParseObject] for their elements; they
    are written over the [ParseObject] they call.  A loop runs at most once
    per input byte: [iters] is that bound. *)
Section Containers.
Variable ParseObject : parser -> outcome (Object * parser).

Fixpoint parseArrayLoop (iters : nat) (p : parser) (arr : list Object)
    : outcome (Object * parser) :=
  match iters with
  | O => OutOfFuel
  | S k =>
    let p := skipWhitespace p in
    match data p !! pos p with
    | None => Err "reader: unterminated array"
    | Some b =>
      if b =? ch "]" then Ok (Array arr, advance p 1)
      else
        '(obj, p) ← wrapErr "reader: in array" (ParseObject p);
        parseArrayLoop k p (arr ++ [obj])
    end
  end.

Definition parseArray (p : parser) : outcome (Object * parser) :=
  match data p !! pos p with
  | None => Panic "index out of range"
  | Some b =>
    if negb (b =? ch "[") then Err "reader: expected '['"
    else parseArrayLoop (S (length (data p))) (advance p 1) []
  end.

Fixpoint parseDictLoop (iters : nat) (p : parser) (d : gmap (list Z) Object)
    : outcome (Object * parser) :=
  match iters with
  | O => OutOfFuel
  | S k =>
    let p := skipWhitespace p in
    match data p !! pos p with
    | None => Err "reader: unterminated dictionary"
    | Some b =>
      if (b =? ch ">") && bool_decide (data p !! S (pos p) = Some (ch ">"))
      then Ok (Dict d, advance p 2)
      else
        (* Key must be a name, value is any object *)
        '(key, p) ← wrapErr "reader: dict key" (parseName p);
        '(val, p) ← wrapErr "reader: dict value" (ParseObject p);
        parseDictLoop k p (<[key := val]> d)
    end
  end.

Definition parseDict (p : parser) : outcome (Object * parser) :=
  if bool_decide (data p !! pos p = Some (ch "<")) &&
     bool_decide (data p !! S (pos p) = Some (ch "<"))
  then parseDictLoop (S (length (data p))) (advance p 2) ∅
  else Err "reader: expected '<<'".

(** The dispatch of [ParseObject] on the first byte after whitespace. *)
Definition parseObjectAt (p : parser) : outcome (Object * parser) :=
  let p := skipWhitespace p in
  match data p !! pos p with
  | None => Err "unexpected EOF"
  | Some b =>
    if b =? ch "<" then
      (* Could be hex string or dictionary *)
      if bool_decide (data p !! S (pos p) = Some (ch "<")) then parseDict p
      else parseHexString p
    else if b =? ch "(" then parseLiteralString p
    else if b =? ch "/" then
      '(n, p) ← parseName p; Ok (Name n, p)
    else if b =? ch "[" then parseArray p
    else if (b =? ch "t") || (b =? ch "f") then parseBoolean p
    else if b =? ch "n" then parseNull p
    else if isDigit b || (b =? ch "+") || (b =? ch "-") || (b =? ch ".")
    then parseNumberOrRef p
    else Err "reader: unexpected character"
  end.
End Containers.

(** [fuel] bounds the nesting depth of arrays and dictionaries. *)
Fixpoint ParseObject (fuel : nat) (p : parser) : outcome (Object * parser) :=
  match fuel with
  | O => OutOfFuel
  | S n => parseObjectAt (ParseObject n) p
  end.

(** Nesting is at most one level per input byte. *)
Definition parseFuel (d : list Z) : nat := S (length d).

Definition hasPrefixAt (p : parser) (kw : list Z) : bool :=
  bool_decide (take (length kw) (rest p) = kw).

Definition ParseIndirectObject (p : parser) : outcome (IndirectObject * parser) :=
  let p := skipWhitespace p in
  (* Read object number *)
  let '(numTok, p) := readToken p in
  match ParseInt numTok with
  | None => Err "reader: expected object number"
  | Some num =>
    (* Read generation number *)
    let p := skipWhitespace p in
    let '(genTok, p) := readToken p in
    match ParseInt genTok with
    | None => Err "reader: expected generation number"
    | Some gen =>
      (* Read "obj" keyword *)
      let p := skipWhitespace p in
      let '(objTok, p) := readToken p in
      if negb (bool_decide (objTok = bytes_of "obj"))
      then Err "reader: expected 'obj'"
      else
        '(val, p) ← wrapErr "reader: object" (ParseObject (parseFuel (data p)) p);
        (* Check for stream *)
        let p := skipWhitespace p in
        '(val, p) ←
          (if hasPrefixAt p (bytes_of "stream") then
             match val with
             | Dict dict =>
               let p := advance p 6 in
               (* Skip single \r\n or \n after "stream" *)
               let p := if bool_decide (data p !! pos p = Some 13)
                        then advance p 1 else p in
               let p := if bool_decide (data p !! pos p = Some 10)
                        then advance p 1 else p in
               (* Read stream data using /Length *)
               let len := default 0 (GetInt dict (bytes_of "Length")) in
               if Z.of_nat (length (data p)) <? wrap64 (Z.of_nat (pos p) + len)
               then Err "reader: stream data exceeds file bounds"
               else if (len <? 0) || (Z.of_nat (length (data p)) <? len)
               then Panic "makeslice: len out of range"
               else
                 let n := Z.to_nat len in
                 let '(streamData, p) :=
                   decryptBytes (advance p n) (take n (rest p)) in
                 (* Skip "endstream" *)
                 let p := skipWhitespace p in
                 let p := if hasPrefixAt p (bytes_of "endstream")
                          then advance p 9 else p in
                 Ok (Stream dict streamData, p)
             | _ => Err "reader: stream object has non-dict header"
             end
           else Ok (val, p));
        (* Skip "endobj" *)
        let p := skipWhitespace p in
        let p := if hasPrefixAt p (bytes_of "endobj") then advance p 6 else p in
        Ok (mkIndirect num gen val, p)
    end
  end.

Definition parseBytes (d : list Z) : outcome Object :=
  '(o, _) ← ParseObject (parseFuel d) (newParser d); Ok o.

(** ** bytes.Index, bytes.LastIndex *)

Definition hasPrefix (l sep : list Z) : bool :=
  bool_decide (take (length sep) l = sep).

Fixpoint bytesIndex (l sep : list Z) : option nat :=
  if hasPrefix l sep then Some 0%nat
  else match l with
       | [] => None
       | _ :: l' => S <$> bytesIndex l' sep
       end.

Fixpoint bytesLastIndex (l sep : list Z) : option nat :=
  match l with
  | [] => if hasPrefix l sep then Some 0%nat else None
  | _ :: l' =>
    match bytesLastIndex l' sep with
    | Some k => Some (S k)
    | None => if hasPrefix l sep then Some 0%nat else None
    end
  end.

(** ** Stream filters (filter.go) *)

(** [encoding/hex.Decode] over an even number of digits. *)
Fixpoint hexDecode (src : list Z) : outcome (list Z) :=
  match src with
  | a :: b :: src' =>
    if (unhex a <? 0) || (unhex b <? 0) then Err "encoding/hex: invalid byte"
    else rest ← hexDecode src'; Ok (uint8 (Z.lor (Z.shiftl (unhex a) 4) (unhex b)) :: rest)
  | _ => Ok []
  end.

(** The input up to the first ['>'], without whitespace. *)
Fixpoint hexClean (l : list Z) : list Z :=
  match l with
  | [] => []
  | b :: l' =>
    if b =? ch ">" then []
    else if isWhitespace b then hexClean l'
    else b :: hexClean l'
  end.

Definition asciiHexDecode (d : list Z) : outcome (list Z) :=
  let src := hexClean d in
  (* Pad odd-length with trailing 0 *)
  let src := if Nat.odd (length src) then src ++ [ch "0"] else src in
  wrapErr "ascii hex decode" (hexDecode src).

Definition ascii85Decode (d : list Z) : outcome (list Z) :=
  let d := match bytesIndex d (bytes_of "~>") with
           | Some e => take e d
           | None => d
           end in
  match ascii85DecodeAll d with
  | Some out => Ok out
  | None => Err "ascii85 decode"
  end.

Definition flateDecode (d : list Z) : outcome (list Z) :=
  match zlibDecode d with
  | Some out => Ok out
  | None => Err "zlib decompress"
  end.

Definition applyFilter (name : list Z) (d : list Z) : outcome (list Z) :=
  if decide (name = bytes_of "FlateDecode") then flateDecode d
  else if decide (name = bytes_of "ASCIIHexDecode") then asciiHexDecode d
  else if decide (name = bytes_of "ASCII85Decode") then ascii85Decode d
  else Err "unsupported filter".

Fixpoint filterNames (items : list Object) : outcome (list (list Z)) :=
  match items with
  | [] => Ok []
  | Name n :: items' => ns ← filterNames items'; Ok (n :: ns)
  | _ => Err "reader: filter array contains non-name"
  end.

Fixpoint applyFilters (filters : list (list Z)) (d : list Z) : outcome (list Z) :=
  match filters with
  | [] => Ok d
  | f :: filters' =>
    d ← wrapErr "reader: applying filter" (applyFilter f d);
    applyFilters filters' d
  end.

(** [decodeStream(s)] for the stream with dictionary [dict] and payload [d]. *)
Definition decodeStream (dict : gmap (list Z) Object) (d : list Z)
    : outcome (list Z) :=
  match dict !! bytes_of "Filter" with
  | None => Ok d
  | Some filter =>
    (* Filter can be a single name or an array of names *)
    filters ← match filter with
              | Name f => Ok [f]
              | Array items => filterNames items
              | _ => Err "reader: unexpected filter type"
              end;
    applyFilters filters d
  end.

(** ** The cross-reference table (xref.go) *)

Record xrefEntry := mkEntry {
  Offset : Z;
  Generation : Z;
  InUse : bool
}.

Definition findStartXRef (d : list Z) : outcome Z :=
  (* Search backward from end of file for "startxref" *)
  let searchLen := Nat.min 1024 (length d) in
  let tail := drop (length d - searchLen) d in
  match bytesLastIndex tail (bytes_of "startxref") with
  | None => Err "reader: startxref not found"
  | Some idx =>
    (* Parse the offset value after "startxref" *)
    let p := newParser (drop (idx + 9) tail) in
    let p := skipWhitespace p in
    let '(tok, _) := readToken p in
    match ParseInt tok with
    | None => Err "reader: invalid startxref offset"
    | Some offset => Ok offset
    end
  end.

(** The entries of one subsection: [count] lines "offset generation type",
    numbered from [startObj].  Only the first definition of an object number
    is kept. *)
Fixpoint xrefEntries (count : nat) (i : Z) (startObj : Z) (p : parser)
    (table : gmap Z xrefEntry) : outcome (gmap Z xrefEntry * parser) :=
  match count with
  | O => Ok (table, p)
  | S c =>
    let p := skipWhitespace p in
    let '(offsetTok, p) := readToken p in
    match ParseInt offsetTok with
    | None => Err "reader: xref entry offset"
    | Some entryOffset =>
      let p := skipWhitespace p in
      let '(genTok, p) := readToken p in
      match ParseInt genTok with
      | None => Err "reader: xref entry generation"
      | Some gen =>
        let p := skipWhitespace p in
        let '(typeTok, p) := readToken p in
        let objNum := wrap64 (startObj + i) in
        (* Only add if not already present *)
        let table :=
          match table !! objNum with
          | Some _ => table
          | None =>
            <[objNum := mkEntry entryOffset gen
                          (bool_decide (typeTok = bytes_of "n"))]> table
          end in
        xrefEntries c (i + 1) startObj p table
      end
    end
  end.

(** The subsections "startObj count" up to the keyword [trailer] or the end
    of the input. *)
Fixpoint xrefSubsections (iters : nat) (p : parser) (table : gmap Z xrefEntry)
    : outcome (gmap Z xrefEntry * parser) :=
  match iters with
  | O => OutOfFuel
  | S k =>
    let p := skipWhitespace p in
    if (length (data p) <=? pos p)%nat then Ok (table, p)
    else
      (* Check if we've reached the trailer *)
      let savedPos := pos p in
      let '(tok, p) := readToken p in
      if bool_decide (tok = bytes_of "trailer") then Ok (table, p)
      else
        let p := set_pos p savedPos in
        let '(startTok, p) := readToken p in
        match ParseInt startTok with
        | None => Err "reader: xref start obj"
        | Some startObj =>
          let p := skipWhitespace p in
          let '(countTok, p) := readToken p in
          match ParseInt countTok with
          | None => Err "reader: xref count"
          | Some count =>
            '(table, p) ← xrefEntries (Z.to_nat count) 0 startObj p table;
            xrefSubsections k p table
          end
        end
  end.

(** One big-endian field of [width] bytes at [pos] of the decoded stream. *)
Fixpoint xrefField (width : nat) (decoded : list Z) (pos : Z) (val : Z)
    : outcome (Z * Z) :=
  match width with
  | O => Ok (val, pos)
  | S w =>
    if pos <? 0 then Panic "index out of range"
    else match decoded !! Z.to_nat pos with
         | None => Panic "index out of range"
         | Some b => xrefField w decoded (pos + 1) (wrap64 (Z.lor (Z.shiftl val 8) b))
         end
  end.

(** The records of one [/Index] pair; the loop stops at the first record
    that does not fit.  The result is the table and the new [dataPos]. *)
Fixpoint xrefStreamEntries (count : nat) (j : Z) (startObj : Z)
    (widths : Z * Z * Z) (decoded : list Z) (dataPos : Z)
    (table : gmap Z xrefEntry) : outcome (gmap Z xrefEntry * Z) :=
  match count with
  | O => Ok (table, dataPos)
  | S c =>
    let '(w0, w1, w2) := widths in
    let entrySize := w0 + w1 + w2 in
    if Z.of_nat (length decoded) <? dataPos + entrySize then Ok (table, dataPos)
    else
      '(f0, pos) ← xrefField (Z.to_nat w0) decoded dataPos 0;
      '(f1, pos) ← xrefField (Z.to_nat w1) decoded pos 0;
      '(f2, pos) ← xrefField (Z.to_nat w2) decoded pos 0;
      let dataPos := dataPos + entrySize in
      let objNum := startObj + j in
      (* Default type is 1 if width[0] is 0 *)
      let fieldType := if w0 =? 0 then 1 else f0 in
      let table :=
        if fieldType =? 0 then <[objNum := mkEntry 0 f2 false]> table
        else if fieldType =? 1 then <[objNum := mkEntry f1 f2 true]> table
        else if fieldType =? 2 then <[objNum := mkEntry f1 f2 true]> table
        else table in
      xrefStreamEntries c (j + 1) startObj widths decoded dataPos table
  end.

Fixpoint xrefStreamIndices (indices : list Z) (widths : Z * Z * Z)
    (decoded : list Z) (dataPos : Z) (table : gmap Z xrefEntry)
    : outcome (gmap Z xrefEntry) :=
  match indices with
  | startObj :: count :: indices' =>
    '(table, dataPos) ←
      xrefStreamEntries (Z.to_nat count) 0 startObj widths decoded dataPos table;
    xrefStreamIndices indices' widths decoded dataPos table
  | _ => Ok table
  end.

Definition integerOr0 (o : option Object) : Z :=
  match o with Some (Integer n) => n | _ => 0 end.

Fixpoint integersOf (l : list Object) : list Z :=
  match l with
  | [] => []
  | Integer n :: l' => n :: integersOf l'
  | _ :: l' => integersOf l'
  end.

(** [parseXRefStream] parses a cross-reference stream (PDF 1.5+). *)
Definition parseXRefStream (d : list Z) (offset : Z)
    : outcome (gmap Z xrefEntry * gmap (list Z) Object) :=
  let p := newParser (drop (Z.to_nat offset) d) in
  '(obj, _) ← wrapErr "reader: xref stream object" (ParseIndirectObject p);
  match io_Value obj with
  | Stream dict payload =>
    decoded ← wrapErr "reader: decoding xref stream" (decodeStream dict payload);
    (* Get /W array (field widths) *)
    let wArr := default [] (GetArray dict (bytes_of "W")) in
    if negb (length wArr =? 3)%nat
    then Err "reader: xref stream /W must have 3 elements"
    else
      let widths := (integerOr0 (wArr !! 0%nat), integerOr0 (wArr !! 1%nat),
                     integerOr0 (wArr !! 2%nat)) in
      (* Get /Index array (default: [0 Size]) *)
      let indices :=
        match default [] (GetArray dict (bytes_of "Index")) with
        | [] => [0; default 0 (GetInt dict (bytes_of "Size"))]
        | idxArr => integersOf idxArr
        end in
      table ← xrefStreamIndices indices widths decoded 0 ∅;
      Ok (table, dict)
  | _ => Err "reader: xref stream is not a stream object"
  end.

(** [range prevTable]: an entry is taken over when the number is free. *)
Definition mergePrev (table prevTable : gmap Z xrefEntry) : gmap Z xrefEntry :=
  foldl (fun t '(num, entry) =>
           match t !! num with
           | Some _ => t
           | None => <[num := entry]> t
           end)
        table (rangeOrder prevTable).

(** The classical table at [offset]: the keyword [xref], the subsections and
    the trailer dictionary; [None] when the bytes do not start with [xref]. *)
Definition parseXRefSection (d : list Z) (offset : Z)
    : option (outcome (gmap Z xrefEntry * gmap (list Z) Object)) :=
  let p := newParser (drop (Z.to_nat offset) d) in
  (* Expect "xref" keyword *)
  let '(tok, p) := readToken p in
  if negb (bool_decide (tok = bytes_of "xref")) then None
  else Some (
    '(table, p) ← xrefSubsections (S (length (data p))) p ∅;
    (* Parse trailer dictionary *)
    let p := skipWhitespace p in
    '(obj, _) ← wrapErr "reader: trailer dict" (ParseObject (parseFuel (data p)) p);
    match obj with
    | Dict trailer => Ok (table, trailer)
    | _ => Err "reader: trailer is not a dictionary"
    end).

(** [parseXRefTable] returns the xref entries and the trailer dictionary.
    [fuel] bounds the number of sections followed through [/Prev]. *)
Fixpoint parseXRefTable (fuel : nat) (d : list Z) (offset : Z)
    : outcome (gmap Z xrefEntry * gmap (list Z) Object) :=
  match fuel with
  | O => OutOfFuel
  | S fuel' =>
    if (offset <? 0) || (Z.of_nat (length d) <=? offset)
    then Err "reader: xref offset out of bounds"
    else
      match parseXRefSection d offset with
      | None =>
        (* Could be a cross-reference stream (PDF 1.5+) *)
        parseXRefStream d offset
      | Some section =>
        '(table, trailer) ← section;
        (* Follow /Prev link for incremental updates *)
        match GetInt trailer (bytes_of "Prev") with
        | Some prevVal =>
          '(prevTable, _) ←
            wrapErr "reader: previous xref" (parseXRefTable fuel' d prevVal);
          (* Merge: current entries take precedence *)
          Ok (mergePrev table prevTable, trailer)
        | None => Ok (table, trailer)
        end
      end
  end.

(** The classical sections reached from [offset] through [/Prev], most
    recent first: each is inside the file and parses to a table and a
    trailer, and the last has no [/Prev]. *)
Inductive PrevChain (d : list Z)
    : Z -> list (gmap Z xrefEntry * gmap (list Z) Object) -> Prop :=
| chain_last (offset : Z) (table : gmap Z xrefEntry) (tr : gmap (list Z) Object) :
    0 <= offset < Z.of_nat (length d) ->
    parseXRefSection d offset = Some (Ok (table, tr)) ->
    GetInt tr (bytes_of "Prev") = None ->
    PrevChain d offset [(table, tr)]
| chain_prev (offset : Z) (table : gmap Z xrefEntry) (tr : gmap (list Z) Object)
    (prevVal : Z) (older : list (gmap Z xrefEntry * gmap (list Z) Object)) :
    0 <= offset < Z.of_nat (length d) ->
    parseXRefSection d offset = Some (Ok (table, tr)) ->
    GetInt tr (bytes_of "Prev") = Some prevVal ->
    PrevChain d prevVal older ->
    PrevChain d offset ((table, tr) :: older).

(** ** Encryption (crypt.go) *)

(** Standard PDF padding (section 7.6.3.3 of ISO 32000-1) *)
Definition pdfPadding : list Z :=
  [ 0x28; 0xBF; 0x4E; 0x5E; 0x4E; 0x75; 0x8A; 0x41;
    0x64; 0x00; 0x4E; 0x56; 0xFF; 0xFA; 0x01; 0x08;
    0x2E; 0x2E; 0x00; 0xB6; 0xD0; 0x68; 0x3E; 0x80;
    0x2F; 0x0C; 0xA9; 0xFE; 0x64; 0x53; 0x69; 0x7A ].

Record encryptInfo := mkEncryptInfo {
  version : Z;          (* /V: 1=RC4 40-bit, 2=RC4 >40-bit *)
  revision : Z;         (* /R: algorithm revision *)
  keyLength : Z;        (* in bytes (default 5 for RC4 40-bit) *)
  ownerHash : list Z;   (* /O value *)
  userHash : list Z;    (* /U value *)
  permissions : Z;      (* /P value, an int32 *)
  fileID : list Z;      (* first element of trailer /ID array *)
  key : option (list Z) (* computed encryption key *)
}.

Definition set_key (info : encryptInfo) (k : list Z) : encryptInfo :=
  mkEncryptInfo (version info) (revision info) (keyLength info)
    (ownerHash info) (userHash info) (permissions info) (fileID info) (Some k).

(** The loop of [bytesEqual] over two slices, indexed by the first. *)
Fixpoint bytesEqualLoop (a b : list Z) : bool :=
  match a, b with
  | [], _ => true
  | x :: a', y :: b' => if x =? y then bytesEqualLoop a' b' else false
  | _ :: _, [] => false
  end.

(** [bytesEqual]: slices of different lengths are compared up to the
    shorter length by a recursive call, whose arguments have equal
    lengths and go through the loop. *)
Definition bytesEqual (a b : list Z) : bool :=
  if negb (length a =? length b)%nat then
    (* Compare up to the shorter length *)
    let n := length a in
    let n := if (length b <? n)%nat then length b else n in
    if (n =? 0)%nat then false
    else bytesEqualLoop (take n a) (take n b)
  else bytesEqualLoop a b.

(** [s[:n]] of a slice whose capacity is its length. *)
Definition sliceTo (l : list Z) (n : Z) : outcome (list Z) :=
  if (n <? 0) || (Z.of_nat (length l) <? n)
  then Panic "slice bounds out of range"
  else Ok (take (Z.to_nat n) l).

(** Pad or truncate password to 32 bytes *)
Definition padPassword (password : list Z) : list Z :=
  take 32 (password ++ pdfPadding).

Definition littleEndian32 (z : Z) : list Z :=
  [ z mod 256; (z / 256) mod 256; (z / 65536) mod 256; (z / 16777216) mod 256 ].

Fixpoint rehash (n : nat) (keyLen : Z) (digest : list Z) : outcome (list Z) :=
  match n with
  | O => Ok digest
  | S n' => pre ← sliceTo digest keyLen; rehash n' keyLen (md5sum pre)
  end.

(** [computeEncryptionKey] implements Algorithm 2 from the PDF spec. *)
Definition computeEncryptionKey (password : list Z) (info : encryptInfo)
    : outcome (list Z) :=
  let padded := padPassword password in
  let digest := md5sum (padded ++ ownerHash info
                          ++ littleEndian32 (uint32 (permissions info))
                          ++ fileID info) in
  (* For R >= 3, do 50 additional MD5 iterations *)
  digest ← (if 3 <=? revision info then rehash 50 (keyLength info) digest
            else Ok digest);
  sliceTo digest (keyLength info).

Definition xorKey (k : list Z) (i : Z) : list Z :=
  (fun b => Z.lxor b (uint8 i)) <$> k.

(** RC4 passes over [buf] with the keys [key XOR i] for the [i] of [ks]. *)
Fixpoint rc4Passes (k : list Z) (ks : list Z) (buf : list Z) : option (list Z) :=
  match ks with
  | [] => Some buf
  | i :: ks' =>
    match rc4.NewCipher (xorKey k i) with
    | None => None
    | Some c => rc4Passes k ks' (fst (rc4.XORKeyStream c buf))
    end
  end.

(** [validateUserPassword] checks if the computed key matches the /U value. *)
Definition validateUserPassword (k : list Z) (info : encryptInfo) : bool :=
  if revision info =? 2 then
    (* Algorithm 4: encrypt padding with key *)
    match rc4.NewCipher k with
    | None => false
    | Some c =>
      let computed := fst (rc4.XORKeyStream c pdfPadding) in
      bytesEqual computed (userHash info)
    end
  else
    (* R >= 3: Algorithm 5 *)
    let digest := md5sum (pdfPadding ++ fileID info) in
    match rc4.NewCipher k with
    | None => false
    | Some c =>
      let digest := fst (rc4.XORKeyStream c digest) in
      (* 19 additional RC4 passes with modified keys *)
      match rc4Passes k (Z.of_nat <$> seq 1 19) digest with
      | None => false
      | Some digest =>
        (* Compare first 16 bytes *)
        if (length (userHash info) <? 16)%nat || (length digest <? 16)%nat
        then false
        else bytesEqual (take 16 digest) (take 16 (userHash info))
      end
    end.

(** [c, _ := rc4.NewCipher(key); c.XORKeyStream(buf, buf)]: with a rejected
    key the cipher is nil, and using it on a non-empty buffer panics. *)
Definition rc4UncheckedPass (k : list Z) (buf : list Z) : outcome (list Z) :=
  match rc4.NewCipher k with
  | Some c => Ok (fst (rc4.XORKeyStream c buf))
  | None => if (length buf =? 0)%nat then Ok buf
            else Panic "nil pointer dereference"
  end.

Fixpoint rc4UncheckedPasses (k : list Z) (ks : list Z) (buf : list Z)
    : outcome (list Z) :=
  match ks with
  | [] => Ok buf
  | i :: ks' => buf ← rc4UncheckedPass (xorKey k i) buf; rc4UncheckedPasses k ks' buf
  end.

Fixpoint md5Rounds (n : nat) (digest : list Z) : list Z :=
  match n with
  | O => digest
  | S n' => md5Rounds n' (md5sum digest)
  end.

(** [recoverUserPassFromOwner] recovers the user password from the owner
    password. *)
Definition recoverUserPassFromOwner (ownerPass : list Z) (info : encryptInfo)
    : outcome (list Z) :=
  let padded := padPassword ownerPass in
  let digest := md5sum padded in
  let digest := if 3 <=? revision info then md5Rounds 50 digest else digest in
  k ← sliceTo digest (keyLength info);
  let userPass := ownerHash info in
  if revision info =? 2 then rc4UncheckedPass k userPass
  else
    (* R >= 3: 20 RC4 passes in reverse *)
    rc4UncheckedPasses k (Z.of_nat <$> rev (seq 0 20)) userPass.

(** ** The document (reader.go) *)

Record Rectangle := mkRect { LLX : float64; LLY : float64; URX : float64; URY : float64 }.

(** A page; the back-reference to the document is the explicit document
    argument of the functions below. *)
Record Page := mkPage {
  pg_Number : Z;
  MediaBox : Rectangle;
  CropBox : option Rectangle;
  Resources : option (gmap (list Z) Object);
  Contents : list (gmap (list Z) Object * list Z);   (* streams: dict, data *)
  Rotate : Z;
  pg_dict : gmap (list Z) Object
}.

Record Document := mkDocument {
  Version : list Z;
  xref : gmap Z xrefEntry;
  trailer : gmap (list Z) Object;
  d_data : list Z;
  pages : list Page;
  encrypt : option encryptInfo
}.

Definition set_pages (d : Document) (ps : list Page) : Document :=
  mkDocument (Version d) (xref d) (trailer d) (d_data d) ps (encrypt d).
Definition set_encrypt (d : Document) (e : encryptInfo) : Document :=
  mkDocument (Version d) (xref d) (trailer d) (d_data d) (pages d) (Some e).

(** [makeObjectCipher] creates an RC4 cipher for decrypting strings/streams
    in the given object. *)
Definition makeObjectCipher (d : Document) (objNum genNum : Z)
    : option rc4.Cipher :=
  match encrypt d with
  | None => None
  | Some info =>
    match key info with
    | None => None
    | Some k =>
      (* Per-object key: MD5(fileKey + objNum(3 bytes LE) + genNum(2 bytes LE)) *)
      let buf := k ++ take 3 (littleEndian32 (uint32 objNum))
                   ++ take 2 (littleEndian32 (uint32 genNum)) in
      let hash := md5sum buf in
      let keyLen := (length k + 5)%nat in
      let keyLen := if (16 <? keyLen)%nat then 16%nat else keyLen in
      rc4.NewCipher (take keyLen hash)
    end
  end.

(** The parser that [resolve] positions at the offset of an entry, with the
    per-object RC4 cipher when the document is encrypted. *)
Definition objectParser (d : Document) (entry : xrefEntry) (num gen : Z)
    : parser :=
  let p := newParser (drop (Z.to_nat (Offset entry)) (d_data d)) in
  match encrypt d with
  | Some info =>
    match key info with
    | Some _ => set_cipher p (makeObjectCipher d num gen)
    | None => p
    end
  | None => p
  end.

Definition offsetOutOfFile (d : Document) (entry : xrefEntry) : bool :=
  (Offset entry <? 0) || (Z.of_nat (length (d_data d)) <=? Offset entry).

(** [resolve] resolves an indirect reference to the actual object. *)
Definition resolve (d : Document) (num gen : Z) : outcome Object :=
  match xref d !! num with
  | None => Ok Null
  | Some entry =>
    if negb (InUse entry) then Ok Null
    else if offsetOutOfFile d entry
    then Err "reader: object offset out of bounds"
    else
      '(obj, _) ← wrapErr "reader: parsing object"
                    (ParseIndirectObject (objectParser d entry num gen));
      Ok (io_Value obj)
  end.

(** [resolveIfRef] resolves an object if it is a Reference, otherwise
    returns it as-is. *)
Definition resolveIfRef (d : Document) (obj : Object) : outcome Object :=
  match obj with
  | Reference num gen => resolve d num gen
  | _ => Ok obj
  end.

(** [parseVersion] extracts the PDF version from the file header. *)
Fixpoint untilEOL (l : list Z) : list Z :=
  match l with
  | [] => []
  | b :: l' => if isEOL b then [] else b :: untilEOL l'
  end.

Definition parseVersion (d : list Z) : list Z :=
  if (length d <? 8)%nat then []
  else
    let header := take (Nat.min 20 (length d)) d in
    match bytesIndex header (bytes_of "%PDF-") with
    | Some idx => untilEOL (drop (idx + 5) header)
    | None => []
    end.

(** *** Encryption dictionary *)

Definition isEncrypted (d : Document) : bool :=
  bool_decide (is_Some (trailer d !! bytes_of "Encrypt")).

(** [parseEncryptDict]: [None] when the trailer has no [/Encrypt]. *)
Definition parseEncryptDict (d : Document) : outcome (option encryptInfo) :=
  match trailer d !! bytes_of "Encrypt" with
  | None => Ok None
  | Some encObj =>
    resolved ← wrapErr "reader: resolving /Encrypt" (resolveIfRef d encObj);
    match resolved with
    | Dict encDict =>
      let v := default 1 (GetInt encDict (bytes_of "V")) in
      let r := default 2 (GetInt encDict (bytes_of "R")) in
      let kl := match GetInt encDict (bytes_of "Length") with
                | Some len => Z.quot len 8
                | None => 5     (* 40-bit default *)
                end in
      let perm := match GetInt encDict (bytes_of "P") with
                  | Some pv => wrap32 pv
                  | None => 0
                  end in
      (* /O and /U are string values (32 bytes each) *)
      let o := match encDict !! bytes_of "O" with
               | Some (String sv _) => sv | _ => [] end in
      let u := match encDict !! bytes_of "U" with
               | Some (String sv _) => sv | _ => [] end in
      (* File ID from trailer /ID array *)
      let fid := match trailer d !! bytes_of "ID" with
                 | Some (Array (String sv _ :: _)) => sv
                 | _ => []
                 end in
      Ok (Some (mkEncryptInfo v r kl o u perm fid None))
    | _ => Err "reader: /Encrypt is not a dictionary"
    end
  end.

(** [decrypt] attempts to decrypt the document with the given password. *)
Definition decrypt (d : Document) (password : list Z) : outcome Document :=
  info ← parseEncryptDict d;
  match info with
  | None => Ok d    (* not encrypted *)
  | Some info =>
    (* Only support V=1 (RC4 40-bit) and V=2 (RC4 >40-bit) for now *)
    if 2 <? version info then Err "reader: unsupported encryption version"
    else
      (* Try user password first *)
      k ← computeEncryptionKey password info;
      if validateUserPassword k info then Ok (set_encrypt d (set_key info k))
      else
        (* Try as owner password *)
        userPass ← recoverUserPassFromOwner password info;
        k ← computeEncryptionKey userPass info;
        if validateUserPassword k info then Ok (set_encrypt d (set_key info k))
        else Err "reader: invalid password"
  end.

(** ** Pages (page.go) *)

(** [ContentStream] returns the decompressed content stream data for this
    page. *)
Fixpoint contentStreamLoop (streams : list (gmap (list Z) Object * list Z))
    (result : list Z) : outcome (list Z) :=
  match streams with
  | [] => Ok result
  | (dict, payload) :: streams' =>
    decoded ← wrapErr "reader: decoding page content" (decodeStream dict payload);
    let result := result ++ decoded in
    let result := result ++ [10] in
    contentStreamLoop streams' result
  end.

Definition ContentStream (p : Page) : outcome (list Z) :=
  contentStreamLoop (Contents p) [].

Definition numberOf (o : Object) : option float64 :=
  match o with
  | Integer n => Some (floatOfInt n)
  | Real r => Some r
  | _ => None
  end.

(** [parseRectangle] parses a PDF rectangle array [llx lly urx ury]. *)
Definition parseRectangle (obj : Object) : outcome Rectangle :=
  match obj with
  | Array [a; b; c; e] =>
    match numberOf a, numberOf b, numberOf c, numberOf e with
    | Some x0, Some x1, Some x2, Some x3 => Ok (mkRect x0 x1 x2 x3)
    | _, _, _, _ => Err "reader: rectangle element is not numeric"
    end
  | _ => Err "reader: rectangle must be a 4-element array"
  end.

Definition zeroRect : Rectangle :=
  mkRect (floatOfInt 0) (floatOfInt 0) (floatOfInt 0) (floatOfInt 0).

(** [v, err := f(); if err == nil { ... }]: an error leaves the default. *)
Definition orElse {A} (m : outcome A) (dflt : A) : outcome A :=
  match m with
  | Err _ => Ok dflt
  | o => o
  end.

(** The streams of a [/Contents] array: items that do not resolve, or do not
    resolve to a stream, are skipped. *)
Fixpoint contentsOfArray (d : Document) (items : list Object)
    : outcome (list (gmap (list Z) Object * list Z)) :=
  match items with
  | [] => Ok []
  | item :: items' =>
    streamObj ← orElse (resolveIfRef d item) Null;
    tl ← contentsOfArray d items';
    match streamObj with
    | Stream sd payload => Ok ((sd, payload) :: tl)
    | _ => Ok tl
    end
  end.

(** The inherited attributes, overridden by the node's own. *)
Definition mergeInherited (node inherited : gmap (list Z) Object)
    : gmap (list Z) Object :=
  foldl (fun merged k =>
           match node !! k with
           | Some v => <[k := v]> merged
           | None => merged
           end)
        inherited
        [bytes_of "MediaBox"; bytes_of "CropBox"; bytes_of "Resources";
         bytes_of "Rotate"].

(** The leaf case of [traversePageTree]: the page built from [node]. *)
Definition makePage (d : Document) (number : Z)
    (node merged : gmap (list Z) Object) : outcome Page :=
  (* MediaBox *)
  mediaBox ←
    match merged !! bytes_of "MediaBox" with
    | Some mb =>
      orElse (resolved ← resolveIfRef d mb; parseRectangle resolved) zeroRect
    | None => Ok zeroRect
    end;
  (* CropBox *)
  cropBox ←
    match merged !! bytes_of "CropBox" with
    | Some cb =>
      orElse (resolved ← resolveIfRef d cb;
              rect ← parseRectangle resolved; Ok (Some rect)) None
    | None => Ok None
    end;
  (* Resources *)
  resources ←
    match merged !! bytes_of "Resources" with
    | Some res =>
      resolved ← orElse (resolveIfRef d res) Null;
      match resolved with
      | Dict resDict => Ok (Some resDict)
      | _ => Ok None
      end
    | None => Ok None
    end;
  (* Rotate *)
  rotate ←
    match merged !! bytes_of "Rotate" with
    | Some rotVal =>
      resolved ← orElse (resolveIfRef d rotVal) Null;
      match resolved with
      | Integer intVal => Ok intVal
      | _ => Ok 0
      end
    | None => Ok 0
    end;
  (* Contents *)
  contents ←
    match node !! bytes_of "Contents" with
    | Some contents =>
      resolved ← wrapErr "reader: page contents" (resolveIfRef d contents);
      match resolved with
      | Stream sd payload => Ok [(sd, payload)]
      | Array items => contentsOfArray d items
      | _ => Ok []
      end
    | None => Ok []
    end;
  Ok (mkPage number mediaBox cropBox resources contents rotate node).

(** The [/Kids] of a Pages node: the array itself, or the array an indirect
    reference resolves to. *)
Definition pageKids (d : Document) (node : gmap (list Z) Object)
    : outcome (list Object) :=
  match default [] (GetArray node (bytes_of "Kids")) with
  | [] =>
    match node !! bytes_of "Kids" with
    | Some (Reference num gen) =>
      kidsObj ← wrapErr "reader: resolving /Kids" (resolve d num gen);
      match kidsObj with
      | Array a => Ok a
      | _ => Ok []
      end
    | _ => Ok []
    end
  | kids => Ok kids
  end.

Section PageTree.
(** The recursive call of [traversePageTree] on a kid. *)
Variable traverse : list Page -> gmap (list Z) Object -> gmap (list Z) Object
                    -> Z -> outcome (list Page).

Fixpoint traverseKids (d : Document) (acc : list Page) (kids : list Object)
    (merged : gmap (list Z) Object) (rotate : Z) : outcome (list Page) :=
  match kids with
  | [] => Ok acc
  | kid :: kids' =>
    kidObj ← wrapErr "reader: resolving page tree kid" (resolveIfRef d kid);
    match kidObj with
    | Dict kidDict =>
      acc ← traverse acc kidDict merged rotate;
      traverseKids d acc kids' merged rotate
    | _ => traverseKids d acc kids' merged rotate
    end
  end.

(** The body of [traversePageTree]; [acc] is [d.pages]. *)
Definition traverseNode (d : Document) (acc : list Page)
    (node inherited : gmap (list Z) Object) (rotate : Z)
    : outcome (list Page) :=
  let nodeType := GetName node (bytes_of "Type") in
  (* Inherit properties from parent, override with node's own *)
  let merged := mergeInherited node inherited in
  if decide (nodeType = bytes_of "Page") then
    page ← makePage d (Z.of_nat (length acc) + 1) node merged;
    Ok (acc ++ [page])
  else
    (* Pages node - traverse children *)
    kids ← pageKids d node;
    traverseKids d acc kids merged rotate.
End PageTree.

(** [traversePageTree] recursively traverses the page tree collecting leaf
    pages.  The source has no bound on the recursion; [fuel] is the depth at
    which the model gives up. *)
Fixpoint traversePageTree (fuel : nat) (d : Document) (acc : list Page)
    (node inherited : gmap (list Z) Object) (rotate : Z) : outcome (list Page) :=
  match fuel with
  | O => OutOfFuel
  | S n => traverseNode (traversePageTree n d) d acc node inherited rotate
  end.

(** The page tree below [node] has depth at most [n]: [node] is a leaf page,
    or every dictionary among its resolved kids has depth at most [n - 1]. *)
Inductive PageTreeDepth (d : Document) : gmap (list Z) Object -> nat -> Prop :=
| depth_page (node : gmap (list Z) Object) (n : nat) :
    GetName node (bytes_of "Type") = bytes_of "Page" ->
    PageTreeDepth d node n
| depth_pages (node : gmap (list Z) Object) (n : nat) :
    GetName node (bytes_of "Type") <> bytes_of "Page" ->
    (forall kids kid kidDict,
       pageKids d node = Ok kids -> kid ∈ kids ->
       resolveIfRef d kid = Ok (Dict kidDict) ->
       PageTreeDepth d kidDict n) ->
    PageTreeDepth d node (S n).

(** The root of the page tree: the [/Pages] dictionary of the catalog. *)
Definition pagesRoot (d : Document) : outcome (gmap (list Z) Object) :=
  catalog ←
    match GetDict (trailer d) (bytes_of "Root") with
    | Some catalog => Ok catalog
    | None =>
      (* Root might be a reference *)
      match trailer d !! bytes_of "Root" with
      | Some (Reference num gen) =>
        rootObj ← wrapErr "reader: resolving root" (resolve d num gen);
        match rootObj with
        | Dict catalog => Ok catalog
        | _ => Err "reader: /Root is not a dictionary"
        end
      | _ => Err "reader: missing /Root in trailer"
      end
    end;
  match catalog !! bytes_of "Pages" with
  | Some (Reference num gen) =>
    pagesObj ← wrapErr "reader: resolving /Pages" (resolve d num gen);
    match pagesObj with
    | Dict pagesDict => Ok pagesDict
    | _ => Err "reader: /Pages is not a dictionary"
    end
  | _ => Err "reader: /Pages is not a reference"
  end.

(** [buildPageList] traverses the page tree and returns a flat list of
    pages. *)
Definition buildPageList (fuel : nat) (d : Document) : outcome Document :=
  pagesDict ← pagesRoot d;
  ps ← traversePageTree fuel d [] pagesDict ∅ 0;
  Ok (set_pages d ps).

(** [parseWithPassword] parses a PDF, attempting to decrypt if encrypted.
    [fuel] bounds the [/Prev] chain and the depth of the page tree. *)
Definition parseWithPassword (fuel : nat) (d : list Z) (password : list Z)
    : outcome Document :=
  (* Find and parse cross-reference table *)
  startXRef ← findStartXRef d;
  '(xr, tr) ← parseXRefTable fuel d startXRef;
  let doc := mkDocument (parseVersion d) xr tr d [] None in
  (* Handle encryption *)
  doc ← (if isEncrypted doc then wrapErr "reader" (decrypt doc password)
         else Ok doc);
  (* Build page list from page tree *)
  buildPageList fuel doc.

Definition parse (fuel : nat) (d : list Z) : outcome Document :=
  parseWithPassword fuel d [].

(** [ReadFrom] on a reader that delivers the bytes [d]. *)
Definition ReadFrom (fuel : nat) (d : list Z) : outcome Document :=
  parse fuel d.

Definition NumPages (d : Document) : nat := length (pages d).

(** ** Strings of the document (text.go) *)

(** [utf8.AppendRune]: the UTF-8 encoding of a code point. *)
Definition encodeRune (r : Z) : list Z :=
  if r <? 0x80 then [r]
  else if r <? 0x800 then [Z.lor 0xC0 (Z.shiftr r 6); Z.lor 0x80 (Z.land r 0x3F)]
  else if (0x10FFFF <? r) || ((0xD800 <=? r) && (r <=? 0xDFFF))
  then [0xEF; 0xBF; 0xBD]
  else if r <? 0x10000 then
    [Z.lor 0xE0 (Z.shiftr r 12); Z.lor 0x80 (Z.land (Z.shiftr r 6) 0x3F);
     Z.lor 0x80 (Z.land r 0x3F)]
  else
    [Z.lor 0xF0 (Z.shiftr r 18); Z.lor 0x80 (Z.land (Z.shiftr r 12) 0x3F);
     Z.lor 0x80 (Z.land (Z.shiftr r 6) 0x3F); Z.lor 0x80 (Z.land r 0x3F)].

(** [utf16.Decode]: surrogate pairs are combined, lone surrogates become
    U+FFFD. *)
Fixpoint utf16Decode (l : list Z) : list Z :=
  match l with
  | [] => []
  | r :: l' =>
    if (r <? 0xD800) || (0xE000 <=? r) then r :: utf16Decode l'
    else
      match l' with
      | r2 :: l'' =>
        if (r <? 0xDC00) && (0xDC00 <=? r2) && (r2 <? 0xE000)
        then (Z.lor (Z.shiftl (r - 0xD800) 10) (r2 - 0xDC00) + 0x10000)
               :: utf16Decode l''
        else 0xFFFD :: utf16Decode l'
      | [] => 0xFFFD :: utf16Decode l'
      end
  end.

Fixpoint pairsBE (l : list Z) : list Z :=
  match l with
  | a :: b :: l' => Z.lor (Z.shiftl a 8) b :: pairsBE l'
  | _ => []
  end.

(** [decodeUTF16BE] decodes UTF-16BE encoded bytes to a Go string. *)
Definition decodeUTF16BE (d : list Z) : list Z :=
  let d := if Nat.odd (length d) then d ++ [0] else d in
  utf16Decode (pairsBE d) ≫= encodeRune.

(** [decodePDFString] handles UTF-16BE BOM and falls back to Latin-1. *)
Definition decodePDFString (d : list Z) : list Z :=
  match d with
  | 0xFE :: 0xFF :: d' => decodeUTF16BE d'
  | _ => d ≫= encodeRune
  end.

(** [fmt.Sprintf("%d", n)] *)
Definition formatInt (n : Z) : list Z := bytes_of (pretty n).

(** ** AcroForm fields (form.go of the reader) *)

Inductive FormField : Type := mkFormField {
  ff_Name : list Z;          (* partial field name (/T) *)
  FullName : list Z;         (* fully qualified dotted name *)
  ff_Type : list Z;          (* field type: "Tx", "Btn", "Ch", "Sig" *)
  ff_Value : list Z;         (* current value (/V) *)
  ff_Default : list Z;       (* default value (/DV) *)
  Flags : Z;                 (* field flags (/Ff) *)
  Rect : Rectangle;          (* widget annotation rectangle *)
  Options : list (list Z);   (* choice options (/Opt) for "Ch" fields *)
  Kids : list FormField;     (* child fields in hierarchy *)
  ObjNum : Z;                (* object number if from an indirect object *)
  ff_dict : gmap (list Z) Object
}.

Definition set_Type (f : FormField) (t : list Z) : FormField :=
  mkFormField (ff_Name f) (FullName f) t (ff_Value f) (ff_Default f) (Flags f)
    (Rect f) (Options f) (Kids f) (ObjNum f) (ff_dict f).

(** [objectToString] converts a PDF object to its string representation for
    field values. *)
Definition objectToString (obj : Object) : list Z :=
  match obj with
  | String v _ => decodePDFString v
  | Name n => n
  | Integer n => formatInt n
  | Real r => formatG r
  | Boolean b => if b then bytes_of "true" else bytes_of "false"
  | _ => []
  end.

(** [Catalog] returns the document's catalog dictionary (the /Root object). *)
Definition Catalog (d : Document) : outcome (gmap (list Z) Object) :=
  match trailer d !! bytes_of "Root" with
  | None => Err "reader: missing /Root in trailer"
  | Some rootObj =>
    resolved ← wrapErr "reader: resolving /Root" (resolveIfRef d rootObj);
    match resolved with
    | Dict catalog => Ok catalog
    | _ => Err "reader: /Root is not a dictionary"
    end
  end.

Section FieldTree.
(** The recursive call of [parseFormField] on a kid. *)
Variable parseKid : Object -> list Z -> outcome FormField.

(** The loop over [/Kids]: malformed kids are skipped, a kid without a
    type inherits it. *)
Fixpoint parseKids (kidsArr : list Object) (fullName type : list Z)
    : outcome (list FormField) :=
  match kidsArr with
  | [] => Ok []
  | kidObj :: kidsArr' =>
    kid ← orElse (k ← parseKid kidObj fullName; Ok (Some k)) None;
    tl ← parseKids kidsArr' fullName type;
    match kid with
    | Some kid =>
      (* Inherit field type from parent *)
      let kid := if decide (ff_Type kid = []) then set_Type kid type else kid in
      Ok (kid :: tl)
    | None => Ok tl
    end
  end.

Definition parseFormFieldBody (d : Document) (obj : Object)
    (parentName : list Z) : outcome FormField :=
  (* Track object number for indirect objects *)
  let objNum := match obj with Reference num _ => num | _ => 0 end in
  resolved ← resolveIfRef d obj;
  match resolved with
  | Dict dict =>
    (* Partial name (/T) *)
    let name := match dict !! bytes_of "T" with
                | Some (String v _) => decodePDFString v
                | _ => []
                end in
    (* Build full name *)
    let fullName :=
      if negb (bool_decide (parentName = [])) && negb (bool_decide (name = []))
      then parentName ++ bytes_of "." ++ name
      else if negb (bool_decide (name = [])) then name
      else parentName in
    (* Field type (/FT), may be inherited from parent *)
    let type := GetName dict (bytes_of "FT") in
    let value := match dict !! bytes_of "V" with
                 | Some v => objectToString v | None => [] end in
    let dflt := match dict !! bytes_of "DV" with
                | Some dv => objectToString dv | None => [] end in
    let flags := default 0 (GetInt dict (bytes_of "Ff")) in
    (* Rectangle (/Rect) *)
    rect ← match dict !! bytes_of "Rect" with
           | Some rectObj =>
             orElse (rectResolved ← resolveIfRef d rectObj;
                     parseRectangle rectResolved) zeroRect
           | None => Ok zeroRect
           end;
    (* Options (/Opt) for choice fields *)
    options ← match dict !! bytes_of "Opt" with
              | Some optObj =>
                optResolved ← orElse (resolveIfRef d optObj) Null;
                match optResolved with
                | Array optArr => Ok (objectToString <$> optArr)
                | _ => Ok []
                end
              | None => Ok []
              end;
    (* Kids (/Kids): traverse field hierarchy *)
    kids ← match dict !! bytes_of "Kids" with
           | Some kidsObj =>
             kidsResolved ← orElse (resolveIfRef d kidsObj) Null;
             match kidsResolved with
             | Array kidsArr => parseKids kidsArr fullName type
             | _ => Ok []
             end
           | None => Ok []
           end;
    Ok (mkFormField name fullName type value dflt flags rect options kids
          objNum dict)
  | _ => Err "reader: form field is not a dictionary"
  end.
End FieldTree.

(** [parseFormField] parses a single form field dictionary; [fuel] bounds the
    depth of the [/Kids] hierarchy. *)
Fixpoint parseFormField (fuel : nat) (d : Document) (obj : Object)
    (parentName : list Z) : outcome FormField :=
  match fuel with
  | O => OutOfFuel
  | S n => parseFormFieldBody (parseFormField n d) d obj parentName
  end.

Fixpoint parseFields (fuel : nat) (d : Document) (fieldsArr : list Object)
    : outcome (list FormField) :=
  match fieldsArr with
  | [] => Ok []
  | fieldObj :: fieldsArr' =>
    (* skip malformed fields *)
    field ← orElse (f ← parseFormField fuel d fieldObj []; Ok (Some f)) None;
    tl ← parseFields fuel d fieldsArr';
    Ok (match field with Some f => f :: tl | None => tl end)
  end.

(** [FormFields] returns all form fields found in the document's AcroForm;
    an empty slice if no AcroForm is present. *)
Definition FormFields (fuel : nat) (d : Document) : outcome (list FormField) :=
  catalog ← orElse (c ← Catalog d; Ok (Some c)) None;
  match catalog with
  | None => Ok []
  | Some catalog =>
    match catalog !! bytes_of "AcroForm" with
    | None => Ok []
    | Some acroFormObj =>
      acroForm ← wrapErr "reader: resolving AcroForm" (resolveIfRef d acroFormObj);
      match acroForm with
      | Dict acroDict =>
        match acroDict !! bytes_of "Fields" with
        | None => Ok []
        | Some fieldsObj =>
          fieldsResolved ←
            wrapErr "reader: resolving AcroForm /Fields" (resolveIfRef d fieldsObj);
          match fieldsResolved with
          | Array fieldsArr => parseFields fuel d fieldsArr
          | _ => Ok []
          end
        end
      | _ => Ok []
      end
    end
  end.

(** The entry of [o] in the first section of [secs] that has one. *)
Definition firstEntry (o : Z) (e : xrefEntry)
    (secs : list (gmap Z xrefEntry * gmap (list Z) Object)) : Prop :=
  exists i sec, secs !! i = Some sec /\ sec.1 !! o = Some e /\
    forall j sec', (j < i)%nat -> secs !! j = Some sec' -> sec'.1 !! o = None.

(** ** Package form: byte-level editing (fill.go, flatten.go) *)

(** [d'] is [d] with some bytes overwritten by spaces. *)
Definition blanked (d d' : list Z) : Prop :=
  length d' = length d /\
  forall (i : nat) (b : Z), d' !! i = Some b -> d !! i = Some b \/ b = ch " ".

(** [strings.ReplaceAll] of a single byte. *)
Definition replaceByte (old : Z) (new : list Z) (s : list Z) : list Z :=
  s ≫= (fun b => if b =? old then new else [b]).

(** [escapePDFString] escapes special characters in a PDF string. *)
Definition escapePDFString (s : list Z) : list Z :=
  let s := replaceByte (backslash) [backslash; backslash] s in
  let s := replaceByte (ch "(") [backslash; ch "("] s in
  let s := replaceByte (ch ")") [backslash; ch ")"] s in
  s.

(** [flattenFields] returns a flat list of all form fields, recursing into
    kids. *)
Fixpoint flattenFields (fields : list FormField) : list FormField :=
  match fields with
  | [] => []
  | f :: fields' =>
    f :: (fix kidsOf (f : FormField) : list FormField :=
            match f with
            | mkFormField _ _ _ _ _ _ _ _ kids _ _ =>
              (fix each (l : list FormField) : list FormField :=
                 match l with
                 | [] => []
                 | k :: l' => k :: kidsOf k ++ each l'
                 end) kids
            end) f
      ++ flattenFields fields'
  end.

(** [findDictStart] searches backward from pos for the nearest "<<". *)
Fixpoint findDictStartLoop (d : list Z) (i : nat) (depth : Z) : option nat :=
  match i with
  | O => None
  | S i' =>
    let depth :=
      if bool_decide (d !! i = Some (ch ">")) &&
         bool_decide (d !! S i = Some (ch ">"))
      then depth + 1 else depth in
    if bool_decide (d !! i = Some (ch "<")) &&
       bool_decide (d !! i' = Some (ch "<"))
    then if depth =? 0 then Some i' else findDictStartLoop d i' (depth - 1)
    else findDictStartLoop d i' depth
  end.

Definition findDictStart (d : list Z) (pos : nat) : option nat :=
  findDictStartLoop d (pos - 1) 0.

(** [findDictEnd] searches forward from pos for the matching ">>".  [l] is
    [data[i:]]. *)
Fixpoint findDictEndLoop (l : list Z) (i : nat) (depth : Z) : option nat :=
  match l with
  | a :: l' =>
    match l' with
    | b :: l'' =>
      if (a =? ch "<") && (b =? ch "<") then findDictEndLoop l'' (i + 2) (depth + 1)
      else if (a =? ch ">") && (b =? ch ">") then
        if depth <=? 1 then Some i else findDictEndLoop l'' (i + 2) (depth - 1)
      else findDictEndLoop l' (i + 1) depth
    | [] => None
    end
  | [] => None
  end.

Definition findDictEnd (d : list Z) (pos : nat) : option nat :=
  findDictEndLoop (drop pos d) pos 0.

(** [re.FindAllIndex(b, -1)] and [re.FindIndex(b)]. *)
Definition FindAllIndex (re : string) (b : list Z) : list (Z * Z) :=
  (fun m => (nth 0 m 0, nth 1 m 0)) <$> FindAllSubmatchIndex re b.

Definition FindIndex (re : string) (b : list Z) : option (Z * Z) :=
  head (FindAllIndex re b).

(** [for i := lo; i < hi; i++ { data[i] = ' ' }]: the write at an index
    outside the slice panics. *)
Definition blankRange (lo hi : Z) (d : list Z) : outcome (list Z) :=
  if (lo <? hi) && ((lo <? 0) || (Z.of_nat (length d) <? hi))
  then Panic "index out of range"
  else
    let n := Z.to_nat (hi - lo) in
    Ok (take (Z.to_nat lo) d ++ replicate n (ch " ") ++ drop (Z.to_nat lo + n) d).

Fixpoint blankRanges (locs : list (Z * Z)) (d : list Z) : outcome (list Z) :=
  match locs with
  | [] => Ok d
  | (lo, hi) :: locs' => d ← blankRange lo hi d; blankRanges locs' d
  end.

(** [blankPattern] replaces all matches of a regex pattern in data with
    spaces. *)
Definition blankPattern (d : list Z) (pattern : string) : outcome (list Z) :=
  blankRanges (FindAllIndex pattern d) d.

(** [blankPattern(data[lo:hi], pattern)]: the slice shares the bytes of
    [data], which sees the writes. *)
Definition blankPatternIn (d : list Z) (lo hi : nat) (pattern : string)
    : outcome (list Z) :=
  window ← blankPattern (take (hi - lo) (drop lo d)) pattern;
  Ok (take lo d ++ window ++ drop hi d).

(** The inline dictionary after [/AcroForm]: the index after its closing
    ">>", or 0.  [l] is [data[i:]]. *)
Fixpoint acroDictEnd (l : list Z) (i : nat) (depth : nat) : nat :=
  match depth with
  | O => 0%nat
  | S dp =>
    match l with
    | a :: l' =>
      match l' with
      | b :: l'' =>
        if (a =? ch "<") && (b =? ch "<") then acroDictEnd l'' (i + 2) (S depth)
        else if (a =? ch ">") && (b =? ch ">") then
          if (dp =? 0)%nat then (i + 2)%nat else acroDictEnd l'' (i + 2) dp
        else acroDictEnd l' (i + 1) depth
      | [] => 0%nat
      end
    | [] => 0%nat
    end
  end.

(** The bytes ' ', '\n', '\r' after [/AcroForm]. *)
Fixpoint acroGap (l : list Z) : nat :=
  match l with
  | b :: l' => if (b =? ch " ") || (b =? 10) || (b =? 13) then S (acroGap l') else 0%nat
  | [] => 0%nat
  end.

(** [blankAcroForm] replaces the /AcroForm entry in the catalog with spaces
    (same byte length) to preserve xref offsets. *)
Definition blankAcroForm (d : list Z) : outcome (list Z) :=
  match bytesIndex d (bytes_of "/AcroForm") with
  | None => Ok d
  | Some acroStart =>
    (* Find what follows /AcroForm *)
    let pos := (acroStart + 9)%nat in
    let pos := (pos + acroGap (drop pos d))%nat in
    let acroEnd :=
      if bool_decide (d !! pos = Some (ch "<")) &&
         bool_decide (d !! S pos = Some (ch "<"))
      then (* Inline dict: find matching >> *)
        Z.of_nat (acroDictEnd (drop (pos + 2) d) (pos + 2) 1)
      else (* Reference: /AcroForm N N R *)
        match FindIndex "\d+\s+\d+\s+R" (drop pos d) with
        | Some (0, e) => Z.of_nat pos + e
        | _ => 0
        end in
    if acroEnd <=? Z.of_nat acroStart then Ok d
    else (* Replace with spaces (preserves byte offsets) *)
      blankRange (Z.of_nat acroStart) acroEnd d
  end.

(** [blankFieldMarkers] replaces interactive field markers with spaces to
    de-interactivize the field while preserving byte offsets. *)
Definition blankFieldDict (d : list Z) (pattern : list Z)
    : option (outcome (list Z)) :=
  match bytesIndex d pattern with
  | None => None
  | Some idx =>
    match findDictStart d idx, findDictEnd d idx with
    | Some dictStart, Some dictEnd =>
      let lo := dictStart in
      let hi := (dictEnd + 2)%nat in
      Some (
        if (hi <? lo)%nat || (length d <? hi)%nat
        then Panic "slice bounds out of range"
        else
          (* Blank out /FT /Type entries *)
          d ← blankPatternIn d lo hi "/FT\s+/[A-Za-z]+";
          (* Blank out /Subtype /Widget *)
          d ← blankPatternIn d lo hi "/Subtype\s+/Widget";
          (* Blank out /DA (default appearance) *)
          d ← blankPatternIn d lo hi "/DA\s*\([^)]*\)";
          (* Blank out /NeedAppearances *)
          blankPatternIn d lo hi "/NeedAppearances\s+(true|false)")
    | _, _ => None
    end
  end.

Definition blankFieldMarkers (d : list Z) (field : FormField) : outcome (list Z) :=
  let escapedName := escapePDFString (ff_Name field) in
  match blankFieldDict d (bytes_of "/T (" ++ escapedName ++ bytes_of ")") with
  | Some r => r
  | None =>
    match blankFieldDict d (bytes_of "/T(" ++ escapedName ++ bytes_of ")") with
    | Some r => r
    | None => Ok d
    end
  end.

Fixpoint blankAllFields (d : list Z) (fields : list FormField) : outcome (list Z) :=
  match fields with
  | [] => Ok d
  | f :: fields' => d ← blankFieldMarkers d f; blankAllFields d fields'
  end.

(** *** Readers and writers *)

(** An [io.ReadSeeker] over a byte buffer, and what [io.ReadAll] returns. *)
Record ReadSeeker := mkReader { content : list Z; offset : nat }.

Definition ReadAll (r : ReadSeeker) : list Z := drop (offset r) (content r).

(** The state of a form operation: the bytes written to [output] so far and
    the working copy [modified], once it exists. *)
Record editState := mkEdit { output : list Z; modified : option (list Z) }.

(** [Flatten] reads a PDF with form fields and removes the interactive
    AcroForm structure, using space-replacement to preserve byte offsets. *)
Definition Flatten (fuel : nat) (input : ReadSeeker) (out : list Z)
    : outcome unit * editState :=
  let d := ReadAll input in
  match wrapErr "form: parsing PDF" (ReadFrom fuel d) with
  | Ok doc =>
    match wrapErr "form: reading form fields" (FormFields fuel doc) with
    | Ok fields =>
      if (length fields =? 0)%nat then (Ok (), mkEdit (out ++ d) None)
      else
        let work := d in
        (* Blank out /AcroForm from the catalog, then the markers of each field *)
        match (w ← blankAcroForm work; blankAllFields w (flattenFields fields)) with
        | Ok w => (Ok (), mkEdit (out ++ w) (Some w))
        | Err e => (Err e, mkEdit out (Some work))
        | Panic e => (Panic e, mkEdit out (Some work))
        | OutOfFuel => (OutOfFuel, mkEdit out (Some work))
        end
    | Err e => (Err e, mkEdit out None)
    | Panic e => (Panic e, mkEdit out None)
    | OutOfFuel => (OutOfFuel, mkEdit out None)
    end
  | Err e => (Err e, mkEdit out None)
  | Panic e => (Panic e, mkEdit out None)
  | OutOfFuel => (OutOfFuel, mkEdit out None)
  end.

(** [s[lo:hi]] with the bounds check of Go. *)
Definition sliceRange (d : list Z) (lo hi : Z) : outcome (list Z) :=
  if (lo <? 0) || (hi <? lo) || (Z.of_nat (length d) <? hi)
  then Panic "slice bounds out of range"
  else Ok (take (Z.to_nat (hi - lo)) (drop (Z.to_nat lo) d)).

(** [fmt.Sprintf("%0<w>d", n)] for a non-negative [n]. *)
Definition formatPadded (w : nat) (n : Z) : list Z :=
  let ds := formatInt n in
  replicate (w - length ds) (ch "0") ++ ds.

(** The new [/V] entry of a field. *)
Definition newValueStr (field : FormField) (value : list Z) : list Z :=
  if decide (ff_Type field = bytes_of "Btn") then
    if bool_decide (value = bytes_of "true") || bool_decide (value = bytes_of "Yes")
       || bool_decide (value = bytes_of "on")
    then bytes_of "/V /Yes /AS /Yes"
    else bytes_of "/V /Off /AS /Off"
  else bytes_of "/V (" ++ escapePDFString value ++ bytes_of ")".

(** The field dictionary with its [/V] entry replaced or inserted. *)
Definition replaceValue (fieldDict newValue : list Z) : outcome (list Z) :=
  match FindIndex "/V\s*\([^)]*\)" fieldDict with
  | Some (lo, hi) =>
    pre ← sliceRange fieldDict 0 lo;
    post ← sliceRange fieldDict hi (Z.of_nat (length fieldDict));
    Ok (pre ++ newValue ++ post)
  | None =>
    match FindIndex "/V\s+/[A-Za-z]+(\s+/AS\s+/[A-Za-z]+)?" fieldDict with
    | Some (lo, hi) =>
      pre ← sliceRange fieldDict 0 lo;
      post ← sliceRange fieldDict hi (Z.of_nat (length fieldDict));
      Ok (pre ++ newValue ++ post)
    | None =>
      pre ← sliceRange fieldDict 0 (Z.of_nat (length fieldDict) - 2);
      Ok (pre ++ [ch " "] ++ newValue ++ bytes_of ">>")
    end
  end.

(** [setFieldValue] modifies the raw PDF bytes to set a field's /V entry;
    it processes up to 10 occurrences. *)
Fixpoint setFieldValueLoop (passes : nat) (d : list Z) (field : FormField)
    (value : list Z) : outcome (list Z) :=
  match passes with
  | O => Ok d
  | S passes' =>
    let escapedName := escapePDFString (ff_Name field) in
    let pattern := bytes_of "/T (" ++ escapedName ++ bytes_of ")" in
    let altPattern := bytes_of "/T(" ++ escapedName ++ bytes_of ")" in
    let idx := match bytesIndex d pattern with
               | Some idx => Some idx
               | None => bytesIndex d altPattern
               end in
    match idx with
    | None => Ok d
    | Some idx =>
      match findDictStart d idx, findDictEnd d idx with
      | Some dictStart, Some dictEnd =>
        fieldDict ← sliceRange d (Z.of_nat dictStart) (Z.of_nat dictEnd + 2);
        newDict ← replaceValue fieldDict (newValueStr field value);
        if decide (fieldDict = newDict) then Ok d
        else
          setFieldValueLoop passes'
            (take dictStart d ++ newDict ++ drop (dictEnd + 2) d) field value
      | _, _ => Ok d
      end
    end
  end.

Definition setFieldValue (d : list Z) (field : FormField) (value : list Z)
    : outcome (list Z) :=
  setFieldValueLoop 10 d field value.

(** One "N G obj" header found by the scan. *)
Record objInfo := mkObjInfo { oi_num : Z; oi_gen : Z; oi_offset : Z }.

Fixpoint objHeaders (d : list Z) (matches : list (list Z))
    : outcome (list objInfo) :=
  match matches with
  | [] => Ok []
  | m :: matches' =>
    match m with
    | m0 :: _ :: m2 :: m3 :: m4 :: m5 :: _ =>
      numTxt ← sliceRange d m2 m3;
      genTxt ← sliceRange d m4 m5;
      tl ← objHeaders d matches';
      Ok (mkObjInfo (Atoi_value numTxt) (Atoi_value genTxt) m0 :: tl)
    | _ => Panic "index out of range"
    end
  end.

(** The lines of the new table for the objects 1..maxObj. *)
Definition xrefLines (offsets : gmap Z objInfo) (maxObj : Z) : list Z :=
  (Z.of_nat <$> seq 1 (Z.to_nat maxObj)) ≫= (fun i =>
    match offsets !! i with
    | Some obj =>
      formatPadded 10 (oi_offset obj) ++ bytes_of " "
        ++ formatPadded 5 (oi_gen obj) ++ bytes_of " n " ++ [10]
    | None => bytes_of "0000000000 00000 f " ++ [10]
    end).

(** [rebuildXref] scans the PDF body for object definitions and rebuilds the
    xref table with correct offsets. *)
Definition rebuildXref (d : list Z) : outcome (list Z) :=
  (* Find all "N G obj" markers *)
  match FindAllSubmatchIndex "(?m)^(\d+)\s+(\d+)\s+obj\b" d with
  | [] => Ok d
  | matches =>
    objects ← objHeaders d matches;
    let maxObj := foldl (fun mx o => if mx <? oi_num o then oi_num o else mx)
                        0 objects in
    (* Find old xref table position *)
    let xrefIdx :=
      match bytesLastIndex d ([10] ++ bytes_of "xref" ++ [10]) with
      | Some k => Some k
      | None =>
        match bytesIndex d (bytes_of "xref" ++ [10]) with
        | Some k => Some (k - 1)%nat   (* include preceding newline *)
        | None => None
        end
      end in
    match xrefIdx with
    | None => Ok d
    | Some xrefIdx =>
      (* Extract trailer dict *)
      match bytesIndex (drop xrefIdx d) (bytes_of "trailer") with
      | None => Ok d
      | Some trailerIdx =>
        let trailerAbsIdx := (xrefIdx + trailerIdx)%nat in
        match bytesIndex (drop trailerAbsIdx d) (bytes_of "startxref") with
        | None => Ok d
        | Some startxrefIdx =>
          raw ← sliceRange d (Z.of_nat trailerAbsIdx + 7)
                             (Z.of_nat trailerAbsIdx + Z.of_nat startxrefIdx);
          let trailerDict := TrimSpace raw in
          (* Body = everything up to and including the newline before "xref" *)
          let body := take (xrefIdx + 1) d in
          (* Build new xref *)
          let offsets :=
            foldl (fun m o => <[oi_num o := o]> m) (∅ : gmap Z objInfo) objects in
          let xr := bytes_of "xref" ++ [10]
                    ++ bytes_of "0 " ++ formatInt (wrap64 (maxObj + 1)) ++ [10]
                    ++ bytes_of "0000000000 65535 f " ++ [10]
                    ++ xrefLines offsets maxObj in
          (* Calculate new xref offset *)
          let newXrefOffset := Z.of_nat (length body) in
          (* Assemble result *)
          Ok (body ++ xr ++ bytes_of "trailer" ++ [10] ++ trailerDict
                ++ [10] ++ bytes_of "startxref" ++ [10]
                ++ formatInt newXrefOffset ++ [10] ++ bytes_of "%%EOF" ++ [10])
        end
      end
    end
  end.

(** The map from fully qualified names to fields. *)
Definition fieldMapOf (allFields : list FormField) : gmap (list Z) FormField :=
  foldl (fun m f => <[FullName f := f]> m) ∅ allFields.

(** The first loop over [values]: the first name without a field. *)
Definition unknownField (fieldMap : gmap (list Z) FormField)
    (values : gmap (list Z) (list Z)) : option (list Z) :=
  fst <$> List.find (fun '(name, _) => bool_decide (fieldMap !! name = None))
            (rangeOrder values).

(** The second loop over [values]: each field is set in the working copy. *)
Fixpoint setAll (fieldMap : gmap (list Z) FormField)
    (entries : list (list Z * list Z)) (work : list Z) : outcome (list Z) :=
  match entries with
  | [] => Ok work
  | (name, value) :: entries' =>
    match fieldMap !! name with
    | Some field =>
      work ← setFieldValue work field value; setAll fieldMap entries' work
    | None => Panic "nil pointer dereference"
    end
  end.

(** [Fill] reads a PDF from input, fills form fields with the provided
    values, and writes the result to output. *)
Definition Fill (fuel : nat) (input : ReadSeeker) (out : list Z)
    (values : gmap (list Z) (list Z)) : outcome unit * editState :=
  if (size values =? 0)%nat then
    (* input.Seek(0, io.SeekStart); io.Copy(output, input) *)
    (Ok (), mkEdit (out ++ content input) None)
  else
    let d := ReadAll input in
    match wrapErr "form: parsing PDF" (ReadFrom fuel d) with
    | Ok doc =>
      match wrapErr "form: reading form fields" (FormFields fuel doc) with
      | Ok fields =>
        if (length fields =? 0)%nat
        then (Err "form: no form fields found in PDF", mkEdit out None)
        else
          let allFields := flattenFields fields in
          let fieldMap := fieldMapOf allFields in
          match unknownField fieldMap values with
          | Some name => (Err "form: field not found in PDF", mkEdit out None)
          | None =>
            (* Work on a copy *)
            let work := d in
            match (w ← setAll fieldMap (rangeOrder values) work;
                   (* Rebuild xref table to account for any byte offset changes *)
                   rebuildXref w) with
            | Ok w => (Ok (), mkEdit (out ++ w) (Some w))
            | Err e => (Err e, mkEdit out (Some work))
            | Panic e => (Panic e, mkEdit out (Some work))
            | OutOfFuel => (OutOfFuel, mkEdit out (Some work))
            end
          end
      | Err e => (Err e, mkEdit out None)
      | Panic e => (Panic e, mkEdit out None)
      | OutOfFuel => (OutOfFuel, mkEdit out None)
      end
    | Err e => (Err e, mkEdit out None)
    | Panic e => (Panic e, mkEdit out None)
    | OutOfFuel => (OutOfFuel, mkEdit out None)
    end.

(** ** Progress of the parser *)

(** The parser [p'] reads the same bytes as [p] and is strictly further. *)
Definition advances (p p' : parser) : Prop :=
  data p' = data p /\ (pos p < pos p')%nat.

Definition progressive (PO : parser -> outcome (Object * parser)) : Prop :=
  forall q o q', PO q = Ok (o, q') -> advances q q'.

End Reader.

(** ** Strings in content streams (text.go) *)

(** The loop of [parseLiteralStringRaw] after the opening parenthesis: the
    decoded bytes and the number of input bytes read.  Unlike the parser's
    loop it has no error: it returns what it has when the input ends. *)
Fixpoint literalRunRaw (depth : nat) (l : list Z) : list Z * nat :=
  match depth with
  | O => ([], 0%nat)
  | S d =>
    match l with
    | [] => ([], 0%nat)
    | b :: l' =>
      if b =? ch "(" then
        let '(s, n) := literalRunRaw (S (S d)) l' in (b :: s, S n)
      else if b =? ch ")" then
        let '(s, n) := literalRunRaw d l' in
        ((if (0 <? d)%nat then b :: s else s), S n)
      else if b =? backslash then
        match l' with
        | [] => ([], 1%nat)
        | esc :: l'' =>
          let simple (c : Z) :=
            let '(s, n) := literalRunRaw (S d) l'' in (c :: s, (2 + n)%nat) in
          if esc =? ch "n" then simple 10
          else if esc =? ch "r" then simple 13
          else if esc =? ch "t" then simple 9
          else if esc =? ch "b" then simple 8
          else if esc =? ch "f" then simple 12
          else if (esc =? ch "(") || (esc =? ch ")") || (esc =? backslash)
          then simple esc
          else if isOctal esc then
            let oct := esc - ch "0" in
            match l'' with
            | d1 :: l3 =>
              if isOctal d1 then
                let oct := oct * 8 + (d1 - ch "0") in
                match l3 with
                | d2 :: l4 =>
                  if isOctal d2 then
                    let oct := oct * 8 + (d2 - ch "0") in
                    let '(s, n) := literalRunRaw (S d) l4 in
                    (uint8 oct :: s, (4 + n)%nat)
                  else
                    let '(s, n) := literalRunRaw (S d) l3 in
                    (uint8 oct :: s, (3 + n)%nat)
                | [] =>
                  let '(s, n) := literalRunRaw (S d) l3 in
                  (uint8 oct :: s, (3 + n)%nat)
                end
              else simple (uint8 oct)
            | [] => simple (uint8 oct)
            end
          else simple esc
        end
      else
        let '(s, n) := literalRunRaw (S d) l' in (b :: s, S n)
    end
  end.

(** [parseLiteralStringRaw] extracts raw bytes from a literal string
    starting at [pos]: the bytes and the position after the closing [')']. *)
Definition parseLiteralStringRaw (d : list Z) (pos : nat) : list Z * nat :=
  match d !! pos with
  | Some b =>
    if b =? ch "(" then
      let '(s, n) := literalRunRaw 1 (drop (S pos) d) in (s, (S pos + n)%nat)
    else ([], pos)
  | None => ([], pos)
  end.

(** The loop of [parseHexStringRaw] after ['<']; bytes that are no hex
    digits are skipped, and a pending nibble is dropped when the input
    ends without ['>']. *)
Fixpoint hexRunRaw (hi : Z) (l : list Z) : list Z * nat :=
  match l with
  | [] => ([], 0%nat)
  | b :: l' =>
    if b =? ch ">" then
      ((if 0 <=? hi then [uint8 (Z.shiftl hi 4)] else []), 1%nat)
    else if isWhitespace b then
      let '(s, n) := hexRunRaw hi l' in (s, S n)
    else
      let v := unhex b in
      if v <? 0 then
        let '(s, n) := hexRunRaw hi l' in (s, S n)
      else if hi <? 0 then
        let '(s, n) := hexRunRaw v l' in (s, S n)
      else
        let '(s, n) := hexRunRaw (-1) l' in
        (uint8 (Z.lor (Z.shiftl hi 4) v) :: s, S n)
  end.

Definition parseHexStringRaw (d : list Z) (pos : nat) : list Z * nat :=
  match d !! pos with
  | Some b =>
    if b =? ch "<" then
      let '(s, n) := hexRunRaw (-1) (drop (S pos) d) in (s, (S pos + n)%nat)
    else ([], pos)
  | None => ([], pos)
  end.

(** The number of bytes the loop of [skipLiteralString] moves over; a
    backslash takes the byte after it along, also when there is none. *)
Fixpoint skipLiteralRun (depth : nat) (l : list Z) : nat :=
  match depth with
  | O => 0%nat
  | S d =>
    match l with
    | [] => 0%nat
    | b :: l' =>
      if b =? ch "(" then S (skipLiteralRun (S (S d)) l')
      else if b =? ch ")" then S (skipLiteralRun d l')
      else if b =? backslash then
        match l' with
        | [] => 2%nat
        | _ :: l'' => (2 + skipLiteralRun (S d) l'')%nat
        end
      else S (skipLiteralRun (S d) l')
    end
  end.

(** [skipLiteralString] advances past a literal string at [pos]. *)
Definition skipLiteralString (d : list Z) (pos : nat) : nat :=
  match d !! pos with
  | Some b =>
    if b =? ch "(" then (S pos + skipLiteralRun 1 (drop (S pos) d))%nat
    else S pos
  | None => S pos
  end.

Fixpoint angleRun (l : list Z) : nat :=
  match l with
  | [] => 0%nat
  | b :: l' => if b =? ch ">" then 1%nat else S (angleRun l')
  end.

(** [skipAngleBrackets] advances past angle brackets at [pos]. *)
Definition skipAngleBrackets (d : list Z) (pos : nat) : nat :=
  (S pos + angleRun (drop (S pos) d))%nat.

(** What [escapePDFString] writes for one byte. *)
Definition escapeByte (b : Z) : list Z :=
  if (b =? backslash) || (b =? ch "(") || (b =? ch ")") then [backslash; b] else [b].

(** ** Printing objects (objects.go) *)

(** [fmt.Sprintf("%x", v)] for a byte slice: two lower-case hexadecimal
    digits per byte. *)
Definition hexDigitLower (n : Z) : Z :=
  if n <? 10 then ch "0" + n else ch "a" + (n - 10).

Definition hexLower (v : list Z) : list Z :=
  v ≫= (fun b => [hexDigitLower (b / 16); hexDigitLower (b mod 16)]).

Section Printing.
Context `{GoLib}.

(** The [String] method of the object types. *)
Definition ObjectString (o : Object) : list Z :=
  match o with
  | Null => bytes_of "null"
  | Boolean b => if b then bytes_of "true" else bytes_of "false"
  | Integer i => formatInt i
  | Real r => formatG r
  | Name n => ch "/" :: n
  | String v isHex =>
    if isHex then ch "<" :: hexLower v ++ [ch ">"]
    else ch "(" :: v ++ [ch ")"]
  | Array a => bytes_of "[array len=" ++ formatInt (Z.of_nat (length a)) ++ bytes_of "]"
  | Dict d => bytes_of "<<dict len=" ++ formatInt (Z.of_nat (size d)) ++ bytes_of ">>"
  | Stream _ payload =>
    bytes_of "<<stream len=" ++ formatInt (Z.of_nat (length payload)) ++ bytes_of ">>"
  | Reference n g => formatInt n ++ bytes_of " " ++ formatInt g ++ bytes_of " R"
  end.

End Printing.

(** ** Access to a parsed document (reader.go) *)

Section Accessors.
Context `{GoLib}.

(** [Page] returns the page at the given 1-based index. *)
Definition Document_Page (d : Document) (n : Z) : outcome Page :=
  if (n <? 1) || (Z.of_nat (length (pages d)) <? n)
  then Err "reader: page out of range"
  else
    match pages d !! Z.to_nat (n - 1) with
    | Some p => Ok p
    | None => Panic "index out of range"
    end.

(** The pages collected so far are numbered from 1 in their order. *)
Definition numbered (ps : list Page) : Prop :=
  forall (i : nat) (p : Page), ps !! i = Some p -> pg_Number p = Z.of_nat i + 1.

Definition metadataKeys : list (list Z) :=
  [bytes_of "Title"; bytes_of "Author"; bytes_of "Subject"; bytes_of "Keywords";
   bytes_of "Creator"; bytes_of "Producer"].

(** The entries [Metadata] copies from the /Info dictionary. *)
Definition metadataOf (infoDict : gmap (list Z) Object) : gmap (list Z) (list Z) :=
  foldl (fun meta key =>
           match infoDict !! key with
           | Some (String v _) => <[key := decodePDFString v]> meta
           | _ => meta
           end)
        ∅ metadataKeys.

(** [Metadata] returns document metadata from the /Info dictionary; an
    /Info that does not resolve gives the empty map. *)
Definition Metadata (d : Document) : outcome (gmap (list Z) (list Z)) :=
  match trailer d !! bytes_of "Info" with
  | None => Ok ∅
  | Some (Dict infoDict) => Ok (metadataOf infoDict)
  | Some (Reference num gen) =>
    match resolve d num gen with
    | Ok (Dict infoDict) => Ok (metadataOf infoDict)
    | Ok _ => Ok ∅
    | Err _ => Ok ∅
    | Panic e => Panic e
    | OutOfFuel => OutOfFuel
    end
  | Some _ => Ok ∅
  end.

End Accessors.

(** The UTF-8 bytes of the code point of a Latin-1 byte. *)
Definition latin1 (b : Z) : list Z :=
  if b <? 128 then [b] else [192 + b / 64; 128 + b mod 64].

(** ** Looking up a field (form.go of the reader) *)

Section FieldAccess.
Context `{GoLib}.

(** [findField] searches for a field by fully qualified name in a field
    tree. *)
Fixpoint findField (fields : list FormField) (name : list Z) : option FormField :=
  match fields with
  | [] => None
  | f :: fields' =>
    if bool_decide (FullName f = name) then Some f
    else
      match (fix inKids (f : FormField) : option FormField :=
               match f with
               | mkFormField _ _ _ _ _ _ _ _ kids _ _ =>
                 (fix each (l : list FormField) : option FormField :=
                    match l with
                    | [] => None
                    | k :: l' =>
                      if bool_decide (FullName k = name) then Some k
                      else match inKids k with
                           | Some found => Some found
                           | None => each l'
                           end
                    end) kids
               end) f with
      | Some found => Some found
      | None => findField fields' name
      end
  end.


(** [FormField] returns the form field with the given fully qualified name,
    [None] if the field is not found. *)
Definition Document_FormField (fuel : nat) (d : Document) (name : list Z)
    : outcome (option FormField) :=
  fields ← FormFields fuel d;
  Ok (findField fields name).

End FieldAccess.

(** The fully qualified name that [parseFormField] builds from the name of
    the parent and the partial name. *)
Definition qualifiedName (parentName name : list Z) : list Z :=
  if negb (bool_decide (parentName = [])) && negb (bool_decide (name = []))
  then parentName ++ bytes_of "." ++ name
  else if negb (bool_decide (name = [])) then name
  else parentName.

(** ** Text extraction (text.go) *)

Section TextExtraction.
Context `{GoLib}.

(** The whitespace in front of the next token. *)
Fixpoint blankRun (l : list Z) : nat :=
  match l with
  | [] => 0%nat
  | b :: l' => if isWhitespace b then S (blankRun l') else 0%nat
  end.

(** The two bytes [a b] at the head of [l], followed by the end of the data,
    whitespace or a delimiter. *)
Definition operatorAt (l : list Z) (a b : Z) : bool :=
  match l with
  | x :: y :: tl =>
    (x =? a) && (y =? b) &&
    match tl with
    | [] => true
    | z :: _ => isWhitespace z || isDelimiter z
    end
  | _ => false
  end.

(** The loop of [skipArray]; a literal string is passed over as a whole. *)
Fixpoint skipArrayLoop (fuel : nat) (data : list Z) (pos depth : nat)
    : outcome nat :=
  match fuel with
  | O => OutOfFuel
  | S fuel' =>
    if (depth =? 0)%nat then Ok pos
    else
      match data !! pos with
      | None => Ok pos
      | Some b =>
        if b =? ch "[" then skipArrayLoop fuel' data (S pos) (S depth)
        else if b =? ch "]" then skipArrayLoop fuel' data (S pos) (depth - 1)
        else if b =? ch "(" then
          skipArrayLoop fuel' data (skipLiteralString data pos) depth
        else skipArrayLoop fuel' data (S pos) depth
      end
  end.

(** [skipArray] advances past an array at [pos]. *)
Definition skipArray (fuel : nat) (data : list Z) (pos : nat) : outcome nat :=
  skipArrayLoop fuel data (S pos) 1.

(** The loop over a TJ array: the text of the strings within, up to the
    closing bracket. *)
Fixpoint arrayTextLoop (fuel : nat) (data : list Z) (i : nat) (result : list Z)
    : outcome (nat * list Z) :=
  match fuel with
  | O => OutOfFuel
  | S fuel' =>
    match data !! i with
    | None => Ok (i, result)
    | Some b =>
      if b =? ch "]" then Ok (i, result)
      else if b =? ch "(" then
        let '(text, e) := parseLiteralStringRaw data i in
        arrayTextLoop fuel' data e (result ++ decodePDFString text)
      else if b =? ch "<" then
        let '(text, e) := parseHexStringRaw data i in
        arrayTextLoop fuel' data e (result ++ decodePDFString text)
      else arrayTextLoop fuel' data (S i) result
    end
  end.

(** The main loop of [extractTextFromContentStream]. *)
Fixpoint extractLoop (fuel : nat) (data : list Z) (i : nat) (inText : bool)
    (result : list Z) : outcome (list Z) :=
  match fuel with
  | O => OutOfFuel
  | S fuel' =>
    if (length data <=? i)%nat then Ok result
    else
      (* Skip whitespace *)
      let i := (i + blankRun (drop i data))%nat in
      match drop i data with
      | [] => Ok result
      | b :: tl =>
        (* Check for BT (begin text) / ET (end text) *)
        if operatorAt (b :: tl) (ch "B") (ch "T") then
          extractLoop fuel' data (i + 2) true result
        else if operatorAt (b :: tl) (ch "E") (ch "T") then
          extractLoop fuel' data (i + 2) false (result ++ [ch " "])
        else if negb inText then
          (* Skip until next token *)
          if b =? ch "(" then
            extractLoop fuel' data (skipLiteralString data i) inText result
          else if b =? ch "<" then
            extractLoop fuel' data (skipAngleBrackets data i) inText result
          else if b =? ch "[" then
            pos ← skipArray fuel data i;
            extractLoop fuel' data pos inText result
          else extractLoop fuel' data (S i) inText result
        else if b =? ch "(" then
          (* Literal string - extract text *)
          let '(text, e) := parseLiteralStringRaw data i in
          extractLoop fuel' data e inText (result ++ decodePDFString text)
        else if (b =? ch "<") &&
                match tl with
                | [] => true
                | b1 :: _ => negb (b1 =? ch "<")
                end then
          (* Hex string - extract text *)
          let '(text, e) := parseHexStringRaw data i in
          extractLoop fuel' data e inText (result ++ decodePDFString text)
        else if b =? ch "[" then
          (* TJ array - extract text from strings within *)
          '(j, result) ← arrayTextLoop fuel data (S i) result;
          let j := if (j <? length data)%nat then S j else j in
          extractLoop fuel' data j inText result
        else if operatorAt (b :: tl) (ch "T") (ch "d")
                || operatorAt (b :: tl) (ch "T") (ch "D")
                || operatorAt (b :: tl) (ch "T") (ch "*") then
          (* text positioning operators that imply space/newline *)
          extractLoop fuel' data (i + 2) inText (result ++ [ch " "])
        else extractLoop fuel' data (S i) inText result
      end
  end.

(** [extractTextFromContentStream] parses text operators from a PDF content
    stream.  [strings.TrimSpace] is the function of [bytes.TrimSpace] on the
    bytes of the string. *)
Definition extractTextFromContentStream (fuel : nat) (data : list Z)
    : outcome (list Z) :=
  result ← extractLoop fuel data 0 false [];
  Ok (TrimSpace result).

(** [ExtractText] extracts the text content from this page. *)
Definition ExtractText (fuel : nat) (p : Page) : outcome (list Z) :=
  data ← ContentStream p;
  extractTextFromContentStream fuel data.

End TextExtraction.

(** ** A reference instance of the Go library

    Used to run the model on concrete files.  [float64] is a decimal
    fixed-point number (mantissa, number of decimals); the regular
    expressions are the eight patterns of package form, matched greedily
    from left to right (none of them needs backtracking into a repetition);
    [range] follows [map_to_list].  MD5 and the compressed filters are not
    provided: [md5sum] is a stand-in, so this instance is meant for
    unencrypted documents with uncompressed or ASCIIHex streams. *)
Module GoRef.

Definition decimal : Type := (Z * nat)%type.

Fixpoint fractionDigits (l : list Z) (acc : Z) (n : nat) : option (Z * nat) :=
  match l with
  | [] => Some (acc, n)
  | b :: l' =>
    if isDigit b then fractionDigits l' (acc * 10 + (b - 48)) (S n) else None
  end.

Fixpoint integerDigits (l : list Z) (acc : Z) (seen : bool) : option (Z * nat) :=
  match l with
  | [] => if seen then Some (acc, 0%nat) else None
  | b :: l' =>
    if isDigit b then integerDigits l' (acc * 10 + (b - 48)) true
    else if b =? ch "." then
      match l' with
      | [] => if seen then Some (acc, 0%nat) else None
      | _ => fractionDigits l' acc 0
      end
    else None
  end.

Definition parseDecimal (l : list Z) : option decimal :=
  match l with
  | [] => None
  | b :: l' =>
    if b =? ch "-" then
      '(m, e) ← integerDigits l' 0 false; Some (- m, e)
    else if b =? ch "+" then integerDigits l' 0 false
    else integerDigits l 0 false
  end.

Definition truncDecimal (x : decimal) : Z := Z.quot (fst x) (10 ^ Z.of_nat (snd x)).

Definition formatDecimal (x : decimal) : list Z :=
  match snd x with
  | O => formatInt (fst x)
  | e => formatInt (fst x) ++ bytes_of "e-" ++ formatInt (Z.of_nat e)
  end.

(** The bytes [\t \n \f \r] and space of the class [\s]. *)
Definition isSpaceRE (b : Z) : bool :=
  (b =? 9) || (b =? 10) || (b =? 12) || (b =? 13) || (b =? 32).
Definition isAlpha (b : Z) : bool :=
  ((ch "A" <=? b) && (b <=? ch "Z")) || ((ch "a" <=? b) && (b <=? ch "z")).
Definition isWord (b : Z) : bool := isAlpha b || isDigit b || (b =? ch "_").
Definition notClose (b : Z) : bool := negb (b =? ch ")").

(** Matchers return what is left of the input. *)
Definition mLit (bs : list Z) (l : list Z) : option (list Z) :=
  if hasPrefix l bs then Some (drop (length bs) l) else None.

Fixpoint mStar (cls : Z -> bool) (l : list Z) : list Z :=
  match l with
  | b :: l' => if cls b then mStar cls l' else l
  | [] => []
  end.

Definition mPlus (cls : Z -> bool) (l : list Z) : option (list Z) :=
  match l with
  | b :: l' => if cls b then Some (mStar cls l') else None
  | [] => None
  end.

(** A pattern: from the byte before the position and the input at the
    position, the input left after the match, followed by the inputs at
    the bounds of the groups. *)
Definition matcher : Type := option Z -> list Z -> option (list (list Z)).

Definition reReference : matcher := fun _ l =>
  l ← mPlus isDigit l; l ← mPlus isSpaceRE l; l ← mPlus isDigit l;
  l ← mPlus isSpaceRE l; l ← mLit (bytes_of "R") l; Some [l].

Definition reFT : matcher := fun _ l =>
  l ← mLit (bytes_of "/FT") l; l ← mPlus isSpaceRE l;
  l ← mLit (bytes_of "/") l; l ← mPlus isAlpha l; Some [l].

Definition reWidget : matcher := fun _ l =>
  l ← mLit (bytes_of "/Subtype") l; l ← mPlus isSpaceRE l;
  l ← mLit (bytes_of "/Widget") l; Some [l].

Definition reString (kw : list Z) : matcher := fun _ l =>
  l ← mLit kw l; let l := mStar isSpaceRE l in
  l ← mLit (bytes_of "(") l; let l := mStar notClose l in
  l ← mLit (bytes_of ")") l; Some [l].

Definition reNeedAppearances : matcher := fun _ l =>
  l ← mLit (bytes_of "/NeedAppearances") l; g ← mPlus isSpaceRE l;
  match mLit (bytes_of "true") g with
  | Some l => Some [l; g; l]
  | None => l ← mLit (bytes_of "false") g; Some [l; g; l]
  end.

Definition reNameValue : matcher := fun _ l =>
  l ← mLit (bytes_of "/V") l; l ← mPlus isSpaceRE l;
  l ← mLit (bytes_of "/") l; g ← mPlus isAlpha l;
  match (l ← mPlus isSpaceRE g; l ← mLit (bytes_of "/AS") l;
         l ← mPlus isSpaceRE l; l ← mLit (bytes_of "/") l; mPlus isAlpha l) with
  | Some l => Some [l; g; l]
  | None => Some [g]
  end.

Definition reObjHeader : matcher := fun prev l =>
  if bool_decide (prev = None) || bool_decide (prev = Some 10) then
    g1 ← mPlus isDigit l; g2 ← mPlus isSpaceRE g1; g3 ← mPlus isDigit g2;
    l' ← mPlus isSpaceRE g3; l' ← mLit (bytes_of "obj") l';
    match l' with
    | b :: _ => if isWord b then None else Some [l'; l; g1; g2; g3]
    | [] => Some [l'; l; g1; g2; g3]
    end
  else None.

(** All matches from index [i] on, left to right and without overlap. *)
Fixpoint scan (m : matcher) (i : nat) (skip : nat) (prev : option Z)
    (l : list Z) : list (list Z) :=
  match l with
  | [] => []
  | b :: l' =>
    match skip with
    | S k => scan m (S i) k (Some b) l'
    | O =>
      match m prev l with
      | Some (r :: groups) =>
        let idx (s : list Z) := Z.of_nat (i + (length l - length s)) in
        (Z.of_nat i :: idx r :: (idx <$> groups))
          :: scan m (S i) (length l - length r - 1) (Some b) l'
      | _ => scan m (S i) 0 (Some b) l'
      end
    end
  end.

Definition patterns : list (string * matcher) :=
  [ ("\d+\s+\d+\s+R", reReference);
    ("/FT\s+/[A-Za-z]+", reFT);
    ("/Subtype\s+/Widget", reWidget);
    ("/DA\s*\([^)]*\)", reString (bytes_of "/DA"));
    ("/NeedAppearances\s+(true|false)", reNeedAppearances);
    ("/V\s*\([^)]*\)", reString (bytes_of "/V"));
    ("/V\s+/[A-Za-z]+(\s+/AS\s+/[A-Za-z]+)?", reNameValue);
    ("(?m)^(\d+)\s+(\d+)\s+obj\b", reObjHeader) ]%string.

Fixpoint lookupPattern (re : string) (ps : list (string * matcher))
    : option matcher :=
  match ps with
  | [] => None
  | (name, m) :: ps' => if String.eqb re name then Some m else lookupPattern re ps'
  end.

Definition findAll (re : string) (b : list Z) : list (list Z) :=
  match lookupPattern re patterns with
  | Some m => scan m 0 0 None b
  | None => []
  end.

Definition isSpaceAscii (b : Z) : bool :=
  (b =? 9) || (b =? 10) || (b =? 11) || (b =? 12) || (b =? 13) || (b =? 32).

Definition trimSpace (l : list Z) : list Z :=
  reverse (mStar isSpaceAscii (reverse (mStar isSpaceAscii l))).

Lemma scan_bounds m i skip prev l x :
  x ∈ scan m i skip prev l ->
  exists lo hi tl, x = lo :: hi :: tl /\
    Z.of_nat i <= lo <= hi /\ hi <= Z.of_nat (i + length l).
Proof.
  revert i skip prev. induction l as [|b l IH]; intros i skip prev Hx; simpl in Hx.
  - by apply elem_of_nil in Hx.
  - assert (Hrec : forall k pv, x ∈ scan m (S i) k pv l ->
              exists lo hi tl, x = lo :: hi :: tl /\
                Z.of_nat i <= lo <= hi /\ hi <= Z.of_nat (i + length (b :: l))).
    { intros k pv Hk. destruct (IH _ _ _ Hk) as (lo & hi & tl & -> & Hlo & Hhi).
      exists lo, hi, tl. split; [done |]. simpl. lia. }
    destruct skip as [|k]; [| by eapply Hrec].
    destruct (m prev (b :: l)) as [[|r groups]|]; [by eapply Hrec | | by eapply Hrec].
    apply elem_of_cons in Hx as [-> | Hx]; [| by eapply Hrec].
    eexists _, _, _. split; [reflexivity |]. simpl. lia.
Qed.

#[global] Program Instance goLib : GoLib := {|
  float64 := decimal;
  ParseFloat := parseDecimal;
  floatOfInt := fun n => (n, 0%nat);
  intOfFloat := truncDecimal;
  formatG := formatDecimal;
  md5sum := fun l => take 16 (l ++ replicate 16 0);
  zlibDecode := fun _ => None;
  ascii85DecodeAll := fun _ => None;
  FindAllSubmatchIndex := findAll;
  TrimSpace := trimSpace;
  rangeOrder := fun K _ _ V m => map_to_list m
|}.
Next Obligation.
  intros re b m Hm. unfold findAll in Hm.
  destruct (lookupPattern re patterns) as [mt|]; [| by apply elem_of_nil in Hm].
  destruct (scan_bounds _ _ _ _ _ _ Hm) as (lo & hi & tl & -> & Hlo & Hhi).
  exists lo, hi, tl. simpl in *. repeat split; lia.
Qed.
Next Obligation. intros. reflexivity. Qed.

End GoRef.

(** ** Sample files *)

(** A file given by its lines, each ended by a line feed. *)
Definition fileOfLines (ls : list string) : list Z :=
  ls ≫= (fun l => bytes_of l ++ [10]).

(** A one-page document without a form. *)
Definition plainPDF : list Z := fileOfLines [
    "%PDF-1.4";
    "1 0 obj";
    "<< /Type /Catalog /Pages 2 0 R >>";
    "endobj";
    "2 0 obj";
    "<< /Type /Pages /Kids [3 0 R] /Count 1 /MediaBox [0 0 612 792] >>";
    "endobj";
    "3 0 obj";
    "<< /Type /Page /Parent 2 0 R /Contents 4 0 R >>";
    "endobj";
    "4 0 obj";
    "<< /Length 13 >>";
    "stream";
    "BT (Hi) Tj ET";
    "endstream";
    "endobj";
    "xref";
    "0 5";
    "0000000000 65535 f ";
    "0000000009 00000 n ";
    "0000000058 00000 n ";
    "0000000139 00000 n ";
    "0000000202 00000 n ";
    "trailer";
    "<< /Size 5 /Root 1 0 R >>";
    "startxref";
    "265";
    "%%EOF" ]%string.

(** A one-page document with one text field. *)
Definition formPDF : list Z := fileOfLines [
    "%PDF-1.4";
    "1 0 obj";
    "<< /Type /Catalog /Pages 2 0 R /AcroForm << /Fields [5 0 R] /NeedAppearances true >> >>";
    "endobj";
    "2 0 obj";
    "<< /Type /Pages /Kids [3 0 R] /Count 1 /MediaBox [0 0 612 792] >>";
    "endobj";
    "3 0 obj";
    "<< /Type /Page /Parent 2 0 R /Contents 4 0 R /Annots [5 0 R] >>";
    "endobj";
    "4 0 obj";
    "<< /Length 13 >>";
    "stream";
    "BT (Hi) Tj ET";
    "endstream";
    "endobj";
    "5 0 obj";
    "<< /Type /Annot /Subtype /Widget /T (name) /FT /Tx /DA (/Helv 12 Tf 0 g) /Rect [0 0 10 10] >>";
    "endobj";
    "xref";
    "0 6";
    "0000000000 65535 f ";
    "0000000009 00000 n ";
    "0000000112 00000 n ";
    "0000000193 00000 n ";
    "0000000272 00000 n ";
    "0000000335 00000 n ";
    "trailer";
    "<< /Size 6 /Root 1 0 R >>";
    "startxref";
    "444";
    "%%EOF" ]%string.

(** A document whose /Pages node lists itself among its /Kids. *)
Definition cyclicPDF : list Z := fileOfLines [
    "%PDF-1.4";
    "1 0 obj";
    "<< /Type /Catalog /Pages 2 0 R >>";
    "endobj";
    "2 0 obj";
    "<< /Type /Pages /Kids [2 0 R] /Count 1 >>";
    "endobj";
    "xref";
    "0 3";
    "0000000000 65535 f ";
    "0000000009 00000 n ";
    "0000000058 00000 n ";
    "trailer";
    "<< /Size 3 /Root 1 0 R >>";
    "startxref";
    "115";
    "%%EOF" ]%string.

(** A document with an incremental update: the second section redefines object 3, adds object 5 and points to the first through /Prev. *)
Definition updatedPDF : list Z := fileOfLines [
    "%PDF-1.4";
    "1 0 obj";
    "<< /Type /Catalog /Pages 2 0 R >>";
    "endobj";
    "2 0 obj";
    "<< /Type /Pages /Kids [3 0 R] /Count 1 /MediaBox [0 0 612 792] >>";
    "endobj";
    "3 0 obj";
    "<< /Type /Page /Parent 2 0 R >>";
    "endobj";
    "xref";
    "0 4";
    "0000000000 65535 f ";
    "0000000009 00000 n ";
    "0000000058 00000 n ";
    "0000000139 00000 n ";
    "trailer";
    "<< /Size 4 /Root 1 0 R >>";
    "startxref";
    "186";
    "%%EOF";
    "3 0 obj";
    "<< /Type /Page /Parent 2 0 R /Rotate 90 >>";
    "endobj";
    "5 0 obj";
    "<< /Producer (x) >>";
    "endobj";
    "xref";
    "3 1";
    "0000000329 00000 n ";
    "5 1";
    "0000000387 00000 n ";
    "trailer";
    "<< /Size 6 /Root 1 0 R /Prev 186 >>";
    "startxref";
    "422";
    "%%EOF" ]%string.

(** A page whose /Contents is an array of two streams. *)
Definition twoStreamsPDF : list Z := fileOfLines [
    "%PDF-1.4";
    "1 0 obj";
    "<< /Type /Catalog /Pages 2 0 R >>";
    "endobj";
    "2 0 obj";
    "<< /Type /Pages /Kids [3 0 R] /Count 1 /MediaBox [0 0 612 792] >>";
    "endobj";
    "3 0 obj";
    "<< /Type /Page /Parent 2 0 R /Contents [4 0 R 5 0 R] >>";
    "endobj";
    "4 0 obj";
    "<< /Length 1 >>";
    "stream";
    "q";
    "endstream";
    "endobj";
    "5 0 obj";
    "<< /Length 1 >>";
    "stream";
    "Q";
    "endstream";
    "endobj";
    "xref";
    "0 6";
    "0000000000 65535 f ";
    "0000000009 00000 n ";
    "0000000058 00000 n ";
    "0000000139 00000 n ";
    "0000000210 00000 n ";
    "0000000260 00000 n ";
    "trailer";
    "<< /Size 6 /Root 1 0 R >>";
    "startxref";
    "310";
    "%%EOF" ]%string.

(** *** Reading the sample files *)

(** The classical section at an offset of a file (empty when there is none). *)
Definition sectionAt (d : list Z) (offset : Z)
    : gmap Z xrefEntry * gmap (list Z) Object :=
  match parseXRefSection d offset with
  | Some (Ok s) => s
  | _ => (∅, ∅)
  end.

(** The document of [parseWithPassword] for a file whose table is the single
    section at [offset], before the page list is built. *)
Definition documentAt (d : list Z) (offset : Z) : Document :=
  mkDocument (parseVersion d) (sectionAt d offset).1 (sectionAt d offset).2 d [] None.

(** The document [ReadFrom] returns for a file that parses. *)
Definition docOf (d : list Z) : Document :=
  match ReadFrom 10 d with
  | Ok doc => doc
  | _ => mkDocument [] ∅ ∅ d [] None
  end.

(** The dictionary an indirect object resolves to. *)
Definition dictAt (doc : Document) (num gen : Z) : gmap (list Z) Object :=
  match resolve doc num gen with
  | Ok (Dict node) => node
  | _ => ∅
  end.

Definition fieldsOf (doc : Document) : list FormField :=
  match FormFields 10 doc with
  | Ok fs => fs
  | _ => []
  end.

Definition weakKey : list Z := [1; 2; 3; 4; 5].

(** An encryption dictionary of revision 2 whose /U is the first byte of the
    RC4 encryption of the padding under [weakKey]. *)
Definition shortU : encryptInfo := mkEncryptInfo 1 2 5 [] [154] 0 [] None.

(** The first page of a document (an empty page when it has none). *)
Definition firstPage (doc : Document) : Page :=
  default (mkPage 0 zeroRect None None [] 0 ∅) (head (pages doc)).

(** [plainPDF] with an /Encrypt dictionary whose /Length is 0. *)
Definition emptyKeyPDF : list Z := fileOfLines [
    "%PDF-1.4";
    "1 0 obj";
    "<< /Type /Catalog /Pages 2 0 R >>";
    "endobj";
    "2 0 obj";
    "<< /Type /Pages /Kids [3 0 R] /Count 1 /MediaBox [0 0 612 792] >>";
    "endobj";
    "3 0 obj";
    "<< /Type /Page /Parent 2 0 R /Contents 4 0 R >>";
    "endobj";
    "4 0 obj";
    "<< /Length 13 >>";
    "stream";
    "BT (Hi) Tj ET";
    "endstream";
    "endobj";
    "xref";
    "0 5";
    "0000000000 65535 f ";
    "0000000009 00000 n ";
    "0000000058 00000 n ";
    "0000000139 00000 n ";
    "0000000202 00000 n ";
    "trailer";
    "<< /Size 5 /Root 1 0 R /Encrypt << /Filter /Standard /V 1 /R 2 /Length 0 /O (owner) /U (user) /P -4 >> >>";
    "startxref";
    "265";
    "%%EOF" ]%string.

(** The encryption parameters [parseEncryptDict] reads from [emptyKeyPDF]. *)
Definition emptyKeyInfo : encryptInfo :=
  mkEncryptInfo 1 2 0 (bytes_of "owner") (bytes_of "user") (-4) [] None.

(** Encryption parameters of revision 3 whose /U starts with the digest
    that the reference MD5 stand-in and RC4 give for [weakKey]. *)
Definition revision3Info : encryptInfo :=
  mkEncryptInfo 2 3 5 []
    (match rc4.NewCipher weakKey with
     | Some c =>
       default [] (rc4Passes weakKey (Z.of_nat <$> seq 1 19)
                     (rc4.XORKeyStream c (md5sum pdfPadding)).1)
       ++ replicate 16 0
     | None => []
     end)
    (-4) [] None.

(** A parser on a literal string with nesting and an escape, as in a
    content stream. *)
Definition literalSample : parser := newParser (bytes_of "(a(b)\nc) Tj").

Definition hexSample : parser := newParser (bytes_of "<48 65 6C6c 6F7> Tj").

(** Two subsections of a classical table that both define object 0. *)
Definition duplicateSubsections : parser :=
  newParser (bytes_of "0 1" ++ [10] ++ bytes_of "0000000010 00000 n " ++ [10]
             ++ bytes_of "0 1" ++ [10] ++ bytes_of "0000000020 00000 n " ++ [10]
             ++ bytes_of "trailer").

(** [formPDF] after [setFieldValue] has written the value "Ada" into its
    field: the table still has the offsets of [formPDF]. *)
Definition staleFormPDF : list Z :=
  take 434 formPDF ++ bytes_of " /V (Ada)" ++ drop 434 formPDF.

(** [staleFormPDF] with the offset of its table after "startxref". *)
Definition rebuiltFormPDF : list Z :=
  take 626 staleFormPDF ++ bytes_of "453" ++ [10] ++ bytes_of "%%EOF" ++ [10].

(** A form whose field "person" has two kids: the field "first" and a widget
    without a name. *)
Definition nestedFormPDF : list Z := fileOfLines [
    "%PDF-1.4";
    "1 0 obj";
    "<< /Type /Catalog /Pages 2 0 R /AcroForm << /Fields [4 0 R] >> >>";
    "endobj";
    "2 0 obj";
    "<< /Type /Pages /Kids [3 0 R] /Count 1 /MediaBox [0 0 612 792] >>";
    "endobj";
    "3 0 obj";
    "<< /Type /Page /Parent 2 0 R /Annots [5 0 R 6 0 R] >>";
    "endobj";
    "4 0 obj";
    "<< /T (person) /FT /Tx /Kids [5 0 R 6 0 R] >>";
    "endobj";
    "5 0 obj";
    "<< /Type /Annot /Subtype /Widget /T (first) /Parent 4 0 R /Rect [0 0 10 10] >>";
    "endobj";
    "6 0 obj";
    "<< /Type /Annot /Subtype /Widget /Parent 4 0 R /Rect [0 20 10 30] >>";
    "endobj";
    "xref";
    "0 7";
    "0000000000 65535 f ";
    "0000000009 00000 n ";
    "0000000090 00000 n ";
    "0000000171 00000 n ";
    "0000000240 00000 n ";
    "0000000301 00000 n ";
    "0000000395 00000 n ";
    "trailer";
    "<< /Size 7 /Root 1 0 R >>";
    "startxref";
    "479";
    "%%EOF" ]%string.

(** The field "person" of [nestedFormPDF] and the last of its kids. *)
Definition personField : FormField :=
  default (mkFormField [] [] [] [] [] 0 zeroRect [] [] 0 ∅)
          (head (fieldsOf (docOf nestedFormPDF))).

Definition widgetKid : FormField :=
  default (mkFormField [] [] [] [] [] 0 zeroRect [] [] 0 ∅)
          (last (Kids personField)).

(** A content stream with text inside and outside of text objects. *)
Definition textSample : list Z :=
  bytes_of "BT /F1 12 Tf 72 700 Td (Hello (W)) Tj [(a) -20 <62> (c)] TJ ET (out) [ (x) ] BT <48 65> Tj ET".

(** A content stream without a text object. *)
Definition outsideSample : list Z := bytes_of "(Hello) Tj [(a)] TJ B ET".

Section ParserFacts.
Context `{GoLib}.

Lemma parser_eta (p : parser) : mkParser (data p) (pos p) (cipher p) = p.
Proof. by destruct p. Qed.

Lemma skipWhitespace_data p : data (skipWhitespace p) = data p.
Proof. reflexivity. Qed.
Lemma skipWhitespace_cipher p : cipher (skipWhitespace p) = cipher p.
Proof. reflexivity. Qed.
Lemma readToken_data p : data (readToken p).2 = data p.
Proof. reflexivity. Qed.
Lemma readToken_cipher p : cipher (readToken p).2 = cipher p.
Proof. reflexivity. Qed.

Lemma set_pos_restore (p q : parser) :
  data q = data p -> cipher q = cipher p -> set_pos q (pos p) = p.
Proof. intros Hd Hc. unfold set_pos. rewrite Hd, Hc. apply parser_eta. Qed.

Lemma set_pos_same (q : parser) (n : nat) :
  pos q = n -> set_pos q n = q.
Proof. intros <-. apply parser_eta. Qed.

Lemma set_pos_skipWhitespace (p : parser) :
  set_pos (skipWhitespace p) (pos p) = p.
Proof. by apply set_pos_restore. Qed.


End ParserFacts.

Section Totality.
Context `{GoLib}.

Lemma bind_fuel {A B} (m : outcome A) (f : A -> outcome B) :
  m <> OutOfFuel -> (forall a, m = Ok a -> f a <> OutOfFuel) -> m ≫= f <> OutOfFuel.
Proof. intros Hm Hf. destruct m; simpl; try done. by apply Hf. Qed.

Lemma wrapErr_fuel {A} ctx (m : outcome A) : m <> OutOfFuel -> wrapErr ctx m <> OutOfFuel.
Proof. by destruct m. Qed.

Lemma wrapErr_Ok {A} ctx (m : outcome A) a : wrapErr ctx m = Ok a -> m = Ok a.
Proof. by destruct m. Qed.

Lemma orElse_fuel {A} (m : outcome A) dflt : m <> OutOfFuel -> orElse m dflt <> OutOfFuel.
Proof. by destruct m. Qed.

Lemma skipWhitespace_pos p : (pos p <= pos (skipWhitespace p))%nat.
Proof. simpl. lia. Qed.

Lemma decryptBytes_parser p bs :
  data (decryptBytes p bs).2 = data p /\ pos (decryptBytes p bs).2 = pos p.
Proof.
  unfold decryptBytes. destruct (cipher p) as [c|]; [| done].
  by destruct (rc4.XORKeyStream c bs).
Qed.

Lemma rest_lookup p b : data p !! pos p = Some b -> rest p = b :: drop (S (pos p)) (data p).
Proof. intros Hb. unfold rest. by apply drop_S. Qed.

Lemma readToken_regular p b :
  data p !! pos p = Some b -> isRegular b = true -> (pos p < pos (readToken p).2)%nat.
Proof.
  intros Hb Hreg. unfold readToken, skipWhitespace.
  pose proof (rest_lookup p b Hb) as Hrest. rewrite Hrest.
  unfold isRegular in Hreg. apply andb_true_iff in Hreg as [Hws Hdel].
  apply negb_true_iff in Hws, Hdel.
  assert (Hpct : (b =? ch "%") = false).
  { unfold isDelimiter in Hdel. repeat (apply orb_false_iff in Hdel as [Hdel ?]). done. }
  cbn [wsRun]. rewrite Hws, Hpct.
  assert (Hp0 : advance p 0 = p).
  { destruct p. unfold advance, set_pos. simpl. by rewrite Nat.add_0_r. }
  rewrite Hp0, Hrest. cbn [regularRun snd].
  unfold isRegular. rewrite Hws, Hdel. simpl. lia.
Qed.

Lemma readToken_pos p : (pos p <= pos (readToken p).2)%nat.
Proof. unfold readToken. simpl. lia. Qed.

Lemma parseName_advances p s p' : parseName p = Ok (s, p') -> advances p p'.
Proof.
  unfold parseName. destruct (data p !! pos p) as [b|]; [| discriminate].
  destruct (negb (b =? ch "/")); [discriminate |].
  destruct (nameRun (rest (advance p 1))) as [s0 n]. intros [= <- <-].
  split; simpl; [done | lia].
Qed.

Lemma parseName_fuel p : parseName p <> OutOfFuel.
Proof.
  unfold parseName. destruct (data p !! pos p) as [b|]; [| done].
  destruct (negb (b =? ch "/")); [done |].
  by destruct (nameRun (rest (advance p 1))).
Qed.

Lemma parseLiteralString_advances p o p' :
  parseLiteralString p = Ok (o, p') -> advances p p'.
Proof.
  unfold parseLiteralString. destruct (data p !! pos p) as [b|]; [| discriminate].
  destruct (negb (b =? ch "(")); [discriminate |].
  destruct (literalRun 1 (rest (advance p 1))) as [[s n]| | |]; simpl; try discriminate.
  pose proof (decryptBytes_parser (advance (advance p 1) n) s) as [Hd Hp].
  destruct (decryptBytes (advance (advance p 1) n) s) as [s' q]. intros [= <- <-].
  simpl in *. split; [done | lia].
Qed.

Lemma parseHexString_advances p o p' :
  parseHexString p = Ok (o, p') -> advances p p'.
Proof.
  unfold parseHexString. destruct (data p !! pos p) as [b|]; [| discriminate].
  destruct (negb (b =? ch "<")); [discriminate |].
  destruct (hexRun (-1) (rest (advance p 1))) as [[s n]| | |]; simpl; try discriminate.
  pose proof (decryptBytes_parser (advance (advance p 1) n) s) as [Hd Hp].
  destruct (decryptBytes (advance (advance p 1) n) s) as [s' q]. intros [= <- <-].
  simpl in *. split; [done | lia].
Qed.

Lemma parseBoolean_advances p b o p' :
  data p !! pos p = Some b -> isRegular b = true ->
  parseBoolean p = Ok (o, p') -> advances p p'.
Proof.
  intros Hb Hreg. unfold parseBoolean.
  pose proof (readToken_regular p b Hb Hreg) as Hpos.
  destruct (readToken p) as [tok q] eqn:Htok.
  assert (Hd : data q = data p) by (change q with (tok, q).2; by rewrite <- Htok).
  repeat case_decide; try discriminate; intros [= <- <-]; by split.
Qed.

Lemma parseNull_advances p b o p' :
  data p !! pos p = Some b -> isRegular b = true ->
  parseNull p = Ok (o, p') -> advances p p'.
Proof.
  intros Hb Hreg. unfold parseNull.
  pose proof (readToken_regular p b Hb Hreg) as Hpos.
  destruct (readToken p) as [tok q] eqn:Htok.
  assert (Hd : data q = data p) by (change q with (tok, q).2; by rewrite <- Htok).
  case_decide; try discriminate; intros [= <- <-]; by split.
Qed.

Lemma parseNumberOrRef_advances p b o p' :
  data p !! pos p = Some b -> isRegular b = true ->
  parseNumberOrRef p = Ok (o, p') -> advances p p'.
Proof.
  intros Hb Hreg. unfold parseNumberOrRef.
  pose proof (readToken_regular p b Hb Hreg) as Hpos.
  destruct (readToken p) as [tok p1] eqn:Htok.
  assert (Hd : data p1 = data p) by (change p1 with (tok, p1).2; by rewrite <- Htok).
  assert (Hc : cipher p1 = cipher p) by (change p1 with (tok, p1).2; by rewrite <- Htok).
  cbn [snd] in Hpos.
  destruct (ParseInt tok) as [n|].
  - assert (Hint : advances p (set_pos (skipWhitespace p1) (pos p1))) by (by split).
    pose proof (readToken_pos (skipWhitespace p1)) as Hp3.
    destruct (readToken (skipWhitespace p1)) as [tok2 p3] eqn:Htok2.
    assert (Hd3 : data p3 = data p1)
      by (change p3 with (tok2, p3).2; by rewrite <- Htok2).
    cbn [snd] in Hp3.
    repeat match goal with
           | |- context [match ?x with _ => _ end] => destruct x
           end; intros [= <- <-]; try done.
    split; simpl in *; [congruence | lia].
  - assert (Hback : set_pos p1 (pos p) = p).
    { unfold set_pos. rewrite Hd, Hc. by destruct p. }
    rewrite Hback, Htok. destruct (ParseFloat tok); [| discriminate].
    intros [= <- <-]. by split.
Qed.

Lemma advances_trans p q r : advances p q -> advances q r -> advances p r.
Proof. intros [Hd1 Hp1] [Hd2 Hp2]. split; [congruence | lia]. Qed.

Section Loops.
Variable PO : parser -> outcome (Object * parser).
Hypothesis PO_progressive : progressive PO.

Lemma parseArrayLoop_advances iters p arr o p' :
  parseArrayLoop PO iters p arr = Ok (o, p') -> advances p p'.
Proof.
  revert p arr. induction iters as [|k IH]; intros p arr; simpl; [discriminate |].
  destruct (data p !! _) as [b|]; [| discriminate].
  destruct (b =? ch "]").
  - intros [= <- <-]. split; simpl; [done | lia].
  - destruct (PO (skipWhitespace p)) as [[obj q]| | |] eqn:Hq; simpl; try discriminate.
    intros Hloop. apply IH in Hloop. apply PO_progressive in Hq.
    destruct Hq as [Hd1 Hp1], Hloop as [Hd2 Hp2]. split; simpl in *; [congruence | lia].
Qed.

Lemma parseArrayLoop_fuel iters p arr :
  (forall q, data q = data p -> (pos p <= pos q < length (data p))%nat ->
     PO q <> OutOfFuel) ->
  (length (data p) - pos p < iters)%nat ->
  parseArrayLoop PO iters p arr <> OutOfFuel.
Proof.
  revert p arr. induction iters as [|k IH]; intros p arr HPO Hfuel; [lia |]. simpl.
  destruct (data p !! _) as [b|] eqn:Hb; [| done].
  apply lookup_lt_Some in Hb. simpl in Hb.
  destruct (b =? ch "]"); [done |].
  destruct (PO (skipWhitespace p)) as [[obj q]| | |] eqn:Hq; simpl; try done.
  - apply PO_progressive in Hq as [Hd Hp]. simpl in Hd, Hp. apply IH.
    + intros q' Hd' Hp'. apply HPO; [congruence |]. rewrite Hd in Hp'. lia.
    + rewrite Hd. lia.
  - exfalso. eapply (HPO (skipWhitespace p)); [done | simpl; lia | done].
Qed.

Lemma parseArray_advances p o p' : parseArray PO p = Ok (o, p') -> advances p p'.
Proof.
  unfold parseArray. destruct (data p !! pos p) as [b|]; [| discriminate].
  destruct (negb (b =? ch "[")); [discriminate |].
  intros Hloop. apply parseArrayLoop_advances in Hloop as [Hd Hp].
  split; simpl in *; [done | lia].
Qed.

Lemma parseArray_fuel p :
  (forall q, data q = data p -> (pos p < pos q)%nat -> (pos p < length (data p))%nat ->
     PO q <> OutOfFuel) ->
  parseArray PO p <> OutOfFuel.
Proof.
  intros HPO. unfold parseArray. destruct (data p !! pos p) as [b|] eqn:Hb; [| done].
  apply lookup_lt_Some in Hb.
  destruct (negb (b =? ch "[")); [done |].
  apply parseArrayLoop_fuel; simpl; [| lia].
  intros q Hd Hp. apply HPO; [done | lia | done].
Qed.

Lemma parseDictLoop_advances iters p d o p' :
  parseDictLoop PO iters p d = Ok (o, p') -> advances p p'.
Proof.
  revert p d. induction iters as [|k IH]; intros p d; simpl; [discriminate |].
  destruct (data p !! _) as [b|]; [| discriminate].
  destruct (_ && _).
  - intros [= <- <-]. split; simpl; [done | lia].
  - destruct (parseName (skipWhitespace p)) as [[nm q1]| | |] eqn:Hq1; simpl; try discriminate.
    destruct (PO q1) as [[obj q]| | |] eqn:Hq; simpl; try discriminate.
    intros Hloop. apply IH in Hloop. apply PO_progressive in Hq.
    apply parseName_advances in Hq1.
    destruct Hq1 as [Hd0 Hp0], Hq as [Hd1 Hp1], Hloop as [Hd2 Hp2].
    split; simpl in *; [congruence | lia].
Qed.

Lemma parseDictLoop_fuel iters p d :
  (forall q, data q = data p -> (pos p < pos q)%nat -> (pos p < length (data p))%nat ->
     PO q <> OutOfFuel) ->
  (length (data p) - pos p < iters)%nat ->
  parseDictLoop PO iters p d <> OutOfFuel.
Proof.
  revert p d. induction iters as [|k IH]; intros p d HPO Hfuel; [lia |]. simpl.
  destruct (data p !! _) as [b|] eqn:Hb; [| done].
  apply lookup_lt_Some in Hb. simpl in Hb.
  destruct (_ && _); [done |].
  destruct (parseName (skipWhitespace p)) as [[nm q1]| | |] eqn:Hq1; simpl; try done;
    [| by apply parseName_fuel in Hq1].
  apply parseName_advances in Hq1 as [Hd0 Hp0]. simpl in Hd0, Hp0.
  destruct (PO q1) as [[obj q]| | |] eqn:Hq; simpl; try done.
  - apply PO_progressive in Hq as [Hd Hp]. apply IH.
    + intros q' Hd' Hp' Hlen. apply HPO; [congruence | lia | lia].
    + rewrite Hd, Hd0. lia.
  - exfalso. eapply (HPO q1); [done | lia | lia | done].
Qed.

Lemma parseDict_advances p o p' : parseDict PO p = Ok (o, p') -> advances p p'.
Proof.
  unfold parseDict. destruct (_ && _); [| discriminate].
  intros Hloop. apply parseDictLoop_advances in Hloop as [Hd Hp].
  split; simpl in *; [done | lia].
Qed.

Lemma parseDict_fuel p :
  (forall q, data q = data p -> (pos p < pos q)%nat -> (pos p < length (data p))%nat ->
     PO q <> OutOfFuel) ->
  parseDict PO p <> OutOfFuel.
Proof.
  intros HPO. unfold parseDict. destruct (_ && _); [| done].
  apply parseDictLoop_fuel; simpl; [| lia].
  intros q Hd Hp Hlen. apply HPO; [done | lia | lia].
Qed.

End Loops.

Ltac ch_values :=
  repeat match goal with
         | |- context [ch ?c] =>
           let v := eval vm_compute in (ch c) in change (ch c) with v
         | Hc : context [ch ?c] |- _ =>
           let v := eval vm_compute in (ch c) in change (ch c) with v in Hc
         end.

Lemma isRegular_of_start b :
  (b =? ch "t") || (b =? ch "f") || (b =? ch "n") || isDigit b ||
  (b =? ch "+") || (b =? ch "-") || (b =? ch ".") = true ->
  isRegular b = true.
Proof.
  intros Hb. unfold isRegular, isWhitespace, isDelimiter, isDigit in *. ch_values.
  rewrite ?orb_true_iff, ?andb_true_iff, ?Z.eqb_eq, ?Z.leb_le in Hb.
  apply andb_true_intro. split; apply negb_true_iff; rewrite ?orb_false_iff;
    repeat split; apply Z.eqb_neq; lia.
Qed.

Lemma parseObjectAt_advances PO :
  progressive PO -> progressive (parseObjectAt PO).
Proof.
  intros HPO p o p'. unfold parseObjectAt.
  pose proof (skipWhitespace_pos p) as Hws.
  set (p1 := skipWhitespace p) in *.
  assert (Hd1 : data p1 = data p) by done.
  assert (Hlift : forall q, advances p1 q -> advances p q).
  { intros q [Hd Hp]. split; [congruence | lia]. }
  destruct (data p1 !! pos p1) as [b|] eqn:Hb; [| discriminate].
  destruct (b =? ch "<").
  { destruct (bool_decide _); intros Hr; apply Hlift.
    - by eapply parseDict_advances.
    - by eapply parseHexString_advances. }
  destruct (b =? ch "(").
  { intros Hr. apply Hlift. by eapply parseLiteralString_advances. }
  destruct (b =? ch "/").
  { destruct (parseName p1) as [[nm q]| | |] eqn:Hn; simpl; try discriminate.
    intros [= <- <-]. apply Hlift. by eapply parseName_advances. }
  destruct (b =? ch "[").
  { intros Hr. apply Hlift. by eapply parseArray_advances. }
  destruct ((b =? ch "t") || (b =? ch "f")) eqn:Htf.
  { intros Hr. apply Hlift. eapply parseBoolean_advances; [done | | done].
    apply isRegular_of_start. apply orb_true_iff in Htf as [-> | ->]; simpl;
      rewrite ?orb_true_r; done. }
  destruct (b =? ch "n") eqn:Hn.
  { intros Hr. apply Hlift. eapply parseNull_advances; [done | | done].
    apply isRegular_of_start. rewrite Hn. simpl. by rewrite ?orb_true_r. }
  destruct (isDigit b || (b =? ch "+") || (b =? ch "-") || (b =? ch ".")) eqn:Hnum;
    [| discriminate].
  intros Hr. apply Hlift. eapply parseNumberOrRef_advances; [done | | done].
  apply isRegular_of_start. rewrite Htf, Hn. cbn [orb].
  destruct (isDigit b); [done |]. cbn [orb] in *. done.
Qed.

Lemma token_parsers_fuel p :
  parseHexString p <> OutOfFuel /\ parseLiteralString p <> OutOfFuel /\
  parseBoolean p <> OutOfFuel /\ parseNull p <> OutOfFuel /\
  parseNumberOrRef p <> OutOfFuel.
Proof.
  repeat split.
  - unfold parseHexString. destruct (data p !! pos p) as [b|]; [| done].
    destruct (negb _); [done |].
    assert (Hrun : forall hi l, hexRun hi l <> OutOfFuel).
    { intros hi l. revert hi. induction l as [|x l IH]; intros hi; simpl; [done |].
      repeat match goal with
             | |- context [if ?c then _ else _] => destruct c
             end; try done;
        match goal with |- context [hexRun ?h l] =>
          specialize (IH h); destruct (hexRun h l) as [[]| | |] end; done. }
    specialize (Hrun (-1) (rest (advance p 1))).
    destruct (hexRun (-1) (rest (advance p 1))) as [[s n]| | |]; simpl; try done.
    by destruct (decryptBytes _ _).
  - unfold parseLiteralString. destruct (data p !! pos p) as [b|]; [| done].
    destruct (negb _); [done |].
    assert (Hrun : forall l depth, literalRun depth l <> OutOfFuel).
    { intros l. induction l as [l IH] using (induction_ltof1 _ (@length Z)).
      unfold ltof in IH. intros depth.
      assert (Hrec : forall l' dp (k : list Z * nat -> outcome (list Z * nat)),
                 (length l' < length l)%nat -> (forall a, k a <> OutOfFuel) ->
                 literalRun dp l' ≫= k <> OutOfFuel).
      { intros l' dp k Hlt Hk. apply bind_fuel; [by apply IH | intros; apply Hk]. }
      destruct depth as [|dp]; [destruct l; done |].
      destruct l as [|x l]; [done |]. cbn [literalRun].
      repeat match goal with
             | |- context [if ?c then _ else _] => destruct c
             | |- context [match ?l0 with [] => _ | _ :: _ => _ end] =>
               is_var l0; destruct l0
             end; try done;
        (apply Hrec; [simpl; lia | by intros []]). }
    specialize (Hrun (rest (advance p 1)) 1%nat).
    destruct (literalRun 1 (rest (advance p 1))) as [[s n]| | |]; simpl; try done.
    by destruct (decryptBytes _ _).
  - unfold parseBoolean. destruct (readToken p). by repeat case_decide.
  - unfold parseNull. destruct (readToken p). by case_decide.
  - unfold parseNumberOrRef. destruct (readToken p) as [tok p1].
    destruct (ParseInt tok).
    + destruct (readToken (skipWhitespace p1)).
      repeat match goal with
             | |- context [match ?x with _ => _ end] => destruct x
             end; done.
    + destruct (readToken _). by destruct (ParseFloat _).
Qed.

Lemma parseObjectAt_fuel PO p :
  progressive PO ->
  (forall q, data q = data p -> (pos p < pos q)%nat -> (pos p < length (data p))%nat ->
     PO q <> OutOfFuel) ->
  parseObjectAt PO p <> OutOfFuel.
Proof.
  intros Hprog HPO. unfold parseObjectAt.
  pose proof (skipWhitespace_pos p) as Hws.
  set (p1 := skipWhitespace p) in *.
  assert (Hd1 : data p1 = data p) by done.
  destruct (data p1 !! pos p1) as [b|] eqn:Hb; [| done].
  pose proof (lookup_lt_Some _ _ _ Hb) as Hlt.
  assert (HPO1 : forall q, data q = data p1 -> (pos p1 < pos q)%nat ->
            (pos p1 < length (data p1))%nat -> PO q <> OutOfFuel).
  { intros q Hd Hp _. apply HPO; [congruence | lia | rewrite <- Hd1; lia]. }
  destruct (token_parsers_fuel p1) as (Hhex & Hlit & Hbool & Hnull & Hnum).
  repeat match goal with
         | |- context [if ?c then _ else _] => destruct c
         end; try done.
  - by apply parseDict_fuel.
  - apply bind_fuel; [apply parseName_fuel | by intros []].
  - by apply parseArray_fuel.
Qed.

Lemma ParseObject_progressive n : progressive (ParseObject n).
Proof.
  induction n as [|n IH]; [intros q o q'; discriminate |].
  simpl. by apply parseObjectAt_advances.
Qed.

(** Enough fuel: one unit per unread byte, and one more. *)
Lemma ParseObject_fuel n p :
  (length (data p) - pos p < n)%nat -> ParseObject n p <> OutOfFuel.
Proof.
  revert p. induction n as [|n IH]; intros p Hn; [lia |]. simpl.
  apply parseObjectAt_fuel; [apply ParseObject_progressive |].
  intros q Hd Hp Hlen. apply IH. rewrite Hd. lia.
Qed.

Lemma ParseIndirectObject_fuel p : ParseIndirectObject p <> OutOfFuel.
Proof.
  unfold ParseIndirectObject.
  destruct (readToken (skipWhitespace p)) as [numTok p1].
  destruct (ParseInt numTok); [| done].
  destruct (readToken (skipWhitespace p1)) as [genTok p2].
  destruct (ParseInt genTok); [| done].
  destruct (readToken (skipWhitespace p2)) as [objTok p3].
  destruct (negb _); [done |].
  apply bind_fuel.
  { apply wrapErr_fuel, ParseObject_fuel. unfold parseFuel. lia. }
  intros [val q] _. apply bind_fuel; [| by intros []].
  destruct (hasPrefixAt _ _); [| done].
  destruct val; try done.
  repeat match goal with
         | |- context [if ?c then _ else _] => destruct c
         end; try done;
    by destruct (decryptBytes _ _).
Qed.

Lemma resolve_fuel d num gen : resolve d num gen <> OutOfFuel.
Proof.
  unfold resolve. destruct (xref d !! num) as [e|]; [| done].
  destruct (negb _); [done |]. destruct (offsetOutOfFile d e); [done |].
  apply bind_fuel; [apply wrapErr_fuel, ParseIndirectObject_fuel | by intros []].
Qed.

Lemma resolveIfRef_fuel d obj : resolveIfRef d obj <> OutOfFuel.
Proof. destruct obj; try done. apply resolve_fuel. Qed.


Lemma halts_fuel {A} (m : outcome A) : m <> OutOfFuel -> halts m = true.
Proof. by destruct m. Qed.

Lemma parseRectangle_fuel obj : parseRectangle obj <> OutOfFuel.
Proof.
  unfold parseRectangle. destruct obj as [| | | | | |a| | |]; try done.
  destruct a as [|x1 [|x2 [|x3 [|x4 [|x5 a]]]]]; try done.
  by repeat match goal with |- context [numberOf ?x] => destruct (numberOf x) end.
Qed.

Lemma contentsOfArray_fuel d items : contentsOfArray d items <> OutOfFuel.
Proof.
  induction items as [|item items IH]; simpl; [done |].
  apply bind_fuel; [apply orElse_fuel, resolveIfRef_fuel |].
  intros o _. apply bind_fuel; [done |]. intros tl _. by destruct o.
Qed.

Lemma makePage_fuel d number node merged : makePage d number node merged <> OutOfFuel.
Proof.
  unfold makePage.
  apply bind_fuel.
  { destruct (merged !! _); [| done]. apply orElse_fuel, bind_fuel;
      [apply resolveIfRef_fuel | intros; apply parseRectangle_fuel]. }
  intros mediaBox _. apply bind_fuel.
  { destruct (merged !! _); [| done]. apply orElse_fuel, bind_fuel;
      [apply resolveIfRef_fuel |].
    intros; apply bind_fuel; [apply parseRectangle_fuel | done]. }
  intros cropBox _. apply bind_fuel.
  { destruct (merged !! _); [| done]. apply bind_fuel;
      [apply orElse_fuel, resolveIfRef_fuel | by intros []]. }
  intros resources _. apply bind_fuel.
  { destruct (merged !! _); [| done]. apply bind_fuel;
      [apply orElse_fuel, resolveIfRef_fuel | by intros []]. }
  intros rotate _. apply bind_fuel; [| done].
  destruct (node !! _); [| done]. apply bind_fuel;
    [apply wrapErr_fuel, resolveIfRef_fuel |].
  intros [] _; try done. apply contentsOfArray_fuel.
Qed.

Lemma pageKids_fuel d node : pageKids d node <> OutOfFuel.
Proof.
  unfold pageKids. destruct (default [] _); [| done].
  destruct (node !! _) as [[]|]; try done.
  apply bind_fuel; [apply wrapErr_fuel, resolve_fuel | by intros []].
Qed.

Lemma traverseKids_fuel traverse d acc kids merged rotate :
  (forall kid kidDict acc', kid ∈ kids -> resolveIfRef d kid = Ok (Dict kidDict) ->
     traverse acc' kidDict merged rotate <> OutOfFuel) ->
  traverseKids traverse d acc kids merged rotate <> OutOfFuel.
Proof.
  revert acc. induction kids as [|kid kids IH]; intros acc Hrec; simpl; [done |].
  assert (Htl : forall acc', traverseKids traverse d acc' kids merged rotate <> OutOfFuel).
  { intros acc'. apply IH. intros k kd a Hk. apply Hrec. by right. }
  apply bind_fuel; [apply wrapErr_fuel, resolveIfRef_fuel |].
  intros kidObj Hkid. apply wrapErr_Ok in Hkid.
  destruct kidObj; try apply Htl.
  apply bind_fuel; [| intros; apply Htl].
  eapply Hrec; [by left | done].
Qed.


(** A cycle: a node that is its own kid makes every traversal run out of
    fuel. *)
Lemma traversePageTree_self_kid (d : Document) (node : gmap (list Z) Object)
    (num gen : Z) (others : list Object) :
  GetName node (bytes_of "Type") <> bytes_of "Page" ->
  pageKids d node = Ok (Reference num gen :: others) ->
  resolve d num gen = Ok (Dict node) ->
  forall fuel acc inherited rotate,
    traversePageTree fuel d acc node inherited rotate = OutOfFuel.
Proof.
  intros Htype Hkids Hres. induction fuel as [|fuel IH]; intros acc inherited rotate;
    [done |].
  cbn [traversePageTree]. unfold traverseNode. rewrite decide_False by done.
  rewrite Hkids. cbn [mbind outcome_bind traverseKids resolveIfRef].
  rewrite Hres. cbn [wrapErr mbind outcome_bind]. by rewrite IH.
Qed.

End Totality.

Section XrefFacts.
Context `{GoLib}.

Lemma mergeStep_lookup (l : list (Z * xrefEntry)) (t : gmap Z xrefEntry) (o : Z) :
  foldl (fun t '(num, entry) =>
           match t !! num with
           | Some _ => t
           | None => <[num := entry]> t
           end) t l !! o
  = (t ∪ (list_to_map l : gmap Z xrefEntry)) !! o.
Proof.
  revert t. induction l as [|[k e] l IH]; intros t; simpl.
  - by rewrite (right_id_L ∅ (∪)).
  - rewrite IH, !lookup_union. destruct (decide (o = k)) as [-> | Hne].
    + rewrite lookup_insert_eq. destruct (t !! k) as [x|] eqn:Hk.
      * rewrite Hk. by destruct (list_to_map l !! k).
      * rewrite lookup_insert_eq. by destruct (list_to_map l !! k).
    + rewrite (lookup_insert_ne _ k o) by done.
      destruct (t !! k); [done |]. by rewrite lookup_insert_ne.
Qed.

Lemma mergePrev_union (table prevTable : gmap Z xrefEntry) :
  mergePrev table prevTable = table ∪ prevTable.
Proof.
  apply map_eq. intros o. unfold mergePrev. rewrite mergeStep_lookup.
  f_equal. f_equal.
  rewrite <- (list_to_map_to_list prevTable) at 2.
  apply list_to_map_proper; [| apply rangeOrder_perm].
  rewrite rangeOrder_perm. apply NoDup_fst_map_to_list.
Qed.

Lemma firstEntry_cons o e tbl tr secs :
  firstEntry o e ((tbl, tr) :: secs) <->
  tbl !! o = Some e \/ tbl !! o = None /\ firstEntry o e secs.
Proof.
  split.
  - intros (i & sec & Hi & He & Hbefore). destruct i as [|i]; simpl in Hi.
    + injection Hi as <-. by left.
    + right. split.
      * apply (Hbefore 0%nat (tbl, tr)); [lia | done].
      * exists i, sec. repeat split; [done.. |]. intros j sec' Hj Hsec'.
        apply (Hbefore (S j) sec'); [lia | done].
  - intros [He | (Hnone & i & sec & Hi & He & Hbefore)].
    + exists 0%nat, (tbl, tr). repeat split; [done.. |]. intros; lia.
    + exists (S i), sec. repeat split; [done.. |]. intros [|j] sec' Hj Hsec'; simpl in Hsec'.
      * by injection Hsec' as <-.
      * apply (Hbefore j sec'); [lia | done].
Qed.


End XrefFacts.

Section ReaderFacts.
Context `{GoLib}.

(** C3.  [Fill] with an empty value map writes the whole input to the output
    unchanged, without parsing it or making a working copy. *)
Theorem Fill_empty_values_identity (fuel : nat) (input : ReadSeeker) (out : list Z) :
  Fill fuel input out ∅ = (Ok (), mkEdit (out ++ content input) None).
Proof. unfold Fill. rewrite map_size_empty. reflexivity. Qed.

(** C9.  For a reference whose object number is absent from the xref table,
    or whose entry is marked free, [resolve] returns Null and no error; and
    when [resolve] returns an error, the entry is in use and either its
    offset lies outside the file or the indirect object at that offset
    fails to parse. *)
Theorem resolve_absent_or_free (d : Document) (num gen : Z) :
  ((xref d !! num = None \/ exists e, xref d !! num = Some e /\ InUse e = false) ->
     resolve d num gen = Ok Null) /\
  (forall msg, resolve d num gen = Err msg ->
     exists e, xref d !! num = Some e /\ InUse e = true /\
       (offsetOutOfFile d e = true \/
        exists msg', ParseIndirectObject (objectParser d e num gen) = Err msg')).
Proof.
  unfold resolve. split.
  - intros [-> | (e & -> & ->)]; reflexivity.
  - intros msg. destruct (xref d !! num) as [e|]; [| discriminate].
    destruct (InUse e) eqn:Huse; simpl; [| discriminate].
    destruct (offsetOutOfFile d e) eqn:Hoff.
    + intros _. exists e. auto.
    + destruct (ParseIndirectObject (objectParser d e num gen)) as [[obj p]| msg' | |] eqn:Hp;
        simpl; try discriminate.
      intros _. exists e. repeat split; eauto.
Qed.

Lemma contentStreamLoop_spec streams ds acc :
  Forall2 (fun s dec => decodeStream s.1 s.2 = Ok dec) streams ds ->
  contentStreamLoop streams acc = Ok (acc ++ (ds ≫= fun dec => dec ++ [10])).
Proof.
  intros Hall. revert acc. induction Hall as [|[dict payload] dec streams ds Hdec _ IH];
    intros acc; simpl.
  - by rewrite app_nil_r.
  - simpl in Hdec. rewrite Hdec. simpl. rewrite IH. by rewrite <- !app_assoc.
Qed.

(** C8 (amended).  [ContentStream] returns the decoded payloads of the
    page's content streams, in order, each followed by one line feed: the
    line feed also follows the last stream, and the only stream of a page
    with a single stream. *)
Theorem ContentStream_newline_after_each (p : Page) (ds : list (list Z)) :
  Forall2 (fun s dec => decodeStream s.1 s.2 = Ok dec) (Contents p) ds ->
  ContentStream p = Ok (ds ≫= fun dec => dec ++ [10]).
Proof. intros Hall. unfold ContentStream. by rewrite (contentStreamLoop_spec _ ds). Qed.


Lemma bytesEqualLoop_eq (a b : list Z) :
  length a = length b -> bytesEqualLoop a b = true <-> a = b.
Proof.
  revert b. induction a as [|x a IH]; intros [|y b] Hlen; simpl in *; try discriminate.
  - done.
  - destruct (Z.eqb_spec x y) as [-> | Hne].
    + rewrite IH by lia. split; [by intros -> | by intros [= ->]].
    + split; [discriminate | by intros [= -> _]].
Qed.

Lemma bytesEqual_spec (a b : list Z) :
  bytesEqual a b = true <->
  b <> [] /\ a <> [] /\
  take (Nat.min (length a) (length b)) a = take (Nat.min (length a) (length b)) b
  \/ a = [] /\ b = [].
Proof.
  unfold bytesEqual.
  destruct (Nat.eqb_spec (length a) (length b)) as [Heq | Hne]; simpl.
  - rewrite bytesEqualLoop_eq by done. rewrite <- Heq, Nat.min_id, firstn_all.
    rewrite Heq at 1. rewrite firstn_all. split.
    + intros ->. destruct b; [by right | left; done].
    + intros [(_ & _ & ->) | [-> ->]]; done.
  - destruct (Nat.ltb_spec (length b) (length a)) as [Hlt | Hge].
    + replace (Nat.min (length a) (length b)) with (length b) by lia.
      destruct (Nat.eqb_spec (length b) 0) as [H0 | H0].
      * split; [discriminate |]. intros [(Hb & _) | [-> ->]]; [| done].
        destruct b; [done | discriminate].
      * rewrite bytesEqualLoop_eq by (rewrite !length_take; lia).
        split; [| intros [(_ & _ & ?) | [-> ->]]; done].
        intros Ht. left. repeat split; [| | done]; intros ->; simpl in *; lia.
    + replace (Nat.min (length a) (length b)) with (length a) by lia.
      destruct (Nat.eqb_spec (length a) 0) as [H0 | H0].
      * split; [discriminate |]. intros [(_ & Ha & _) | [-> ->]]; [| done].
        destruct a; [done | discriminate].
      * rewrite bytesEqualLoop_eq by (rewrite !length_take; lia).
        split; [| intros [(_ & _ & ?) | [-> ->]]; done].
        intros Ht. left. repeat split; [| | done]; intros ->; simpl in *; lia.
Qed.

Lemma XORKeyStream_length (c : rc4.Cipher) (src : list Z) :
  length (rc4.XORKeyStream c src).1 = length src.
Proof.
  revert c. induction src as [|v src IH]; intros c; simpl; [done |].
  match goal with |- context [rc4.XORKeyStream ?c' src] =>
    specialize (IH c'); destruct (rc4.XORKeyStream c' src) end.
  simpl in *. by rewrite IH.
Qed.

#[local] Opaque rc4.NewCipher rc4.XORKeyStream.

(** C5 (amended).  For revision 2 the user password validates exactly when
    the key is accepted by RC4, /U is not empty, and the RC4 encryption of
    the 32-byte padding agrees with /U on the first min(32, len(/U)) bytes;
    for a /U of 32 bytes this is equality. *)
Theorem validateUserPassword_revision2 (k : list Z) (info : encryptInfo) :
  revision info = 2 ->
  validateUserPassword k info = true <->
  exists c, rc4.NewCipher k = Some c /\ userHash info <> [] /\
    let n := Nat.min 32 (length (userHash info)) in
    take n (rc4.XORKeyStream c pdfPadding).1 = take n (userHash info).
Proof.
  intros Hrev. unfold validateUserPassword. rewrite Hrev, Z.eqb_refl.
  destruct (rc4.NewCipher k) as [c|]; [| split; [discriminate | by intros (? & ? & _)]].
  rewrite bytesEqual_spec.
  pose proof (XORKeyStream_length c pdfPadding) as Hlen. cbn [length pdfPadding] in Hlen.
  rewrite Hlen. split.
  - intros [(Hu & _ & Ht) | [Hc _]].
    + exists c. split; [reflexivity |]. split; [exact Hu | exact Ht].
    + rewrite Hc in Hlen. discriminate Hlen.
  - intros (c' & Hc' & Hu & Ht). injection Hc' as <-. left.
    split; [exact Hu |]. split; [| exact Ht].
    intros Hc. rewrite Hc in Hlen. discriminate Hlen.
Qed.

(** C10.  When the input parses and [FormFields] returns an empty sequence,
    [Flatten] succeeds and writes the input bytes to the output unchanged,
    without making a working copy. *)
Theorem Flatten_no_fields_identity (fuel : nat) (input : ReadSeeker) (out : list Z)
    (doc : Document) :
  ReadFrom fuel (ReadAll input) = Ok doc ->
  FormFields fuel doc = Ok [] ->
  Flatten fuel input out = (Ok (), mkEdit (out ++ ReadAll input) None).
Proof. intros Hdoc Hfields. unfold Flatten. rewrite Hdoc. simpl. rewrite Hfields. reflexivity. Qed.

Lemma fieldMapOf_lookup_None (fs : list FormField) (name : list Z) :
  fieldMapOf fs !! name = None <-> name ∉ FullName <$> fs.
Proof.
  unfold fieldMapOf.
  assert (Hgen : forall m : gmap (list Z) FormField,
             foldl (fun m f => <[FullName f := f]> m) m fs !! name = None
             <-> m !! name = None /\ name ∉ FullName <$> fs).
  { induction fs as [|f fs IH]; intros m; simpl.
    - split; [intros ?; split; [done | apply not_elem_of_nil] | by intros [? _]].
    - rewrite IH, not_elem_of_cons, lookup_insert_None. intuition congruence. }
  rewrite Hgen, lookup_empty. tauto.
Qed.

Lemma unknownField_Some (fieldMap : gmap (list Z) FormField)
    (values : gmap (list Z) (list Z)) (name v : list Z) :
  values !! name = Some v -> fieldMap !! name = None ->
  exists n, unknownField fieldMap values = Some n.
Proof.
  intros Hv Hf. unfold unknownField.
  destruct (List.find _ (rangeOrder values)) as [[n w]|] eqn:Hfind; [by eexists |].
  exfalso.
  assert (Hin : In (name, v) (rangeOrder values)).
  { apply list_elem_of_In. rewrite rangeOrder_perm. by apply elem_of_map_to_list. }
  pose proof (find_none _ _ Hfind (name, v) Hin) as Hfalse. simpl in Hfalse.
  by apply bool_decide_eq_false in Hfalse.
Qed.

(** C2.  When some key of the value map is not the fully qualified name of
    any form field of the document, [Fill] does not succeed: nothing is
    written to the output and the working copy is never made, so no byte of
    it is changed; when the document parses and its fields are read, the
    outcome is an error. *)
Theorem Fill_unknown_field_fails (fuel : nat) (input : ReadSeeker) (out : list Z)
    (values : gmap (list Z) (list Z)) (name v : list Z) :
  values !! name = Some v ->
  (forall doc fields, ReadFrom fuel (ReadAll input) = Ok doc ->
     FormFields fuel doc = Ok fields -> name ∉ FullName <$> flattenFields fields) ->
  exists r, Fill fuel input out values = (r, mkEdit out None) /\
    isOk r = false /\
    (forall doc fields, ReadFrom fuel (ReadAll input) = Ok doc ->
       FormFields fuel doc = Ok fields -> isErr r = true).
Proof.
  intros Hv Hunknown. unfold Fill.
  assert (Hsize : (size values =? 0)%nat = false).
  { apply Nat.eqb_neq. intros H0. apply map_size_empty_iff in H0. by rewrite H0 in Hv. }
  rewrite Hsize.
  destruct (ReadFrom fuel (ReadAll input)) as [doc| | |] eqn:Hdoc; simpl;
    try (eexists; split; [reflexivity |]; split; [done | intros; congruence]).
  destruct (FormFields fuel doc) as [fields| | |] eqn:Hfields; simpl;
    try (eexists; split; [reflexivity |]; split; [done | intros; congruence]).
  destruct (length fields =? 0)%nat;
    [eexists; split; [reflexivity |]; split; [done | intros; done] |].
  destruct (unknownField_Some (fieldMapOf (flattenFields fields)) values name v Hv)
    as [n Hn].
  { apply fieldMapOf_lookup_None. eapply Hunknown; eauto. }
  rewrite Hn. eexists; split; [reflexivity |]; split; [done | intros; done].
Qed.

End ReaderFacts.

Section FlattenFacts.
Context `{GoLib}.

Lemma blanked_refl d : blanked d d.
Proof. split; [done | auto]. Qed.

Lemma blanked_trans d1 d2 d3 : blanked d1 d2 -> blanked d2 d3 -> blanked d1 d3.
Proof.
  intros [Hl12 H12] [Hl23 H23]. split; [congruence |].
  intros i b Hb. destruct (H23 i b Hb) as [Hb2 | ->]; [| by right]. by apply H12.
Qed.

Lemma blanked_app a a' b b' : blanked a a' -> blanked b b' -> blanked (a ++ b) (a' ++ b').
Proof.
  intros [Hla Ha] [Hlb Hb]. split; [rewrite !length_app; lia |].
  intros i x Hx. apply lookup_app_Some in Hx as [Hx | [Hge Hx]].
  - destruct (Ha i x Hx) as [Hax | ->]; [| by right]. left. by apply lookup_app_l_Some.
  - destruct (Hb _ x Hx) as [Hbx | ->]; [| by right]. left.
    rewrite lookup_app_r by lia. by rewrite <- Hla.
Qed.

Lemma blanked_replicate (a : list Z) : blanked a (replicate (length a) (ch " ")).
Proof.
  split; [by rewrite length_replicate |].
  intros i b Hb. apply lookup_replicate in Hb as [-> _]. by right.
Qed.

Lemma blankRange_blanked lo hi d d' : blankRange lo hi d = Ok d' -> blanked d d'.
Proof.
  unfold blankRange.
  destruct ((lo <? hi) && ((lo <? 0) || (Z.of_nat (length d) <? hi))) eqn:Hchk; [discriminate |].
  intros [= <-].
  destruct (Z.ltb_spec lo hi) as [Hlt | Hge]; simpl in Hchk.
  - assert (0 <= lo /\ hi <= Z.of_nat (length d)) as [Hlo Hhi] by lia.
    rewrite <- (take_drop (Z.to_nat lo) d) at 1.
    apply blanked_app; [apply blanked_refl |].
    rewrite <- (take_drop (Z.to_nat (hi - lo)) (drop (Z.to_nat lo) d)) at 1.
    rewrite drop_drop. apply blanked_app; [| apply blanked_refl].
    replace (Z.to_nat (hi - lo)) with (length (take (Z.to_nat (hi - lo)) (drop (Z.to_nat lo) d))) at 2.
    + apply blanked_replicate.
    + rewrite length_take, length_drop. lia.
  - replace (Z.to_nat (hi - lo)) with 0%nat by lia. simpl.
    rewrite Nat.add_0_r, take_drop. apply blanked_refl.
Qed.

Lemma blankRange_in_bounds lo hi d :
  0 <= lo -> hi <= Z.of_nat (length d) -> exists d', blankRange lo hi d = Ok d'.
Proof.
  intros Hlo Hhi. unfold blankRange.
  replace ((lo <? hi) && ((lo <? 0) || (Z.of_nat (length d) <? hi))) with false by lia.
  by eexists.
Qed.

Lemma blankRanges_ok locs d :
  Forall (fun '(lo, hi) => 0 <= lo /\ hi <= Z.of_nat (length d)) locs ->
  exists d', blankRanges locs d = Ok d' /\ blanked d d'.
Proof.
  revert d. induction locs as [|[lo hi] locs IH]; intros d Hall; simpl.
  - exists d. split; [done | apply blanked_refl].
  - apply Forall_cons in Hall as [[Hlo Hhi] Hall].
    destruct (blankRange_in_bounds lo hi d Hlo Hhi) as [d1 Hd1]. rewrite Hd1. simpl.
    pose proof (blankRange_blanked _ _ _ _ Hd1) as Hb1.
    destruct (IH d1) as (d' & Hd' & Hb').
    { destruct Hb1 as [Hlen _]. rewrite Hlen. done. }
    exists d'. split; [done | by eapply blanked_trans].
Qed.

Lemma FindAllIndex_bounds re b :
  Forall (fun '(lo, hi) => 0 <= lo /\ hi <= Z.of_nat (length b)) (FindAllIndex re b).
Proof.
  unfold FindAllIndex. apply Forall_fmap, Forall_forall. intros m Hm.
  destruct (FindAllSubmatchIndex_bounds re b m Hm) as (lo & hi & tl & -> & Hlo & Hhi).
  simpl. lia.
Qed.

Lemma blankPattern_ok d re : exists d', blankPattern d re = Ok d' /\ blanked d d'.
Proof. apply blankRanges_ok, FindAllIndex_bounds. Qed.

Lemma blankPatternIn_ok d lo hi re :
  (lo <= hi <= length d)%nat ->
  exists d', blankPatternIn d lo hi re = Ok d' /\ blanked d d'.
Proof.
  intros Hb. unfold blankPatternIn.
  destruct (blankPattern_ok (take (hi - lo) (drop lo d)) re) as (w & -> & Hw). simpl.
  eexists. split; [done |].
  rewrite <- (take_drop lo d) at 1. apply blanked_app; [apply blanked_refl |].
  rewrite <- (take_drop (hi - lo) (drop lo d)) at 1. rewrite drop_drop.
  replace (lo + (hi - lo))%nat with hi by lia.
  apply blanked_app; [done | apply blanked_refl].
Qed.

Lemma bytesIndex_bound l sep i :
  bytesIndex l sep = Some i -> (i + length sep <= length l)%nat.
Proof.
  revert i. induction l as [|b l IH]; intros i; simpl.
  - unfold hasPrefix. case_bool_decide as Hp; [| discriminate].
    intros [= <-]. rewrite take_nil in Hp. subst sep. simpl. lia.
  - unfold hasPrefix. case_bool_decide as Hp.
    + intros [= <-]. rewrite <- Hp at 1. rewrite length_take. simpl. lia.
    + destruct (bytesIndex l sep) as [k|]; [| discriminate].
      intros [= <-]. specialize (IH k eq_refl). simpl. lia.
Qed.

Lemma findDictStartLoop_lt d i depth k :
  findDictStartLoop d i depth = Some k -> (k < i)%nat.
Proof.
  revert depth. induction i as [|i IH]; intros depth; simpl; [discriminate |].
  repeat match goal with |- context [if ?c then _ else _] => destruct c end;
    try (intros [= <-]; lia); intros Hk; apply IH in Hk; lia.
Qed.

Lemma findDictEndLoop_step a b l i depth :
  findDictEndLoop (a :: b :: l) i depth =
  if (a =? ch "<") && (b =? ch "<") then findDictEndLoop l (i + 2) (depth + 1)
  else if (a =? ch ">") && (b =? ch ">") then
         if depth <=? 1 then Some i else findDictEndLoop l (i + 2) (depth - 1)
       else findDictEndLoop (b :: l) (i + 1) depth.
Proof. reflexivity. Qed.

Lemma findDictEndLoop_bounds l i depth k :
  findDictEndLoop l i depth = Some k -> (i <= k /\ k + 2 <= i + length l)%nat.
Proof.
  revert i depth. induction l as [l IH] using (induction_ltof1 _ (@length Z)).
  unfold ltof in IH. intros i depth.
  destruct l as [|a [|b l]]; [discriminate.. |].
  rewrite findDictEndLoop_step.
  repeat match goal with |- context [if ?c then _ else _] => destruct c end;
    try (intros [= <-]; simpl; lia); intros Hk; apply IH in Hk; simpl in *; lia.
Qed.

Lemma findDict_bounds d idx lo e :
  (idx <= length d)%nat ->
  findDictStart d idx = Some lo -> findDictEnd d idx = Some e ->
  (lo <= e + 2 <= length d)%nat.
Proof.
  intros Hidx Hlo He. unfold findDictStart in Hlo. unfold findDictEnd in He.
  apply findDictStartLoop_lt in Hlo. apply findDictEndLoop_bounds in He.
  rewrite length_drop in He. lia.
Qed.

Lemma blankFieldDict_ok d pattern r :
  blankFieldDict d pattern = Some r -> exists d', r = Ok d' /\ blanked d d'.
Proof.
  unfold blankFieldDict.
  destruct (bytesIndex d pattern) as [idx|] eqn:Hidx; [| discriminate].
  destruct (findDictStart d idx) as [lo|] eqn:Hlo; [| discriminate].
  destruct (findDictEnd d idx) as [e|] eqn:He; [| discriminate].
  intros [= <-].
  apply bytesIndex_bound in Hidx.
  pose proof (findDict_bounds d idx lo e ltac:(lia) Hlo He) as Hb.
  replace ((e + 2 <? lo)%nat || (length d <? e + 2)%nat) with false
    by (symmetry; apply orb_false_intro; [apply Nat.ltb_ge | apply Nat.ltb_ge]; lia).
  destruct (blankPatternIn_ok d lo (e + 2) "/FT\s+/[A-Za-z]+" Hb) as (d1 & -> & B1). simpl.
  assert (L1 : length d1 = length d) by apply B1.
  destruct (blankPatternIn_ok d1 lo (e + 2) "/Subtype\s+/Widget" ltac:(lia)) as (d2 & -> & B2). simpl.
  assert (L2 : length d2 = length d1) by apply B2.
  destruct (blankPatternIn_ok d2 lo (e + 2) "/DA\s*\([^)]*\)" ltac:(lia)) as (d3 & -> & B3). simpl.
  assert (L3 : length d3 = length d2) by apply B3.
  destruct (blankPatternIn_ok d3 lo (e + 2) "/NeedAppearances\s+(true|false)" ltac:(lia))
    as (d4 & -> & B4).
  exists d4. split; [done |]. eauto using blanked_trans.
Qed.

Lemma blankFieldMarkers_ok d field :
  exists d', blankFieldMarkers d field = Ok d' /\ blanked d d'.
Proof.
  unfold blankFieldMarkers.
  repeat match goal with
         | |- context [match blankFieldDict d ?pat with _ => _ end] =>
           let Hd := fresh "Hd" in
           destruct (blankFieldDict d pat) as [r|] eqn:Hd;
             [exact (blankFieldDict_ok _ _ _ Hd) |]
         end.
  exists d. split; [done | apply blanked_refl].
Qed.

Lemma blankAllFields_ok d fields :
  exists d', blankAllFields d fields = Ok d' /\ blanked d d'.
Proof.
  revert d. induction fields as [|f fields IH]; intros d; simpl.
  - exists d. split; [done | apply blanked_refl].
  - destruct (blankFieldMarkers_ok d f) as (d1 & -> & B1). simpl.
    destruct (IH d1) as (d' & -> & B'). exists d'. split; [done | by eapply blanked_trans].
Qed.

Lemma acroDictEnd_step a b l i dp :
  acroDictEnd (a :: b :: l) i (S dp) =
  if (a =? ch "<") && (b =? ch "<") then acroDictEnd l (i + 2) (S (S dp))
  else if (a =? ch ">") && (b =? ch ">") then
         if (dp =? 0)%nat then (i + 2)%nat else acroDictEnd l (i + 2) dp
       else acroDictEnd (b :: l) (i + 1) (S dp).
Proof. reflexivity. Qed.

Lemma acroDictEnd_bound l i depth : (acroDictEnd l i depth <= i + length l)%nat.
Proof.
  revert i depth. induction l as [l IH] using (induction_ltof1 _ (@length Z)).
  unfold ltof in IH. intros i depth.
  destruct depth as [|dp]; [destruct l; simpl; lia |].
  destruct l as [|a [|b l]]; [simpl; lia.. |].
  rewrite acroDictEnd_step.
  repeat match goal with |- context [if ?c then _ else _] => destruct c end;
    try (simpl; lia); match goal with |- (acroDictEnd ?l' ?i' ?d' <= _)%nat =>
      specialize (IH l' ltac:(simpl; lia) i' d'); simpl in *; lia end.
Qed.

Lemma acroGap_bound l : (acroGap l <= length l)%nat.
Proof. induction l as [|b l IH]; simpl; [lia |]. destruct (_ || _); simpl; lia. Qed.

Lemma blankAcroForm_ok d : exists d', blankAcroForm d = Ok d' /\ blanked d d'.
Proof.
  unfold blankAcroForm.
  destruct (bytesIndex d (bytes_of "/AcroForm")) as [acroStart|] eqn:Hidx;
    [| exists d; split; [done | apply blanked_refl]].
  apply bytesIndex_bound in Hidx. change (length (bytes_of "/AcroForm")) with 9%nat in Hidx.
  set (pos := (acroStart + 9 + acroGap (drop (acroStart + 9) d))%nat).
  assert (Hpos : (pos <= length d)%nat).
  { subst pos. pose proof (acroGap_bound (drop (acroStart + 9) d)) as Hg.
    rewrite length_drop in Hg. lia. }
  match goal with |- context [blankRange _ ?e d] => set (acroEnd := e) end.
  destruct (acroEnd <=? Z.of_nat acroStart) eqn:Hcmp;
    [exists d; split; [done | apply blanked_refl] |].
  assert (HacroEnd : acroEnd <= Z.of_nat (length d)).
  { subst acroEnd. destruct (_ && _).
    - pose proof (acroDictEnd_bound (drop (pos + 2) d) (pos + 2) 1) as Hb.
      rewrite length_drop in Hb.
      destruct (Nat.le_gt_cases (pos + 2) (length d)) as [Hle | Hgt]; [lia |].
      rewrite drop_ge in * by lia. simpl. lia.
    - unfold FindIndex.
      pose proof (FindAllIndex_bounds "\d+\s+\d+\s+R" (drop pos d)) as Hall.
      destruct (FindAllIndex "\d+\s+\d+\s+R" (drop pos d)) as [|[lo hi] tl]; simpl; [lia |].
      apply Forall_cons in Hall as [[_ Hhi] _]. rewrite length_drop in Hhi.
      destruct lo; lia. }
  destruct (blankRange_in_bounds (Z.of_nat acroStart) acroEnd d ltac:(lia) HacroEnd) as [d' Hd'].
  exists d'. split; [done | by eapply blankRange_blanked].
Qed.

Lemma flatten_edit_ok d fields :
  exists w, (w ← blankAcroForm d; blankAllFields w (flattenFields fields)) = Ok w /\
    blanked d w.
Proof.
  destruct (blankAcroForm_ok d) as (d1 & -> & B1).
  destruct (blankAllFields_ok d1 (flattenFields fields)) as (d2 & Hd2 & B2).
  exists d2. split; [done | by eapply blanked_trans].
Qed.


End FlattenFacts.

(** * Further properties of the lexer and the parser *)

Section LexerFacts.
Context `{GoLib}.

Lemma rest_lookup_at (p : parser) (n : nat) :
  rest p !! n = data p !! (pos p + n)%nat.
Proof. unfold rest. apply lookup_drop. Qed.

Lemma wsRun_bound c l : (wsRun c l <= length l)%nat.
Proof.
  revert c. induction l as [|b l IH]; intros c; simpl; [lia |].
  pose proof (IH false). pose proof (IH true).
  destruct c; [destruct (isEOL b); lia |].
  destruct (isWhitespace b); [lia |]. destruct (b =? ch "%"); lia.
Qed.

(** Where the run ends, the input is finished or shows a byte that is
    neither whitespace nor the start of a comment. *)
Lemma wsRun_stops c l b :
  drop (wsRun c l) l !! 0%nat = Some b -> isWhitespace b = false /\ b <> ch "%".
Proof.
  revert c. induction l as [|x l IH]; intros c; simpl; [done |].
  destruct c.
  - destruct (isEOL x); simpl; apply IH.
  - destruct (isWhitespace x) eqn:Hws; simpl; [apply IH |].
    destruct (Z.eqb_spec x (ch "%")) as [-> | Hne]; simpl; [apply IH |].
    intros [= <-]. done.
Qed.

Lemma wsRun_fixed l b l' :
  l = b :: l' -> isWhitespace b = false -> b <> ch "%" -> wsRun false l = 0%nat.
Proof.
  intros -> Hws Hne. simpl. rewrite Hws.
  by destruct (Z.eqb_spec b (ch "%")).
Qed.

(** X2: skipWhitespace.  [skipWhitespace] only moves the cursor forward and
    never past the end of the data; it stops at the end of the data or in
    front of a byte that is neither whitespace nor ['%'], so a comment is
    skipped up to and including its line end; and skipping again does not
    move the cursor. *)
Theorem skipWhitespace_stops_at_token (p : parser) :
  data (skipWhitespace p) = data p /\
  cipher (skipWhitespace p) = cipher p /\
  (pos p <= pos (skipWhitespace p) <= Nat.max (pos p) (length (data p)))%nat /\
  (forall b, data p !! pos (skipWhitespace p) = Some b ->
     isWhitespace b = false /\ b <> ch "%") /\
  skipWhitespace (skipWhitespace p) = skipWhitespace p.
Proof.
  assert (Hrun : (pos p + wsRun false (rest p) <= Nat.max (pos p) (length (data p)))%nat).
  { pose proof (wsRun_bound false (rest p)) as Hb. unfold rest in Hb.
    rewrite length_drop in Hb. unfold rest. lia. }
  assert (Hstop : forall b, data p !! (pos p + wsRun false (rest p))%nat = Some b ->
                    isWhitespace b = false /\ b <> ch "%").
  { intros b Hb. apply (wsRun_stops false (rest p)).
    by rewrite lookup_drop, Nat.add_0_r, rest_lookup_at. }
  split; [reflexivity |]. split; [reflexivity |]. split; [simpl; lia |].
  split; [exact Hstop |].
  unfold skipWhitespace at 1. unfold advance, set_pos.
  set (q := skipWhitespace p).
  assert (Hq : wsRun false (rest q) = 0%nat).
  { unfold rest. subst q. simpl.
    destruct (drop (pos p + wsRun false (rest p)) (data p)) as [|b l'] eqn:Hd; [done |].
    assert (Hb : data p !! (pos p + wsRun false (rest p))%nat = Some b).
    { rewrite <- (Nat.add_0_r (pos p + _)), <- lookup_drop. by rewrite Hd. }
    destruct (Hstop b Hb) as [Hws Hne]. by eapply wsRun_fixed. }
  rewrite Hq, Nat.add_0_r. by destruct q.
Qed.

Lemma regularRun_bound l : (regularRun l <= length l)%nat.
Proof. induction l as [|b l IH]; simpl; [lia |]. destruct (isRegular b); lia. Qed.

Lemma regularRun_take l : Forall (fun b => isRegular b = true) (take (regularRun l) l).
Proof.
  induction l as [|b l IH]; simpl; [constructor |].
  destruct (isRegular b) eqn:Hb; simpl; [by constructor | constructor].
Qed.

Lemma regularRun_stops l b :
  drop (regularRun l) l !! 0%nat = Some b -> isRegular b = false.
Proof.
  induction l as [|x l IH]; simpl; [done |].
  destruct (isRegular x) eqn:Hx; simpl; [exact IH | by intros [= <-]].
Qed.

(** X3: readToken.  The token [readToken] returns is the longest run of
    regular bytes that follows the whitespace and comments at the cursor:
    its bytes are regular, they are the bytes of the data between the end
    of the whitespace and the new cursor, and the byte at the new cursor,
    if there is one, is not regular. *)
Theorem readToken_longest_regular_run (p : parser) :
  Forall (fun b => isRegular b = true) (readToken p).1 /\
  data (readToken p).2 = data p /\
  pos (readToken p).2 = (pos (skipWhitespace p) + length (readToken p).1)%nat /\
  (readToken p).1 = take (length (readToken p).1) (drop (pos (skipWhitespace p)) (data p)) /\
  (forall b, data p !! pos (readToken p).2 = Some b -> isRegular b = false).
Proof.
  unfold readToken. cbn [fst snd]. set (q := skipWhitespace p).
  assert (Hlen : length (take (regularRun (rest q)) (rest q)) = regularRun (rest q)).
  { rewrite length_take. pose proof (regularRun_bound (rest q)). lia. }
  split; [apply regularRun_take |]. split; [reflexivity |].
  split; [simpl; by rewrite Hlen |]. split; [by rewrite Hlen |].
  intros b Hb. apply (regularRun_stops (rest q)).
  by rewrite lookup_drop, Nat.add_0_r, rest_lookup_at.
Qed.

End LexerFacts.

Section DocumentExtras.
Context `{GoLib}.


(** X15: resolve.  In a document that is not encrypted, what a reference
    resolves to depends only on the xref entry of its object number: the
    generation number of the reference is not used, and neither is the
    object number written in the file at the entry's offset. *)
Theorem resolve_uses_only_the_entry (d : Document) (n1 g1 n2 g2 : Z) :
  encrypt d = None ->
  xref d !! n1 = xref d !! n2 ->
  resolve d n1 g1 = resolve d n2 g2.
Proof.
  intros Henc Hentry. unfold resolve, objectParser. rewrite Hentry, Henc. reflexivity.
Qed.

Lemma numbered_snoc (acc : list Page) (p : Page) :
  numbered acc -> pg_Number p = Z.of_nat (length acc) + 1 -> numbered (acc ++ [p]).
Proof.
  intros Hacc Hp i q Hi.
  destruct (lookup_app_Some acc [p] i q) as [Hsplit _].
  destruct (Hsplit Hi) as [Hl | [Hge Hr]]; [by apply Hacc |].
  destruct (i - length acc)%nat as [|k] eqn:Hk; simpl in Hr; [| by destruct k].
  injection Hr as <-. rewrite Hp. f_equal. lia.
Qed.

Lemma makePage_number d n node merged page :
  makePage d n node merged = Ok page -> pg_Number page = n.
Proof.
  unfold makePage. intros Hmk.
  repeat match type of Hmk with
         | (?m ≫= _) = Ok _ =>
           let x := fresh "x" in
           destruct m as [x| | |] eqn:?; try discriminate Hmk;
           cbn [mbind outcome_bind] in Hmk
         end.
  by injection Hmk as <-.
Qed.

Lemma traverseKids_numbered traverse d kids :
  forall acc merged rotate ps,
    (forall acc' node inh rot ps',
       numbered acc' -> traverse acc' node inh rot = Ok ps' -> numbered ps') ->
    numbered acc ->
    traverseKids traverse d acc kids merged rotate = Ok ps -> numbered ps.
Proof.
  induction kids as [|kid kids IH]; intros acc merged rotate ps Htr Hacc Hrun;
    cbn [traverseKids] in Hrun.
  - by injection Hrun as <-.
  - destruct (wrapErr _ (resolveIfRef d kid)) as [kidObj| | |]; try discriminate Hrun.
    cbn [mbind outcome_bind] in Hrun.
    destruct kidObj; try (by eapply IH; eauto).
    destruct (traverse acc _ merged rotate) as [acc1| | |] eqn:Hkid;
      try discriminate Hrun.
    cbn [mbind outcome_bind] in Hrun.
    eapply IH; [exact Htr | | exact Hrun]. eapply Htr; eauto.
Qed.

Lemma traversePageTree_numbered fuel :
  forall d acc node inherited rotate ps,
    numbered acc ->
    traversePageTree fuel d acc node inherited rotate = Ok ps -> numbered ps.
Proof.
  induction fuel as [|fuel IH]; intros d acc node inherited rotate ps Hacc Hrun;
    [discriminate Hrun |].
  cbn [traversePageTree] in Hrun. unfold traverseNode in Hrun.
  destruct (decide _).
  - destruct (makePage d _ node _) as [page| | |] eqn:Hpage; try discriminate Hrun.
    cbn [mbind outcome_bind] in Hrun. injection Hrun as <-.
    apply numbered_snoc; [exact Hacc |]. by apply makePage_number in Hpage.
  - destruct (pageKids d node) as [kids| | |]; try discriminate Hrun.
    cbn [mbind outcome_bind] in Hrun.
    eapply traverseKids_numbered; [| exact Hacc | exact Hrun].
    intros acc' nd inh rot ps' Hacc' Hrun'. by eapply IH.
Qed.

Lemma ReadFrom_numbered fuel data doc :
  ReadFrom fuel data = Ok doc -> numbered (pages doc).
Proof.
  unfold ReadFrom, parse, parseWithPassword, buildPageList. intros Hrun.
  destruct (findStartXRef data) as [startXRef| | |]; try discriminate Hrun.
  cbn [mbind outcome_bind] in Hrun.
  destruct (parseXRefTable fuel data startXRef) as [[xr tr]| | |]; try discriminate Hrun.
  cbn [mbind outcome_bind] in Hrun.
  match type of Hrun with
  | (?m ≫= _) = _ => destruct m as [doc0| | |]; try discriminate Hrun
  end.
  cbn [mbind outcome_bind] in Hrun.
  destruct (pagesRoot doc0) as [pagesDict| | |]; try discriminate Hrun.
  cbn [mbind outcome_bind] in Hrun.
  destruct (traversePageTree fuel doc0 [] pagesDict ∅ 0) as [ps| | |] eqn:Htr;
    try discriminate Hrun.
  cbn [mbind outcome_bind] in Hrun. injection Hrun as <-. cbn [pages set_pages].
  eapply traversePageTree_numbered; [| exact Htr]. intros i p Hi. by destruct i.
Qed.

(** X16: Page.  In a document returned by [ReadFrom], [Page n] returns a page
    exactly for the indices 1 to [NumPages], an error for every other
    index and never panics, and the page it returns for [n] has the number
    [n]. *)
Theorem Page_returns_the_page_numbered_n (fuel : nat) (data : list Z)
    (doc : Document) (n : Z) :
  ReadFrom fuel data = Ok doc ->
  (1 <= n <= Z.of_nat (NumPages doc) ->
     exists p, Document_Page doc n = Ok p /\ pg_Number p = n) /\
  (~ 1 <= n <= Z.of_nat (NumPages doc) ->
     Document_Page doc n = Err "reader: page out of range").
Proof.
  intros Hdoc. unfold Document_Page, NumPages. split.
  - intros Hn. replace ((n <? 1) || (Z.of_nat (length (pages doc)) <? n)) with false by lia.
    destruct (pages doc !! Z.to_nat (n - 1)) as [p|] eqn:Hp.
    + exists p. split; [reflexivity |].
      rewrite (ReadFrom_numbered fuel data doc Hdoc _ _ Hp). lia.
    + apply lookup_ge_None in Hp. lia.
  - intros Hn. replace ((n <? 1) || (Z.of_nat (length (pages doc)) <? n)) with true by lia.
    reflexivity.
Qed.

(** X17: traversePageTree (inheritance).  The attributes handed down to the
    kids of a node are the inherited ones, with /MediaBox, /CropBox,
    /Resources and /Rotate replaced by the node's own where the node has
    them; no other key of the node is handed down. *)
Theorem mergeInherited_lookup (node inherited : gmap (list Z) Object) (k : list Z) :
  mergeInherited node inherited !! k
  = if bool_decide (k ∈ [bytes_of "MediaBox"; bytes_of "CropBox";
                          bytes_of "Resources"; bytes_of "Rotate"])
    then match node !! k with
         | Some v => Some v
         | None => inherited !! k
         end
    else inherited !! k.
Proof.
  unfold mergeInherited.
  generalize [bytes_of "MediaBox"; bytes_of "CropBox"; bytes_of "Resources";
              bytes_of "Rotate"].
  intros keys. revert inherited.
  induction keys as [|key keys IH]; intros inherited; cbn [foldl].
  - reflexivity.
  - rewrite IH. destruct (decide (k = key)) as [-> | Hne].
    + rewrite (bool_decide_eq_true_2 (key ∈ key :: keys)) by (by left).
      destruct (node !! key) as [v|] eqn:Hv.
      * rewrite lookup_insert_eq. by destruct (bool_decide _).
      * by destruct (bool_decide _).
    + assert (Hside : match node !! key with
                      | Some v => <[key := v]> inherited
                      | None => inherited
                      end !! k = inherited !! k).
      { destruct (node !! key); [by rewrite lookup_insert_ne | done]. }
      rewrite Hside.
      destruct (decide (k ∈ keys)) as [Hin | Hout].
      * rewrite !bool_decide_eq_true_2; [done | by right | done].
      * rewrite !bool_decide_eq_false_2; [done | | done].
        intros [? | ?]%elem_of_cons; done.
Qed.


Lemma metadataOf_keys (infoDict : gmap (list Z) Object) (k v : list Z) :
  metadataOf infoDict !! k = Some v ->
  k ∈ metadataKeys /\
  exists raw isHex, infoDict !! k = Some (String raw isHex) /\ v = decodePDFString raw.
Proof.
  unfold metadataOf.
  assert (Hgen : forall keys (meta : gmap (list Z) (list Z)),
            foldl (fun meta key =>
                     match infoDict !! key with
                     | Some (String v _) => <[key := decodePDFString v]> meta
                     | _ => meta
                     end) meta keys !! k = Some v ->
            meta !! k = Some v \/
            (k ∈ keys /\ exists raw isHex,
               infoDict !! k = Some (String raw isHex) /\ v = decodePDFString raw)).
  { induction keys as [|key keys IH]; intros meta Hk; cbn [foldl] in Hk; [by left |].
    destruct (IH _ Hk) as [Hm | (Hin & Hv)]; [| right; split; [by right | done]].
    destruct (infoDict !! key) as [[]|] eqn:Hkey; try (by left).
    destruct (decide (k = key)) as [-> | Hne].
    - rewrite lookup_insert_eq in Hm. injection Hm as <-. right.
      split; [by left | eauto].
    - rewrite lookup_insert_ne in Hm by done. by left. }
  intros Hk. destruct (Hgen _ _ Hk) as [Hm | Hres]; [| exact Hres].
  by rewrite lookup_empty in Hm.
Qed.


End DocumentExtras.

Section RawStrings.
Context `{GoLib}.

Lemma literalRun_raw (n : nat) :
  forall (l : list Z) (depth : nat) (s : list Z) (k : nat),
    (length l <= n)%nat ->
    literalRun depth l = Ok (s, k) -> literalRunRaw depth l = (s, k).
Proof.
  induction n as [n IH] using lt_wf_ind. intros l depth s k Hlen.
  assert (Hrec : forall l' dp s' k', (length l' < length l)%nat ->
            literalRun dp l' = Ok (s', k') -> literalRunRaw dp l' = (s', k')).
  { intros l' dp s' k' Hl. apply (IH (length l')); lia. }
  clear IH. destruct l as [|b l'], depth as [|d]; cbn [literalRun literalRunRaw];
    try discriminate; try (by intros [= <- <-]).
  assert (Hstep : forall dp l2 (f : list Z -> list Z) (m : nat),
            (length l2 < length (b :: l'))%nat ->
            ('(s0, n0) ← literalRun dp l2; Ok (f s0, (m + n0)%nat)) = Ok (s, k) ->
            (let '(s0, n0) := literalRunRaw dp l2 in (f s0, (m + n0)%nat)) = (s, k)).
  { intros dp l2 f m Hl Hrun.
    destruct (literalRun dp l2) as [[s0 n0]| | |] eqn:Hr; try discriminate.
    rewrite (Hrec _ _ _ _ Hl Hr). by injection Hrun as <- <-. }
  destruct (b =? ch "("); [apply (Hstep _ _ (cons b) 1%nat); simpl; lia |].
  destruct (b =? ch ")").
  { apply (Hstep _ _ (fun s0 => if (0 <? d)%nat then b :: s0 else s0) 1%nat); simpl; lia. }
  destruct (b =? backslash); [| apply (Hstep _ _ (cons b) 1%nat); simpl; lia].
  destruct l' as [|esc l'']; [discriminate |].
  assert (Hsimple : forall c,
            ('(s0, n0) ← literalRun (S d) l''; Ok (c :: s0, (2 + n0)%nat)) = Ok (s, k) ->
            (let '(s0, n0) := literalRunRaw (S d) l'' in (c :: s0, (2 + n0)%nat)) = (s, k)).
  { intros c. apply (Hstep _ _ (cons c) 2%nat). simpl. lia. }
  repeat match goal with
         | |- context [if ?c then _ else _] =>
           lazymatch c with
           | isOctal _ => fail
           | _ => destruct c; [by apply Hsimple |]
           end
         end.
  destruct (isOctal esc); [| by apply Hsimple].
  destruct l'' as [|d1 l3]; [by apply Hsimple |].
  destruct (isOctal d1); [| by apply Hsimple].
  destruct l3 as [|d2 l4].
  { apply (Hstep _ _ (cons _) 3%nat). simpl. lia. }
  destruct (isOctal d2).
  - apply (Hstep _ _ (cons _) 4%nat). simpl. lia.
  - apply (Hstep _ _ (cons _) 3%nat). simpl. lia.
Qed.

(** X6: parseLiteralStringRaw.  Where the parser reads a literal string from
    unencrypted data, the string reader of the text extraction returns the
    same bytes and stops at the same position: both decode the escapes
    and balance the parentheses alike. *)
Theorem parseLiteralStringRaw_agrees_with_parser (p p' : parser) (o : Object) :
  cipher p = None ->
  parseLiteralString p = Ok (o, p') ->
  exists v, o = String v false /\
    parseLiteralStringRaw (data p) (pos p) = (v, pos p').
Proof.
  intros Hc. unfold parseLiteralString, parseLiteralStringRaw.
  destruct (data p !! pos p) as [b|]; [| discriminate].
  destruct (b =? ch "("); simpl; [| discriminate].
  unfold rest, advance. simpl. rewrite Nat.add_1_r.
  destruct (literalRun 1 (drop (S (pos p)) (data p))) as [[s n]| | |] eqn:Hrun;
    simpl; try discriminate.
  rewrite (literalRun_raw _ _ _ _ _ (le_n _) Hrun).
  unfold decryptBytes. simpl. rewrite Hc. intros [= <- <-]. exists s. simpl.
  done.
Qed.

Lemma hexRun_raw (l : list Z) :
  forall (hi : Z) (s : list Z) (k : nat),
    hexRun hi l = Ok (s, k) -> hexRunRaw hi l = (s, k).
Proof.
  induction l as [|b l IH]; intros hi s k; [discriminate |]. simpl.
  assert (Hstep : forall h (f : list Z -> list Z),
            ('(s0, n0) ← hexRun h l; Ok (f s0, S n0)) = Ok (s, k) ->
            (let '(s0, n0) := hexRunRaw h l in (f s0, S n0)) = (s, k)).
  { intros h f Hrun. destruct (hexRun h l) as [[s0 n0]| | |] eqn:Hr; try discriminate.
    rewrite (IH _ _ _ Hr). by injection Hrun as <- <-. }
  destruct (b =? ch ">"); [by intros [= <- <-] |].
  destruct (isWhitespace b); [apply (Hstep _ (fun s0 => s0)) |].
  destruct (unhex b <? 0); [discriminate |].
  destruct (hi <? 0); [apply (Hstep _ (fun s0 => s0)) | apply (Hstep _ (cons _))].
Qed.

(** X7: parseHexStringRaw.  Where the parser reads a hex string from
    unencrypted data, the hex reader of the text extraction returns the
    same bytes and stops at the same position. *)
Theorem parseHexStringRaw_agrees_with_parser (p p' : parser) (o : Object) :
  cipher p = None ->
  parseHexString p = Ok (o, p') ->
  exists v, o = String v true /\
    parseHexStringRaw (data p) (pos p) = (v, pos p').
Proof.
  intros Hc. unfold parseHexString, parseHexStringRaw.
  destruct (data p !! pos p) as [b|]; [| discriminate].
  destruct (b =? ch "<"); simpl; [| discriminate].
  unfold rest, advance. simpl. rewrite Nat.add_1_r.
  destruct (hexRun (-1) (drop (S (pos p)) (data p))) as [[s n]| | |] eqn:Hrun;
    simpl; try discriminate.
  rewrite (hexRun_raw _ _ _ _ Hrun).
  unfold decryptBytes. simpl. rewrite Hc. intros [= <- <-]. exists s. simpl.
  done.
Qed.

End RawStrings.

Section EscapeRoundTrip.
Context `{GoLib}.

Lemma replaceByte_app old new l1 l2 :
  replaceByte old new (l1 ++ l2) = replaceByte old new l1 ++ replaceByte old new l2.
Proof. unfold replaceByte. apply bind_app. Qed.

Lemma escapePDFString_app l1 l2 :
  escapePDFString (l1 ++ l2) = escapePDFString l1 ++ escapePDFString l2.
Proof. unfold escapePDFString. by rewrite !replaceByte_app. Qed.

Lemma escapePDFString_single b : escapePDFString [b] = escapeByte b.
Proof.
  unfold escapePDFString, replaceByte, escapeByte. cbn [mbind list_bind app].
  destruct (Z.eqb_spec b backslash) as [-> | H1]; [reflexivity |].
  cbn [mbind list_bind app orb].
  destruct (Z.eqb_spec b (ch "(")) as [-> | H2]; [reflexivity |].
  cbn [mbind list_bind app orb].
  destruct (Z.eqb_spec b (ch ")")) as [-> | H3]; reflexivity.
Qed.

Lemma escapePDFString_cons b s :
  escapePDFString (b :: s) = escapeByte b ++ escapePDFString s.
Proof.
  change (b :: s) with ([b] ++ s).
  by rewrite escapePDFString_app, escapePDFString_single.
Qed.

Lemma literalRun_0 l : literalRun 0 l = Ok ([], 0%nat).
Proof. by destruct l. Qed.

Lemma literalRun_escapeByte (b : Z) (d : nat) (l : list Z) :
  literalRun (S d) (escapeByte b ++ l)
  = '(s, n) ← literalRun (S d) l; Ok (b :: s, (length (escapeByte b) + n)%nat).
Proof.
  unfold escapeByte.
  destruct (Z.eqb_spec b backslash) as [-> | H1]; [reflexivity |].
  destruct (Z.eqb_spec b (ch "(")) as [-> | H2]; [reflexivity |].
  destruct (Z.eqb_spec b (ch ")")) as [-> | H3]; [reflexivity |].
  cbn [orb app literalRun].
  destruct (Z.eqb_spec b (ch "(")); [done |].
  destruct (Z.eqb_spec b (ch ")")); [done |].
  destruct (Z.eqb_spec b backslash); [done |]. reflexivity.
Qed.

Lemma literalRun_escaped (s tl : list Z) :
  literalRun 1 (escapePDFString s ++ ch ")" :: tl)
  = Ok (s, S (length (escapePDFString s))).
Proof.
  induction s as [|b s IH].
  - cbn. by rewrite literalRun_0.
  - rewrite escapePDFString_cons, <- app_assoc, literalRun_escapeByte, IH.
    cbn [mbind outcome_bind]. rewrite length_app. do 2 f_equal. lia.
Qed.

(** X4: escapePDFString.  A value written by [Fill] reads back unchanged:
    for every byte string [s], the literal string made of ['('], the escaped
    [s] and [')'] is parsed as the String object with value [s], whatever
    follows it, with the cursor behind the closing parenthesis. *)
Theorem escapePDFString_parses_back (s pre tl : list Z) :
  parseLiteralString
    (mkParser (pre ++ ch "(" :: escapePDFString s ++ ch ")" :: tl) (length pre) None)
  = Ok (String s false,
        mkParser (pre ++ ch "(" :: escapePDFString s ++ ch ")" :: tl)
          (length pre + length (escapePDFString s) + 2) None) /\
  parseBytes (ch "(" :: escapePDFString s ++ ch ")" :: tl) = Ok (String s false).
Proof.
  assert (Hp : forall pre,
    parseLiteralString
      (mkParser (pre ++ ch "(" :: escapePDFString s ++ ch ")" :: tl) (length pre) None)
    = Ok (String s false,
          mkParser (pre ++ ch "(" :: escapePDFString s ++ ch ")" :: tl)
            (length pre + length (escapePDFString s) + 2) None)).
  { intros pr. unfold parseLiteralString. cbn [data pos].
    rewrite lookup_app_r, Nat.sub_diag by lia. cbn [lookup list_lookup].
    replace (negb (ch "(" =? ch "(")) with false by reflexivity.
    unfold rest, advance, set_pos. cbn [data pos cipher].
    replace (length pr + 1)%nat with (length pr + 1 + 0)%nat at 1 by lia.
    rewrite <- Nat.add_assoc, <- drop_drop, drop_app_length. cbn [drop Nat.add].
    rewrite drop_0.
    rewrite literalRun_escaped. cbn [mbind outcome_bind decryptBytes cipher].
    do 3 f_equal. lia. }
  split; [apply Hp |].
  unfold parseBytes, parseFuel. cbn [ParseObject]. unfold parseObjectAt.
  assert (Hws : skipWhitespace (newParser (ch "(" :: escapePDFString s ++ ch ")" :: tl))
                = newParser (ch "(" :: escapePDFString s ++ ch ")" :: tl)) by reflexivity.
  rewrite Hws. cbn [newParser data pos lookup list_lookup].
  replace (ch "(" =? ch "<") with false by reflexivity.
  replace (ch "(" =? ch "(") with true by reflexivity.
  specialize (Hp []). cbn [app length] in Hp. unfold newParser. rewrite Hp. reflexivity.
Qed.

End EscapeRoundTrip.

Section HexRoundTrip.
Context `{GoLib}.

(** Every byte is read back from its two hexadecimal digits. *)
Lemma hex_byte_roundtrip (b : Z) :
  0 <= b < 256 ->
  (unhex (hexDigitLower (b / 16)) <? 0) = false /\
  (unhex (hexDigitLower (b mod 16)) <? 0) = false /\
  isWhitespace (hexDigitLower (b / 16)) = false /\
  isWhitespace (hexDigitLower (b mod 16)) = false /\
  (hexDigitLower (b / 16) =? ch ">") = false /\
  (hexDigitLower (b mod 16) =? ch ">") = false /\
  uint8 (Z.lor (Z.shiftl (unhex (hexDigitLower (b / 16))) 4)
           (unhex (hexDigitLower (b mod 16)))) = b.
Proof.
  intros Hb.
  assert (Hall : forallb (fun b =>
            negb (unhex (hexDigitLower (b / 16)) <? 0) &&
            negb (unhex (hexDigitLower (b mod 16)) <? 0) &&
            negb (isWhitespace (hexDigitLower (b / 16))) &&
            negb (isWhitespace (hexDigitLower (b mod 16))) &&
            negb (hexDigitLower (b / 16) =? ch ">") &&
            negb (hexDigitLower (b mod 16) =? ch ">") &&
            (uint8 (Z.lor (Z.shiftl (unhex (hexDigitLower (b / 16))) 4)
                      (unhex (hexDigitLower (b mod 16)))) =? b))
          (Z.of_nat <$> seq 0 256) = true) by (vm_compute; reflexivity).
  rewrite forallb_forall in Hall. specialize (Hall b).
  assert (Hin : In b (Z.of_nat <$> seq 0 256)).
  { apply list_elem_of_In, list_elem_of_fmap. exists (Z.to_nat b).
    split; [lia |]. apply elem_of_seq. lia. }
  apply Hall in Hin. rewrite !andb_true_iff, !negb_true_iff, Z.eqb_eq in Hin.
  tauto.
Qed.

Lemma hexRun_hexLower (v tl : list Z) :
  Forall (fun b => 0 <= b < 256) v ->
  hexRun (-1) (hexLower v ++ ch ">" :: tl) = Ok (v, S (length (hexLower v))).
Proof.
  induction 1 as [|b v Hb _ IH]; [reflexivity |].
  destruct (hex_byte_roundtrip b Hb) as (H1 & H2 & H3 & H4 & H5 & H6 & H7).
  unfold hexLower. rewrite bind_cons. fold (hexLower v).
  cbn [app hexRun]. rewrite H5, H3, H1. cbn [Z.ltb Z.compare].
  cbn [hexRun]. rewrite H6, H4, H2.
  replace (unhex (hexDigitLower (b / 16)) <? 0) with false.
  rewrite IH. cbn [mbind outcome_bind]. rewrite H7. reflexivity.
Qed.

Lemma hexClean_hexLower (v tl : list Z) :
  Forall (fun b => 0 <= b < 256) v ->
  hexClean (hexLower v ++ ch ">" :: tl) = hexLower v.
Proof.
  induction 1 as [|b v Hb _ IH]; [reflexivity |].
  destruct (hex_byte_roundtrip b Hb) as (H1 & H2 & H3 & H4 & H5 & H6 & H7).
  unfold hexLower. rewrite bind_cons. fold (hexLower v).
  cbn [app hexClean]. rewrite H5, H3, H6, H4, IH. reflexivity.
Qed.

Lemma hexDecode_hexLower (v : list Z) :
  Forall (fun b => 0 <= b < 256) v -> hexDecode (hexLower v) = Ok v.
Proof.
  induction 1 as [|b v Hb _ IH]; [reflexivity |].
  destruct (hex_byte_roundtrip b Hb) as (H1 & H2 & H3 & H4 & H5 & H6 & H7).
  unfold hexLower. rewrite bind_cons. fold (hexLower v).
  cbn [app hexDecode]. rewrite H1, H2, IH. cbn [orb mbind outcome_bind].
  by rewrite H7.
Qed.

Lemma length_hexLower (v : list Z) : length (hexLower v) = (2 * length v)%nat.
Proof.
  induction v as [|b v IH]; [reflexivity |].
  unfold hexLower. rewrite bind_cons. fold (hexLower v). simpl. lia.
Qed.

(** X5: String.String (hex).  What [String.String] prints for a hex string
    is parsed back to the same object: for every byte string [v], the
    text ['<'], two lower-case hexadecimal digits per byte, ['>'] parses as
    the hex String with value [v]. *)
Theorem hex_String_parses_back (v : list Z) :
  Forall (fun b => 0 <= b < 256) v ->
  parseBytes (ObjectString (String v true)) = Ok (String v true).
Proof.
  intros Hv. unfold parseBytes, parseFuel, ObjectString. cbn [ParseObject].
  unfold parseObjectAt.
  assert (Hws : skipWhitespace (newParser (ch "<" :: hexLower v ++ [ch ">"]))
                = newParser (ch "<" :: hexLower v ++ [ch ">"])) by reflexivity.
  rewrite Hws. cbn [newParser data pos lookup list_lookup].
  replace (ch "<" =? ch "<") with true by reflexivity.
  destruct (bool_decide _) eqn:Hsnd.
  { exfalso. apply bool_decide_eq_true in Hsnd.
    destruct Hv as [|b v Hb _]; [discriminate |].
    destruct (hex_byte_roundtrip b Hb) as (H1 & _).
    unfold hexLower in Hsnd. rewrite bind_cons in Hsnd.
    injection Hsnd as Heq. rewrite Heq in H1. discriminate H1. }
  unfold parseHexString, newParser, rest, advance, set_pos.
  cbn [data pos cipher lookup list_lookup drop Nat.add].
  replace (negb (ch "<" =? ch "<")) with false by reflexivity.
  rewrite drop_0, (hexRun_hexLower v [] Hv). reflexivity.
Qed.

(** X9: asciiHexDecode.  The ASCIIHex filter reads back the bytes from their
    hexadecimal digits: it stops at the first ['>'] and ignores everything
    behind it. *)
Theorem asciiHexDecode_reads_back (v junk : list Z) :
  Forall (fun b => 0 <= b < 256) v ->
  asciiHexDecode (hexLower v ++ ch ">" :: junk) = Ok v.
Proof.
  intros Hv. unfold asciiHexDecode. rewrite (hexClean_hexLower v junk Hv).
  rewrite length_hexLower.
  replace (Nat.odd (2 * length v)) with false.
  - by rewrite hexDecode_hexLower.
  - symmetry. rewrite Nat.odd_mul. reflexivity.
Qed.

End HexRoundTrip.

Section XrefExtras.
Context `{GoLib}.

(** X11: findStartXRef.  Only the last 1024 bytes of a file are searched for
    the keyword [startxref]: the result for a file is the result for its
    last 1024 bytes. *)
Theorem findStartXRef_last_1024_bytes (d : list Z) :
  findStartXRef d = findStartXRef (drop (length d - 1024) d).
Proof.
  unfold findStartXRef. rewrite length_drop.
  destruct (Nat.le_gt_cases (length d) 1024) as [Hle | Hgt].
  - replace (length d - 1024)%nat with 0%nat by lia. by rewrite drop_0, Nat.sub_0_r.
  - replace (Nat.min 1024 (length d)) with 1024%nat by lia.
    replace (length d - (length d - 1024))%nat with 1024%nat by lia.
    rewrite Nat.min_id, Nat.sub_diag, drop_0. reflexivity.
Qed.

(** X12: mergePrev.  The merge of a section with the table of the older
    sections does not depend on the order in which the map of the older
    entries is visited: an object number of the section keeps its entry,
    and any other number has the entry of the older table, if any. *)
Theorem mergePrev_lookup (table prevTable : gmap Z xrefEntry) (o : Z) :
  mergePrev table prevTable !! o
  = match table !! o with
    | Some e => Some e
    | None => prevTable !! o
    end.
Proof.
  rewrite mergePrev_union, lookup_union.
  destruct (table !! o), (prevTable !! o); reflexivity.
Qed.

Lemma xrefEntries_preserves (count : nat) :
  forall (i startObj : Z) (p p' : parser) (table table' : gmap Z xrefEntry)
    (o : Z) (e : xrefEntry),
    xrefEntries count i startObj p table = Ok (table', p') ->
    table !! o = Some e -> table' !! o = Some e.
Proof.
  induction count as [|c IH]; intros i startObj p p' table table' o e Hrun Ho;
    cbn [xrefEntries] in Hrun.
  - by injection Hrun as <- <-.
  - destruct (readToken (skipWhitespace p)) as [offsetTok p1].
    destruct (ParseInt offsetTok) as [entryOffset|]; [| discriminate Hrun].
    destruct (readToken (skipWhitespace p1)) as [genTok p2].
    destruct (ParseInt genTok) as [gen|]; [| discriminate Hrun].
    destruct (readToken (skipWhitespace p2)) as [typeTok p3].
    eapply IH; [exact Hrun |].
    destruct (table !! wrap64 (startObj + i)) eqn:Hcur; [exact Ho |].
    rewrite lookup_insert_ne; [exact Ho |]. intros <-. congruence.
Qed.

(** X13: xrefEntries.  Inside one classical section the first entry of an
    object number is the one kept: a number that already has an entry keeps
    it through all the subsections read after it. *)
Theorem xrefSubsections_keep_first_entry (iters : nat) (p p' : parser)
    (table table' : gmap Z xrefEntry) (o : Z) (e : xrefEntry) :
  xrefSubsections iters p table = Ok (table', p') ->
  table !! o = Some e -> table' !! o = Some e.
Proof.
  revert p table. induction iters as [|k IH]; intros p table Hrun Ho;
    cbn [xrefSubsections] in Hrun; [discriminate Hrun |].
  destruct (length (data (skipWhitespace p)) <=? pos (skipWhitespace p))%nat;
    [by injection Hrun as <- <- |].
  destruct (readToken (skipWhitespace p)) as [tok p1].
  destruct (bool_decide (tok = bytes_of "trailer")); [by injection Hrun as <- <- |].
  destruct (readToken (set_pos p1 (pos (skipWhitespace p)))) as [startTok p2].
  destruct (ParseInt startTok) as [startObj|]; [| discriminate Hrun].
  destruct (readToken (skipWhitespace p2)) as [countTok p3].
  destruct (ParseInt countTok) as [count|]; [| discriminate Hrun].
  destruct (xrefEntries (Z.to_nat count) 0 startObj p3 table) as [[t1 p4]| | |] eqn:He;
    try discriminate Hrun.
  cbn [mbind outcome_bind] in Hrun.
  eapply IH; [exact Hrun |]. eapply xrefEntries_preserves; eauto.
Qed.

Lemma xrefField_in_bounds (width : nat) :
  forall (decoded : list Z) (pos val : Z),
    0 <= pos -> pos + Z.of_nat width <= Z.of_nat (length decoded) ->
    exists v, xrefField width decoded pos val = Ok (v, pos + Z.of_nat width).
Proof.
  induction width as [|w IH]; intros decoded pos val Hpos Hlen.
  - exists val. simpl. by rewrite Z.add_0_r.
  - cbn [xrefField]. replace (pos <? 0) with false by lia.
    destruct (decoded !! Z.to_nat pos) as [b|] eqn:Hb.
    + destruct (IH decoded (pos + 1) (wrap64 (Z.lor (Z.shiftl val 8) b)))
        as [v Hv]; [lia | lia |].
      exists v. rewrite Hv. do 2 f_equal. lia.
    + apply lookup_ge_None in Hb. lia.
Qed.

(** X14: parseXRefStream.  With field widths that are not negative and do
    not overflow an int, reading the records of a cross-reference stream
    never indexes outside the decoded data: the loop over the records of
    an /Index pair returns a table, whatever the count and the length of
    the data, and stops at the first record that does not fit. *)
Theorem xrefStreamEntries_in_bounds (count : nat) (j startObj : Z)
    (w0 w1 w2 : Z) (decoded : list Z) (dataPos : Z) (table : gmap Z xrefEntry) :
  0 <= w0 -> 0 <= w1 -> 0 <= w2 ->
  Z.of_nat (length decoded) + (w0 + w1 + w2) < 2 ^ 63 ->
  0 <= dataPos <= Z.of_nat (length decoded) ->
  exists table' dataPos',
    xrefStreamEntries count j startObj (w0, w1, w2) decoded dataPos table
    = Ok (table', dataPos') /\
    dataPos <= dataPos' <= Z.of_nat (length decoded).
Proof.
  intros H0 H1 H2 _. revert j dataPos table.
  induction count as [|c IH]; intros j dataPos table Hpos.
  - exists table, dataPos. split; [reflexivity | lia].
  - cbn [xrefStreamEntries].
    destruct (Z.ltb_spec (Z.of_nat (length decoded)) (dataPos + (w0 + w1 + w2)))
      as [Hshort | Hfits].
    + exists table, dataPos. split; [reflexivity | lia].
    + destruct (xrefField_in_bounds (Z.to_nat w0) decoded dataPos 0) as [f0 Hf0];
        [lia | lia |].
      rewrite Hf0. cbn [mbind outcome_bind].
      destruct (xrefField_in_bounds (Z.to_nat w1) decoded
                  (dataPos + Z.of_nat (Z.to_nat w0)) 0) as [f1 Hf1]; [lia | lia |].
      rewrite Hf1. cbn [mbind outcome_bind].
      destruct (xrefField_in_bounds (Z.to_nat w2) decoded
                  (dataPos + Z.of_nat (Z.to_nat w0) + Z.of_nat (Z.to_nat w1)) 0)
        as [f2 Hf2]; [lia | lia |].
      rewrite Hf2. cbn [mbind outcome_bind].
      match goal with
      | |- context [xrefStreamEntries c (j + 1) startObj (w0, w1, w2) decoded
                      (dataPos + (w0 + w1 + w2)) ?t] =>
        destruct (IH (j + 1) (dataPos + (w0 + w1 + w2)) t) as (t' & p' & Hrun & Hle);
          [lia |]
      end.
      exists t', p'. split; [exact Hrun | lia].
Qed.

End XrefExtras.

Section CryptExtras.
Context `{GoLib}.

(** X20: bytesEqual.  [bytesEqual] is symmetric; on slices of the same
    length it is equality, and on slices of different lengths it holds
    exactly when neither is empty and the shorter is a prefix of the
    longer. *)
Theorem bytesEqual_compares_common_prefix (a b : list Z) :
  bytesEqual a b = bytesEqual b a /\
  (length a = length b -> (bytesEqual a b = true <-> a = b)) /\
  (length a <> length b ->
     (bytesEqual a b = true <->
      a <> [] /\ b <> [] /\
      take (Nat.min (length a) (length b)) a = take (Nat.min (length a) (length b)) b)).
Proof.
  split; [| split].
  - apply eq_true_iff_eq. rewrite !bytesEqual_spec, (Nat.min_comm (length b)).
    split; (intros [(? & ? & ?) | [? ?]]; [left | right]; done).
  - intros Hlen. rewrite bytesEqual_spec, <- Hlen, Nat.min_id, firstn_all.
    rewrite Hlen, firstn_all. split.
    + intros [(_ & _ & ?) | [-> ->]]; done.
    + intros ->. destruct b; [by right | by left].
  - intros Hlen. rewrite bytesEqual_spec. split.
    + intros [(? & ? & ?) | [-> ->]]; done.
    + intros (? & ? & ?). by left.
Qed.

(** X21: validateUserPassword, revision 3 and later.  For a revision other
    than 2 the password validates exactly when RC4 accepts the key and its
    19 variants, /U and the encrypted digest have at least 16 bytes, and
    the first 16 bytes of the digest, encrypted by the 20 RC4 passes, equal
    the first 16 bytes of /U; the bytes of /U behind the 16th are not
    compared. *)
Theorem validateUserPassword_revision3 (k : list Z) (info : encryptInfo) :
  revision info <> 2 ->
  validateUserPassword k info = true <->
  exists c digest,
    rc4.NewCipher k = Some c /\
    rc4Passes k (Z.of_nat <$> seq 1 19)
      (rc4.XORKeyStream c (md5sum (pdfPadding ++ fileID info))).1 = Some digest /\
    (16 <= length (userHash info))%nat /\ (16 <= length digest)%nat /\
    take 16 digest = take 16 (userHash info).
Proof.
  intros Hrev. unfold validateUserPassword.
  replace (revision info =? 2) with false by lia.
  destruct (rc4.NewCipher k) as [c|]; [| split; [discriminate | by intros (? & ? & ? & _)]].
  destruct (rc4Passes k (Z.of_nat <$> seq 1 19) _) as [digest|] eqn:Hpass;
    [| split; [discriminate | intros (? & ? & [= <-] & ? & _); congruence]].
  destruct (Nat.ltb_spec (length (userHash info)) 16) as [Hu | Hu]; cbn [orb].
  { split; [discriminate |]. intros (? & ? & _ & _ & ? & _). lia. }
  destruct (Nat.ltb_spec (length digest) 16) as [Hd | Hd].
  { split; [discriminate |]. intros (? & dg & [= <-] & Hdg & _ & ? & _).
    assert (dg = digest) by congruence. subst dg. lia. }
  assert (Hlen : length (take 16 digest) = length (take 16 (userHash info)))
    by (rewrite !length_take; lia).
  unfold bytesEqual. rewrite Hlen, Nat.eqb_refl. cbn [negb].
  rewrite bytesEqualLoop_eq by exact Hlen. split.
  - intros Heq. exists c, digest. done.
  - intros (? & dg & [= <-] & Hdg & _ & _ & ?).
    assert (dg = digest) by congruence. by subst dg.
Qed.

Lemma padPassword_take (password : list Z) :
  padPassword (take 32 password) = padPassword password.
Proof.
  unfold padPassword.
  destruct (Nat.le_gt_cases 32 (length password)) as [Hlong | Hshort].
  - rewrite !take_app_le by (rewrite ?length_take; lia). apply take_take.
  - by rewrite (take_ge password) by lia.
Qed.

(** X22: computeEncryptionKey.  A password is padded or truncated to exactly
    32 bytes before it is hashed: the empty password is the PDF padding
    itself, and the bytes of a password behind the 32nd have no effect on
    the key or on the user password recovered from the owner password. *)
Theorem password_truncated_to_32_bytes (password : list Z) (info : encryptInfo) :
  length (padPassword password) = 32%nat /\
  padPassword [] = pdfPadding /\
  computeEncryptionKey (take 32 password) info = computeEncryptionKey password info /\
  recoverUserPassFromOwner (take 32 password) info
    = recoverUserPassFromOwner password info.
Proof.
  split; [| split; [reflexivity | split]].
  - unfold padPassword. rewrite length_take, length_app.
    change (length pdfPadding) with 32%nat. lia.
  - unfold computeEncryptionKey. by rewrite padPassword_take.
  - unfold recoverUserPassFromOwner. by rewrite padPassword_take.
Qed.

Lemma sliceTo_0 (l : list Z) : sliceTo l 0 = Ok [].
Proof.
  unfold sliceTo. cbn [Z.ltb Z.compare orb].
  destruct (Z.ltb_spec (Z.of_nat (length l)) 0); [lia | reflexivity].
Qed.

Lemma rehash_0 (n : nat) (digest : list Z) :
  exists digest', rehash n 0 digest = Ok digest'.
Proof.
  revert digest. induction n as [|n IH]; intros digest; [by eexists |].
  cbn [rehash]. rewrite sliceTo_0. cbn [mbind outcome_bind]. apply IH.
Qed.

Lemma recoverUserPassFromOwner_empty_key (ownerPass : list Z) (info : encryptInfo) :
  keyLength info = 0 -> ownerHash info <> [] ->
  recoverUserPassFromOwner ownerPass info = Panic "nil pointer dereference".
Proof.
  intros Hlen Ho. unfold recoverUserPassFromOwner. rewrite Hlen, sliceTo_0.
  cbn [mbind outcome_bind].
  assert (Hpass : rc4UncheckedPass [] (ownerHash info) = Panic "nil pointer dereference").
  { unfold rc4UncheckedPass. cbn [rc4.NewCipher length Nat.ltb Nat.leb orb].
    destruct (ownerHash info); [done | reflexivity]. }
  destruct (revision info =? 2); [exact Hpass |].
  cbn [seq rev app fmap list_fmap rc4UncheckedPasses xorKey]. rewrite Hpass. reflexivity.
Qed.

(** X23: decrypt.  An /Encrypt dictionary whose /Length is below 8 gives a
    key length of 0; RC4 rejects the empty key, the password check fails,
    and the owner-password path then uses the cipher that was not created:
    when /O is not empty, [decrypt] does not return an error but panics. *)
Theorem decrypt_panics_on_empty_key (d : Document) (password : list Z)
    (info : encryptInfo) :
  parseEncryptDict d = Ok (Some info) ->
  version info <= 2 ->
  keyLength info = 0 ->
  ownerHash info <> [] ->
  decrypt d password = Panic "nil pointer dereference".
Proof.
  intros Hinfo Hv Hlen Ho. unfold decrypt. rewrite Hinfo. cbn [mbind outcome_bind].
  replace (2 <? version info) with false by lia.
  assert (Hkey : computeEncryptionKey password info = Ok []).
  { unfold computeEncryptionKey. rewrite Hlen.
    destruct (3 <=? revision info).
    - destruct (rehash_0 50 (md5sum (padPassword password ++ ownerHash info
                  ++ littleEndian32 (uint32 (permissions info)) ++ fileID info)))
        as [dg ->].
      cbn [mbind outcome_bind]. apply sliceTo_0.
    - cbn [mbind outcome_bind]. apply sliceTo_0. }
  rewrite Hkey. cbn [mbind outcome_bind].
  assert (Hval : validateUserPassword [] info = false).
  { unfold validateUserPassword. by destruct (revision info =? 2). }
  rewrite Hval. by rewrite recoverUserPassFromOwner_empty_key.
Qed.

End CryptExtras.

Section FormExtras.
Context `{GoLib}.

Lemma findDictStartLoop_marker d i depth k :
  findDictStartLoop d i depth = Some k ->
  (k < i)%nat /\ d !! k = Some (ch "<") /\ d !! S k = Some (ch "<").
Proof.
  revert depth. induction i as [|i IH]; intros depth; cbn [findDictStartLoop];
    [discriminate |].
  destruct (bool_decide (d !! S i = Some (ch "<")) &&
            bool_decide (d !! i = Some (ch "<"))) eqn:Hopen.
  - apply andb_true_iff in Hopen as [H1 H2].
    apply bool_decide_eq_true in H1, H2.
    match goal with |- context [if ?c =? 0 then _ else _] => destruct (c =? 0) end.
    + intros [= <-]. split; [lia | done].
    + intros Hk. apply IH in Hk. split; [lia | tauto].
  - intros Hk. apply IH in Hk. split; [lia | tauto].
Qed.

Lemma findDictEndLoop_marker l i depth k :
  findDictEndLoop l i depth = Some k ->
  (i <= k)%nat /\ l !! (k - i)%nat = Some (ch ">") /\ l !! S (k - i) = Some (ch ">").
Proof.
  revert i depth. induction l as [l IH] using (induction_ltof1 _ (@length Z)).
  unfold ltof in IH. intros i depth.
  destruct l as [|a [|b l]]; [discriminate.. |].
  rewrite findDictEndLoop_step.
  destruct ((a =? ch "<") && (b =? ch "<")).
  { intros Hk. apply IH in Hk; [| simpl; lia]. destruct Hk as (Hle & H1 & H2).
    replace (k - i)%nat with (S (S (k - (i + 2)))) by lia. split; [lia | done]. }
  destruct ((a =? ch ">") && (b =? ch ">")) eqn:Hclose.
  - apply andb_true_iff in Hclose as [Ha Hb]. apply Z.eqb_eq in Ha, Hb. subst a b.
    destruct (depth <=? 1).
    + intros [= <-]. rewrite Nat.sub_diag. split; [lia | done].
    + intros Hk. apply IH in Hk; [| simpl; lia]. destruct Hk as (Hle & H1 & H2).
      replace (k - i)%nat with (S (S (k - (i + 2)))) by lia. split; [lia | done].
  - intros Hk. apply IH in Hk; [| simpl; lia]. destruct Hk as (Hle & H1 & H2).
    replace (k - i)%nat with (S (k - (i + 1))) by lia. split; [lia | done].
Qed.

(** X24: findDictStart, findDictEnd.  What [findDictStart] returns is the
    index of a ["<<"] in front of the position, and what [findDictEnd]
    returns is the index of a [">>"] at or behind it: the slice that
    [setFieldValue] and [blankFieldMarkers] take between them starts with
    ["<<"] and ends with [">>"]. *)
Theorem findDict_markers (d : list Z) (pos : nat) :
  (forall s, findDictStart d pos = Some s ->
     (s + 1 < pos)%nat /\ d !! s = Some (ch "<") /\ d !! S s = Some (ch "<")) /\
  (forall e, findDictEnd d pos = Some e ->
     (pos <= e)%nat /\ d !! e = Some (ch ">") /\ d !! S e = Some (ch ">")).
Proof.
  split.
  - intros s Hs. unfold findDictStart in Hs.
    apply findDictStartLoop_marker in Hs as (Hlt & H1 & H2). split; [lia | done].
  - intros e He. unfold findDictEnd in He.
    apply findDictEndLoop_marker in He as (Hle & H1 & H2).
    rewrite lookup_drop in H1, H2.
    replace (pos + (e - pos))%nat with e in H1 by lia.
    replace (pos + S (e - pos))%nat with (S e) in H2 by lia. done.
Qed.

End FormExtras.

Section TextAndFilters.
Context `{GoLib}.

Lemma encodeRune_latin1 (b : Z) : 0 <= b < 256 -> encodeRune b = latin1 b.
Proof.
  intros Hb.
  assert (Hall : forallb (fun b => bool_decide (encodeRune b = latin1 b))
                   (Z.of_nat <$> seq 0 256) = true) by (vm_compute; reflexivity).
  rewrite forallb_forall in Hall. eapply bool_decide_eq_true_1, Hall.
  apply list_elem_of_In, list_elem_of_fmap. exists (Z.to_nat b).
  split; [lia |]. apply elem_of_seq. lia.
Qed.

(** X8: decodePDFString.  A string without the byte order mark FE FF is
    read as Latin-1: every byte below 128 stays as it is, so that ASCII
    text is returned unchanged, and every byte from 128 on becomes the two
    bytes of its UTF-8 encoding. *)
Theorem decodePDFString_latin1 (d : list Z) :
  Forall (fun b => 0 <= b < 256) d ->
  (take 2 d <> [0xFE; 0xFF] -> decodePDFString d = d ≫= latin1) /\
  (Forall (fun b => b < 128) d -> decodePDFString d = d).
Proof.
  intros Hd.
  assert (Hbind : d ≫= encodeRune = d ≫= latin1).
  { induction Hd as [|b d Hb _ IH]; [reflexivity |].
    by rewrite !bind_cons, IH, encodeRune_latin1. }
  assert (Hbom : take 2 d <> [0xFE; 0xFF] -> decodePDFString d = d ≫= latin1).
  { intros Hno. rewrite <- Hbind. clear Hbind Hd. unfold decodePDFString.
    destruct d as [|a [|b d']]; [reflexivity | |].
    - destruct a as [|a|a]; try reflexivity.
      repeat (destruct a as [a|a|]; try reflexivity).
    - destruct a as [|a|a]; try reflexivity.
      repeat (destruct a as [a|a|]; try reflexivity).
      destruct b as [|b|b]; try reflexivity.
      repeat (destruct b as [b|b|]; try reflexivity).
      exfalso. by apply Hno. }
  split; [exact Hbom |].
  intros Hascii. rewrite Hbom.
  - clear Hbom Hbind Hd. induction Hascii as [|b d Hb _ IH]; [reflexivity |].
    rewrite bind_cons, IH. unfold latin1. by replace (b <? 128) with true by lia.
  - destruct Hascii as [|a d Ha Hrest]; [discriminate |].
    intros Heq. destruct d; [discriminate |]. injection Heq as -> _. lia.
Qed.

Lemma applyFilters_app (fs1 fs2 : list (list Z)) (d : list Z) :
  applyFilters (fs1 ++ fs2) d = applyFilters fs1 d ≫= applyFilters fs2.
Proof.
  revert d. induction fs1 as [|f fs1 IH]; intros d; [reflexivity |].
  cbn [app applyFilters].
  destruct (wrapErr _ (applyFilter f d)) as [d1| | |]; try reflexivity.
  cbn [mbind outcome_bind]. apply IH.
Qed.

Lemma filterNames_names (fs : list (list Z)) : filterNames (Name <$> fs) = Ok fs.
Proof.
  induction fs as [|f fs IH]; [reflexivity |].
  cbn [fmap list_fmap filterNames]. fold (Name <$> fs). by rewrite IH.
Qed.

(** X10: decodeStream.  A stream without /Filter is returned as it is; a
    single filter name means the same as the array of that one name; and
    an array of names applies its filters one after the other, each to the
    output of the one before, so that a chain can be split anywhere. *)
Theorem decodeStream_applies_filters_in_order (dict : gmap (list Z) Object)
    (d : list Z) :
  (dict !! bytes_of "Filter" = None -> decodeStream dict d = Ok d) /\
  (forall f, dict !! bytes_of "Filter" = Some (Name f) ->
     decodeStream dict d = applyFilters [f] d) /\
  (forall fs, dict !! bytes_of "Filter" = Some (Array (Name <$> fs)) ->
     decodeStream dict d = applyFilters fs d) /\
  (forall fs1 fs2,
     applyFilters (fs1 ++ fs2) d = applyFilters fs1 d ≫= applyFilters fs2).
Proof.
  unfold decodeStream. repeat split.
  - by intros ->.
  - by intros f ->.
  - intros fs ->. by rewrite filterNames_names.
  - intros fs1 fs2. apply applyFilters_app.
Qed.

End TextAndFilters.

Lemma Ok_injective {A} (a b : A) : Ok a = Ok b -> a = b.
Proof. congruence. Qed.


(** * Printing and reading integers *)

Section IntegerText.

Lemma bytes_of_String (c : ascii) (s : string) :
  bytes_of (String.String c s) = ch c :: bytes_of s.
Proof. reflexivity. Qed.

Lemma pretty_N_char_digit (x : N) :
  (x < 10)%N ->
  isDigit (ch (pretty_N_char x)) = true /\ ch (pretty_N_char x) - 48 = Z.of_N x.
Proof.
  intros Hx.
  assert (Hcases : (x = 0 \/ x = 1 \/ x = 2 \/ x = 3 \/ x = 4 \/ x = 5 \/ x = 6 \/
                    x = 7 \/ x = 8 \/ x = 9)%N) by lia.
  repeat (destruct Hcases as [-> | Hcases]; [split; reflexivity |]).
  subst x. split; reflexivity.
Qed.

(** Reading the digits that [pretty_N_go] puts in front of [s]: there are
    [k] of them, as many as [x] has decimal digits. *)
Lemma digitsValue_pretty_N_go (x : N) :
  exists k : nat,
    (x = 0%N -> k = 0%nat) /\
    (x <> 0%N -> 10 ^ (Z.of_nat k - 1) <= Z.of_N x) /\
    forall (s : string),
      length (bytes_of (pretty_N_go x s)) = (k + length (bytes_of s))%nat /\
      forall (acc : Z),
        digitsValue acc (bytes_of (pretty_N_go x s))
        = digitsValue (acc * 10 ^ Z.of_nat k + Z.of_N x) (bytes_of s).
Proof.
  induction (N.lt_wf_0 x) as [x _ IH].
  destruct (N.eq_dec x 0%N) as [-> | Hpos].
  - exists 0%nat. split; [done |]. split; [done |]. intros s.
    rewrite pretty_N_go_0. split; [reflexivity |]. intros acc. f_equal. simpl. lia.
  - destruct (IH (x `div` 10)%N) as (k & Hzero & Hlow & Hrun).
    { apply N.div_lt; lia. }
    assert (Hdm : Z.of_N x = 10 * Z.of_N (x `div` 10) + Z.of_N (x `mod` 10)).
    { rewrite (N.div_mod x 10%N) at 1 by lia. rewrite N2Z.inj_add, N2Z.inj_mul. reflexivity. }
    exists (S k). split; [done |]. split.
    + intros _. replace (Z.of_nat (S k) - 1) with (Z.of_nat k) by lia.
      destruct (N.eq_dec (x `div` 10)%N 0%N) as [Hq | Hq].
      * rewrite (Hzero Hq). simpl. lia.
      * specialize (Hlow Hq). destruct k as [|k]; [simpl; lia |].
        replace (Z.of_nat (S k) - 1) with (Z.of_nat k) in Hlow by lia.
        rewrite Nat2Z.inj_succ, Z.pow_succ_r by lia.
        pose proof (N2Z.is_nonneg (x `mod` 10)).
        generalize dependent (10 ^ Z.of_nat k). intros. lia.
    + intros s. rewrite pretty_N_go_step by lia.
      destruct (Hrun (String.String (pretty_N_char (x `mod` 10)) s)) as [Hlen Hval].
      split; [rewrite Hlen, bytes_of_String; simpl; lia |].
      intros acc. rewrite Hval, bytes_of_String.
      destruct (pretty_N_char_digit (x `mod` 10)%N) as [Hd Hv].
      { apply N.mod_lt. lia. }
      cbn [digitsValue]. rewrite Hd, Hv. f_equal.
      rewrite Nat2Z.inj_succ, Z.pow_succ_r by lia. rewrite Hdm. ring.
Qed.

Lemma digitsValue_digits (l : list Z) :
  forall acc v, digitsValue acc l = Some v -> Forall (fun b => isDigit b = true) l.
Proof.
  induction l as [|b l IH]; intros acc v; [constructor |]. simpl.
  destruct (isDigit b) eqn:Hb; [| discriminate]. intros Hv.
  constructor; [exact Hb | by eapply IH].
Qed.

Lemma formatInt_positive (p : positive) :
  digitsValue 0 (formatInt (Z.pos p)) = Some (Z.pos p) /\ formatInt (Z.pos p) <> [].
Proof.
  unfold formatInt, pretty, pretty_Z, pretty, pretty_positive, pretty, pretty_N.
  destruct (decide (N.pos p = 0%N)) as [Hz | _]; [discriminate Hz |].
  destruct (digitsValue_pretty_N_go (N.pos p)) as (k & _ & _ & Hrun).
  assert (Hv : digitsValue 0 (bytes_of (pretty_N_go (N.pos p) "")) = Some (Z.pos p)).
  { rewrite (proj2 (Hrun "")). reflexivity. }
  split; [exact Hv |]. intros Hnil. rewrite Hnil in Hv. discriminate Hv.
Qed.

(** A number below 2^63 is printed with at most 19 digits. *)
Lemma formatInt_length (n : Z) :
  0 <= n < 2 ^ 63 -> (length (formatInt n) <= 19)%nat.
Proof.
  intros Hn. destruct n as [|p|p]; [simpl; lia | | lia].
  unfold formatInt, pretty, pretty_Z, pretty, pretty_positive, pretty, pretty_N.
  destruct (decide (N.pos p = 0%N)) as [Hz | Hnz]; [discriminate Hz |].
  destruct (digitsValue_pretty_N_go (N.pos p)) as (k & _ & Hlow & Hrun).
  rewrite (proj1 (Hrun "")). simpl. rewrite Nat.add_0_r.
  specialize (Hlow Hnz). simpl in Hlow.
  destruct (Nat.le_gt_cases k 19) as [Hle | Hgt]; [exact Hle | exfalso].
  assert (Hpow : 10 ^ 19 <= 10 ^ (Z.of_nat k - 1)) by (apply Z.pow_le_mono_r; lia).
  assert (H63 : 2 ^ 63 < 10 ^ 19) by reflexivity. lia.
Qed.

Lemma formatInt_negative (p : positive) :
  formatInt (Z.neg p) = ch "-" :: formatInt (Z.pos p).
Proof.
  unfold formatInt, pretty at 1, pretty_Z. apply bytes_of_String.
Qed.

(** [strconv.ParseInt] reads back what [%d] prints. *)
Lemma ParseInt_formatInt (n : Z) :
  - 2 ^ 63 <= n < 2 ^ 63 -> ParseInt (formatInt n) = Some n.
Proof.
  intros Hn. destruct n as [|p|p].
  - reflexivity.
  - destruct (formatInt_positive p) as [Hv Hne].
    pose proof (digitsValue_digits _ _ _ Hv) as Hd.
    unfold ParseInt. destruct (formatInt (Z.pos p)) as [|b l]; [done |].
    apply Forall_cons in Hd as [Hb _]. unfold isDigit in Hb.
    change (ch "+") with 43. change (ch "-") with 45.
    replace (b =? 43) with false by lia. replace (b =? 45) with false by lia.
    rewrite Hv. replace ((- 2 ^ 63 <=? Z.pos p) && (Z.pos p <=? 2 ^ 63 - 1)) with true by lia.
    reflexivity.
  - rewrite formatInt_negative. destruct (formatInt_positive p) as [Hv Hne].
    unfold ParseInt.
    replace (ch "-" =? ch "+") with false by reflexivity.
    replace (ch "-" =? ch "-") with true by reflexivity.
    destruct (formatInt (Z.pos p)) as [|b l]; [done |]. rewrite Hv.
    replace ((- 2 ^ 63 <=? - Z.pos p) && (- Z.pos p <=? 2 ^ 63 - 1)) with true by lia.
    reflexivity.
Qed.

(** What [%d] prints for a number that is not negative: decimal digits. *)
Lemma formatInt_digits (n : Z) :
  0 <= n -> formatInt n <> [] /\ Forall (fun b => isDigit b = true) (formatInt n).
Proof.
  intros Hn. destruct n as [|p|p]; [| | lia].
  - split; [discriminate | repeat constructor].
  - destruct (formatInt_positive p) as [Hv Hne].
    split; [exact Hne | by eapply digitsValue_digits].
Qed.

End IntegerText.
Section RebuiltTable.
Context `{GoLib}.

Lemma hasPrefix_cons_head l s sep :
  hasPrefix l (s :: sep) = true -> exists l', l = s :: l'.
Proof.
  unfold hasPrefix. intros Hp. apply bool_decide_eq_true in Hp.
  destruct l as [|a l]; [discriminate Hp |]. simpl in Hp.
  injection Hp as -> _. eauto.
Qed.

Lemma bytesLastIndex_absent (l : list Z) s sep :
  s ∉ l -> bytesLastIndex l (s :: sep) = None.
Proof.
  induction l as [|a l IH]; intros Hs; [reflexivity |].
  cbn [bytesLastIndex]. rewrite IH by (intros Hin; apply Hs; by right).
  destruct (hasPrefix (a :: l) (s :: sep)) eqn:Hp; [| done].
  apply hasPrefix_cons_head in Hp as [l' [= -> _]]. exfalso. apply Hs. left.
Qed.

(** [bytes.LastIndex] finds the occurrence after which the first byte of the
    pattern does not occur again. *)
Lemma bytesLastIndex_last (pre : list Z) a l s sep :
  hasPrefix (a :: l) (s :: sep) = true -> s ∉ l ->
  bytesLastIndex (pre ++ a :: l) (s :: sep) = Some (length pre).
Proof.
  intros Hp Hs. induction pre as [|x pre IH]; cbn [bytesLastIndex app length].
  - rewrite (bytesLastIndex_absent l s sep Hs). by rewrite Hp.
  - by rewrite IH.
Qed.

Lemma isDigit_regular b : isDigit b = true -> isRegular b = true.
Proof.
  unfold isDigit. intros Hb.
  assert (Hc : b = 48 \/ b = 49 \/ b = 50 \/ b = 51 \/ b = 52 \/ b = 53 \/
               b = 54 \/ b = 55 \/ b = 56 \/ b = 57) by lia.
  repeat (destruct Hc as [-> | Hc]; [reflexivity |]). by subst b.
Qed.

Lemma regularRun_app l tl :
  Forall (fun b => isRegular b = true) l -> regularRun tl = 0%nat ->
  regularRun (l ++ tl) = length l.
Proof.
  intros Hl Htl. induction Hl as [|b l Hb _ IH]; [exact Htl |].
  cbn [app regularRun length]. by rewrite Hb, IH.
Qed.

(** The token after a line feed: a run of digits in front of a byte that is
    not regular. *)
Lemma readToken_digits (digits tl : list Z) :
  digits <> [] -> Forall (fun b => isDigit b = true) digits ->
  regularRun tl = 0%nat ->
  fst (readToken (skipWhitespace (newParser (10 :: digits ++ tl)))) = digits.
Proof.
  intros Hne Hd Htl.
  assert (Hreg : Forall (fun b => isRegular b = true) digits).
  { eapply Forall_impl; [exact Hd |]. intros b. apply isDigit_regular. }
  assert (Hws : wsRun false (digits ++ tl) = 0%nat).
  { destruct digits as [|d0 ds]; [done |]. apply Forall_cons in Hreg as [H0 _].
    apply (wsRun_fixed _ d0 (ds ++ tl)); [reflexivity | |].
    - unfold isRegular in H0. apply andb_true_iff in H0 as [H0 _].
      by apply negb_true_iff in H0.
    - intros ->. discriminate H0. }
  assert (Hws1 : wsRun false (10 :: digits ++ tl) = 1%nat).
  { change (wsRun false (10 :: digits ++ tl)) with (S (wsRun false (digits ++ tl))).
    by rewrite Hws. }
  unfold readToken, skipWhitespace, rest, advance, set_pos, newParser.
  cbn [pos data cipher drop Nat.add]. rewrite Hws1.
  cbn [pos data cipher drop Nat.add fst]. rewrite drop_0, Hws, drop_0.
  rewrite (regularRun_app _ _ Hreg Htl). by rewrite take_app_length.
Qed.

(** What [findStartXRef] returns on a file that ends with the lines
    "startxref", a number and "%%EOF". *)
Lemma findStartXRef_of_trailer_lines (pre : list Z) (N : Z) :
  0 <= N < 2 ^ 63 ->
  findStartXRef (pre ++ bytes_of "startxref" ++ [10] ++ formatInt N ++ [10]
                   ++ bytes_of "%%EOF" ++ [10]) = Ok N.
Proof.
  intros HN.
  destruct (formatInt_digits N ltac:(lia)) as [Hne Hdig].
  pose proof (formatInt_length N HN) as Hlen.
  set (tl := [10] ++ bytes_of "%%EOF" ++ [10]).
  set (l := bytes_of "tartxref" ++ [10] ++ formatInt N ++ tl).
  change (pre ++ bytes_of "startxref" ++ [10] ++ formatInt N ++ tl)
    with (pre ++ ch "s" :: l).
  unfold findStartXRef.
  set (m := (length (pre ++ ch "s" :: l) - Nat.min 1024 (length (pre ++ ch "s" :: l)))%nat).
  assert (Hm : (m <= length pre)%nat).
  { assert (Hl : (length (ch "s" :: l) <= 1024)%nat).
    { subst l tl. cbn [length]. rewrite !length_app.
      change (length (bytes_of "tartxref")) with 8%nat.
      change (length (bytes_of "%%EOF")) with 5%nat.
      change (length [10]) with 1%nat. lia. }
    subst m. rewrite length_app. lia. }
  rewrite (drop_app_le _ _ _ Hm).
  assert (Hs : ch "s" ∉ l).
  { assert (Hall : Forall (fun b => b <> ch "s") l).
    { subst l tl. rewrite !Forall_app. repeat split;
        try (repeat constructor; discriminate).
      eapply Forall_impl; [exact Hdig |]. intros b Hb ->. discriminate Hb. }
    rewrite Forall_forall in Hall. intros Hin. by apply (Hall _ Hin). }
  change (bytes_of "startxref") with (ch "s" :: bytes_of "tartxref").
  rewrite (bytesLastIndex_last (drop m pre) (ch "s") l (ch "s") (bytes_of "tartxref"));
    [| by apply bool_decide_eq_true | exact Hs].
  replace (drop (length (drop m pre) + 9) (drop m pre ++ ch "s" :: l))
    with (10 :: formatInt N ++ tl).
  2:{ rewrite drop_app_add'; [| reflexivity]. reflexivity. }
  pose proof (readToken_digits (formatInt N) tl Hne Hdig ltac:(reflexivity)) as Htok.
  destruct (readToken _) as [tok p']. simpl in Htok. subst tok.
  by rewrite (ParseInt_formatInt N ltac:(lia)).
Qed.

(** X25. [rebuildXref] either returns its input or a file whose "startxref"
    line is found by [findStartXRef] and holds the offset [N] of the new
    table: the keyword "xref" begins at [N], and the bytes before [N] are
    those of the input. *)
Theorem rebuildXref_startxref_points_to_table (d out : list Z) :
  Z.of_nat (length d) < 2 ^ 63 ->
  rebuildXref d = Ok out ->
  out = d \/
  exists N : nat,
    findStartXRef out = Ok (Z.of_nat N) /\
    take N out = take N d /\
    take 5 (drop N out) = bytes_of "xref" ++ [10].
Proof.
  intros Hlen. unfold rebuildXref.
  destruct (FindAllSubmatchIndex _ d) as [|m0 ms]; [intros Hout; left; congruence |].
  destruct (objHeaders d (m0 :: ms)) as [objects | | |]; cbn [mbind outcome_bind];
    try discriminate.
  match goal with
  | |- match ?x with _ => _ end = _ -> _ => destruct x as [xrefIdx |]
  end; [| intros Hout; left; congruence].
  destruct (bytesIndex (drop xrefIdx d) _) as [trailerIdx |];
    [| intros Hout; left; congruence].
  destruct (bytesIndex (drop (xrefIdx + trailerIdx) d) _) as [startxrefIdx |];
    [| intros Hout; left; congruence].
  destruct (sliceRange d _ _) as [raw | | |]; cbn [mbind outcome_bind];
    try discriminate.
  intros Hout. apply Ok_injective in Hout. right.
  set (body := take (xrefIdx + 1) d) in *.
  exists (length body).
  assert (Hbody : (length body <= length d)%nat).
  { subst body. rewrite length_take. lia. }
  split; [| split].
  - subst out.
    repeat rewrite (app_assoc _ _ (_ ++ bytes_of "startxref" ++ _)).
    rewrite (app_assoc _ [10]).
    apply findStartXRef_of_trailer_lines. lia.
  - subst out. rewrite take_app_length. subst body.
    rewrite length_take. destruct (Nat.min_spec (xrefIdx + 1) (length d)) as [[_ ->] | [Hge ->]];
      [reflexivity |].
    by rewrite firstn_all, take_ge.
  - subst out. by rewrite drop_app_length.
Qed.

End RebuiltTable.
Section FieldLookup.
Context `{GoLib}.

Lemma flattenFields_cons f fields :
  flattenFields (f :: fields) = f :: flattenFields (Kids f) ++ flattenFields fields.
Proof.
  cbn [flattenFields]. f_equal. f_equal. destruct f as [? ? ? ? ? ? ? ? kids ? ?].
  cbn [Kids]. induction kids as [|k kids IH]; [reflexivity |].
  cbn [flattenFields]. by rewrite <- IH.
Qed.

Lemma findField_cons f fields name :
  findField (f :: fields) name =
  if bool_decide (FullName f = name) then Some f
  else match findField (Kids f) name with
       | Some found => Some found
       | None => findField fields name
       end.
Proof.
  cbn [findField]. destruct (bool_decide (FullName f = name)); [reflexivity |].
  destruct f as [? ? ? ? ? ? ? ? kids ? ?]. cbn [Kids].
  match goal with
  | |- match ?a with _ => _ end = match ?b with _ => _ end =>
    assert (Heq : a = b); [| by rewrite Heq]
  end.
  induction kids as [|k kids IH]; [reflexivity |].
  cbn [findField]. by rewrite <- IH.
Qed.

Lemma find_app {A} (P : A -> bool) (l1 l2 : list A) :
  List.find P (l1 ++ l2) =
  match List.find P l1 with Some x => Some x | None => List.find P l2 end.
Proof. induction l1 as [|a l1 IH]; simpl; [reflexivity |]. by destruct (P a). Qed.

(** Induction over a forest of fields: the kids of the first field, then
    the fields after it. *)
Lemma fields_ind (P : list FormField -> Prop) :
  P [] ->
  (forall f fields, P (Kids f) -> P fields -> P (f :: fields)) ->
  forall fields, P fields.
Proof.
  intros Hnil Hcons.
  assert (Hkids : forall f, P (Kids f)).
  { exact (fix inKids (f : FormField) : P (Kids f) :=
             match f as f0 return P (Kids f0) with
             | mkFormField _ _ _ _ _ _ _ _ kids _ _ =>
               (fix each (l : list FormField) : P l :=
                  match l with
                  | [] => Hnil
                  | k :: l' => Hcons k l' (inKids k) (each l')
                  end) kids
             end). }
  intros fields. induction fields as [|f fields IH]; [exact Hnil |].
  exact (Hcons f fields (Hkids f) IH).
Qed.

(** X26. [findField] returns the first field with the given fully qualified
    name in the order of [flattenFields]: a field before its kids, the kids
    before the next field. *)
Theorem findField_first_in_flattened_order (fields : list FormField) (name : list Z) :
  findField fields name
  = List.find (fun f => bool_decide (FullName f = name)) (flattenFields fields).
Proof.
  induction fields as [|f fields IHkids IH] using fields_ind; [reflexivity |].
  rewrite findField_cons, flattenFields_cons. cbn [List.find].
  destruct (bool_decide (FullName f = name)); [reflexivity |].
  by rewrite find_app, <- IH, <- IHkids.
Qed.

Lemma find_None_rev {A} (P : A -> bool) (l : list A) :
  List.find P (rev l) = None <-> List.find P l = None.
Proof.
  induction l as [|a l IH]; [done |]. cbn [rev List.find]. rewrite find_app.
  cbn [List.find]. destruct (List.find P (rev l)), (P a), (List.find P l);
    intuition congruence.
Qed.

Lemma fieldMapOf_lookup (fs : list FormField) (name : list Z) :
  fieldMapOf fs !! name
  = List.find (fun f => bool_decide (FullName f = name)) (rev fs).
Proof.
  unfold fieldMapOf.
  assert (Hgen : forall m : gmap (list Z) FormField,
             foldl (fun m f => <[FullName f := f]> m) m fs !! name
             = match List.find (fun f => bool_decide (FullName f = name)) (rev fs) with
               | Some f => Some f
               | None => m !! name
               end).
  { induction fs as [|f fs IH]; intros m; [reflexivity |].
    cbn [foldl rev]. rewrite IH, find_app. cbn [List.find].
    destruct (List.find _ (rev fs)); [reflexivity |].
    destruct (bool_decide (FullName f = name)) eqn:Hf.
    - apply bool_decide_eq_true in Hf. subst name. apply lookup_insert_eq.
    - apply bool_decide_eq_false in Hf. by apply lookup_insert_ne. }
  rewrite Hgen. by destruct (List.find _ (rev fs)).
Qed.

(** X27. The field that [Fill] edits under a name is the last one with that
    fully qualified name in the order of [flattenFields]; [Fill] knows a name
    exactly when [findField] finds a field for it. *)
Theorem Fill_field_map_last_in_flattened_order (fields : list FormField)
    (name : list Z) :
  fieldMapOf (flattenFields fields) !! name
  = List.find (fun f => bool_decide (FullName f = name))
      (rev (flattenFields fields)) /\
  (fieldMapOf (flattenFields fields) !! name = None
   <-> findField fields name = None).
Proof.
  split; [apply fieldMapOf_lookup |].
  rewrite fieldMapOf_lookup, find_None_rev.
  induction fields as [|f fields IHkids IH] using fields_ind; [done |].
  rewrite findField_cons, flattenFields_cons. cbn [List.find].
  destruct (bool_decide (FullName f = name)); [done |].
  rewrite find_app.
  destruct (List.find _ (flattenFields (Kids f))), (findField (Kids f) name);
    intuition congruence.
Qed.

End FieldLookup.
Section TextExtractionFacts.
Context `{GoLib}.

Lemma skipLiteralString_advances data i : (i < skipLiteralString data i)%nat.
Proof.
  unfold skipLiteralString. destruct (data !! i) as [b |]; [| lia].
  destruct (b =? ch "("); lia.
Qed.

Lemma skipAngleBrackets_advances data i : (i < skipAngleBrackets data i)%nat.
Proof. unfold skipAngleBrackets. lia. Qed.

Lemma parseLiteralStringRaw_advances data i :
  data !! i = Some (ch "(") -> (i < (parseLiteralStringRaw data i).2)%nat.
Proof.
  intros Hi. unfold parseLiteralStringRaw. rewrite Hi, Z.eqb_refl.
  destruct (literalRunRaw 1 (drop (S i) data)) as [s n]. simpl. lia.
Qed.

Lemma parseHexStringRaw_advances data i :
  data !! i = Some (ch "<") -> (i < (parseHexStringRaw data i).2)%nat.
Proof.
  intros Hi. unfold parseHexStringRaw. rewrite Hi, Z.eqb_refl.
  destruct (hexRunRaw (-1) (drop (S i) data)) as [s n]. simpl. lia.
Qed.

Lemma skipArrayLoop_ok data fuel :
  forall pos depth, (length data - pos < fuel)%nat ->
  exists p, skipArrayLoop fuel data pos depth = Ok p /\ (pos <= p)%nat.
Proof.
  induction fuel as [|fuel IH]; intros pos depth Hfuel; [lia |].
  cbn [skipArrayLoop]. destruct (depth =? 0)%nat; [by exists pos |].
  destruct (data !! pos) as [b |] eqn:Hb; [| by exists pos].
  apply lookup_lt_Some in Hb.
  pose proof (skipLiteralString_advances data pos) as Hskip.
  assert (Hnext : forall pos' depth', (pos < pos')%nat ->
            exists p, skipArrayLoop fuel data pos' depth' = Ok p /\ (pos <= p)%nat).
  { intros pos' depth' Hlt. destruct (IH pos' depth') as (p & Hp & Hle); [lia |].
    exists p. split; [exact Hp | lia]. }
  destruct (b =? ch "["); [apply Hnext; lia |].
  destruct (b =? ch "]"); [apply Hnext; lia |].
  destruct (b =? ch "("); apply Hnext; lia.
Qed.

Lemma arrayTextLoop_ok data fuel :
  forall i result, (length data - i < fuel)%nat ->
  exists j r, arrayTextLoop fuel data i result = Ok (j, r) /\ (i <= j)%nat.
Proof.
  induction fuel as [|fuel IH]; intros i result Hfuel; [lia |].
  cbn [arrayTextLoop]. destruct (data !! i) as [b |] eqn:Hb; [| by exists i, result].
  pose proof (lookup_lt_Some _ _ _ Hb) as Hlt.
  assert (Hnext : forall i' result', (i < i')%nat ->
            exists j r, arrayTextLoop fuel data i' result' = Ok (j, r) /\ (i <= j)%nat).
  { intros i' result' Hi'. destruct (IH i' result') as (j & r & Hj & Hle); [lia |].
    exists j, r. split; [exact Hj | lia]. }
  destruct (b =? ch "]"); [by exists i, result |].
  destruct (Z.eqb_spec b (ch "(")) as [-> | _].
  { pose proof (parseLiteralStringRaw_advances data i Hb).
    destruct (parseLiteralStringRaw data i) as [text e]. by apply Hnext. }
  destruct (Z.eqb_spec b (ch "<")) as [-> | _].
  { pose proof (parseHexStringRaw_advances data i Hb).
    destruct (parseHexStringRaw data i) as [text e]. by apply Hnext. }
  apply Hnext. lia.
Qed.

(** The position of the first byte of what is left after [i]. *)
Lemma drop_cons_lookup (data : list Z) i b tl :
  drop i data = b :: tl -> data !! i = Some b /\ (i < length data)%nat /\ tl = drop (S i) data.
Proof.
  intros Hd. assert (Hb : data !! i = Some b).
  { rewrite <- (Nat.add_0_r i), <- lookup_drop, Hd. reflexivity. }
  split; [exact Hb |]. split; [by apply lookup_lt_Some in Hb |].
  replace (S i) with (i + 1)%nat by lia. by rewrite <- drop_drop, Hd.
Qed.

Lemma extractLoop_ok data fuel :
  forall i inText result, (length data - i < fuel)%nat ->
  exists r, extractLoop fuel data i inText result = Ok r.
Proof.
  induction fuel as [|fuel IH]; intros i inText result Hfuel; [lia |].
  cbn [extractLoop]. destruct (length data <=? i)%nat; [by exists result |].
  set (i1 := (i + blankRun (drop i data))%nat).
  assert (Hi1 : (i <= i1)%nat) by (subst i1; lia). clearbody i1.
  destruct (drop i1 data) as [|b tl] eqn:Hdrop; [by exists result |].
  apply drop_cons_lookup in Hdrop as (Hb & Hlt & _).
  assert (Hnext : forall i' inText' result', (i1 < i')%nat ->
            exists r, extractLoop fuel data i' inText' result' = Ok r).
  { intros i' inText' result' Hi'. apply IH. lia. }
  destruct (operatorAt (b :: tl) _ _); [apply Hnext; lia |].
  destruct (operatorAt (b :: tl) _ _); [apply Hnext; lia |].
  destruct inText; cbn [negb].
  - destruct (Z.eqb_spec b (ch "(")) as [-> | _].
    { pose proof (parseLiteralStringRaw_advances data i1 Hb).
      destruct (parseLiteralStringRaw data i1) as [text e]. by apply Hnext. }
    destruct (Z.eqb_spec b (ch "<")) as [-> | _]; cbn [andb].
    { destruct (match tl with [] => true | b1 :: _ => negb (b1 =? ch "<") end).
      - pose proof (parseHexStringRaw_advances data i1 Hb).
        destruct (parseHexStringRaw data i1) as [text e]. by apply Hnext.
      - change (ch "<" =? ch "[") with false. cbn match.
        destruct (_ || _); apply Hnext; lia. }
    destruct (b =? ch "[").
    { destruct (arrayTextLoop_ok data (S fuel) (S i1) result) as (j & r & -> & Hj); [lia |].
      cbn [mbind outcome_bind]. apply Hnext. destruct (j <? length data)%nat; lia. }
    destruct (_ || _); apply Hnext; lia.
  - destruct (b =? ch "("); [apply Hnext, skipLiteralString_advances |].
    destruct (b =? ch "<"); [apply Hnext, skipAngleBrackets_advances |].
    destruct (b =? ch "[").
    { unfold skipArray.
      destruct (skipArrayLoop_ok data (S fuel) (S i1) 1) as (p & -> & Hp); [lia |].
      cbn [mbind outcome_bind]. apply Hnext. lia. }
    apply Hnext. lia.
Qed.

Lemma skipArrayLoop_mono data fuel :
  forall pos depth p, skipArrayLoop fuel data pos depth = Ok p ->
  forall fuel', (fuel <= fuel')%nat -> skipArrayLoop fuel' data pos depth = Ok p.
Proof.
  induction fuel as [|fuel IH]; intros pos depth p Hp fuel' Hle; [discriminate Hp |].
  destruct fuel' as [|fuel']; [lia |]. cbn [skipArrayLoop] in *.
  destruct (depth =? 0)%nat; [exact Hp |].
  destruct (data !! pos) as [b |]; [| exact Hp].
  destruct (b =? ch "["); [apply IH; [exact Hp | lia] |].
  destruct (b =? ch "]"); [apply IH; [exact Hp | lia] |].
  destruct (b =? ch "("); apply IH; (exact Hp || lia).
Qed.

Lemma arrayTextLoop_mono data fuel :
  forall i result r, arrayTextLoop fuel data i result = Ok r ->
  forall fuel', (fuel <= fuel')%nat -> arrayTextLoop fuel' data i result = Ok r.
Proof.
  induction fuel as [|fuel IH]; intros i result r Hr fuel' Hle; [discriminate Hr |].
  destruct fuel' as [|fuel']; [lia |]. cbn [arrayTextLoop] in *.
  destruct (data !! i) as [b |]; [| exact Hr].
  destruct (b =? ch "]"); [exact Hr |].
  destruct (b =? ch "(").
  { destruct (parseLiteralStringRaw data i) as [text e]. apply IH; [exact Hr | lia]. }
  destruct (b =? ch "<").
  { destruct (parseHexStringRaw data i) as [text e]. apply IH; [exact Hr | lia]. }
  apply IH; [exact Hr | lia].
Qed.

(** More fuel does not change what the loop returns. *)
Lemma extractLoop_mono data fuel :
  forall i inText result r, extractLoop fuel data i inText result = Ok r ->
  forall fuel', (fuel <= fuel')%nat -> extractLoop fuel' data i inText result = Ok r.
Proof.
  induction fuel as [|fuel IH]; intros i inText result r Hr fuel' Hle;
    [discriminate Hr |].
  destruct fuel' as [|fuel']; [lia |]. cbn [extractLoop] in *.
  destruct (length data <=? i)%nat; [exact Hr |].
  set (i1 := (i + blankRun (drop i data))%nat) in *. clearbody i1.
  destruct (drop i1 data) as [|b tl]; [exact Hr |].
  assert (Hnext : forall i' inText' result',
            extractLoop fuel data i' inText' result' = Ok r ->
            extractLoop fuel' data i' inText' result' = Ok r).
  { intros i' inText' result' H'. apply (IH _ _ _ _ H'). lia. }
  destruct (operatorAt (b :: tl) (ch "B") (ch "T")); [by apply Hnext |].
  destruct (operatorAt (b :: tl) (ch "E") (ch "T")); [by apply Hnext |].
  destruct inText; cbn [negb] in *.
  - destruct (b =? ch "(").
    { destruct (parseLiteralStringRaw data i1) as [text e]. by apply Hnext. }
    destruct ((b =? ch "<") && _).
    { destruct (parseHexStringRaw data i1) as [text e]. by apply Hnext. }
    destruct (b =? ch "[").
    { destruct (arrayTextLoop (S fuel) data (S i1) result) as [[j r'] | | |] eqn:Harr;
        cbn [mbind outcome_bind] in Hr; try discriminate Hr.
      rewrite (arrayTextLoop_mono _ _ _ _ _ Harr (S fuel')) by lia.
      cbn [mbind outcome_bind]. by apply Hnext. }
    destruct (_ || _); by apply Hnext.
  - destruct (b =? ch "("); [by apply Hnext |].
    destruct (b =? ch "<"); [by apply Hnext |].
    destruct (b =? ch "[").
    { unfold skipArray in *.
      destruct (skipArrayLoop (S fuel) data (S i1) 1) as [p | | |] eqn:Hskip;
        cbn [mbind outcome_bind] in Hr; try discriminate Hr.
      rewrite (skipArrayLoop_mono _ _ _ _ _ Hskip (S fuel')) by lia.
      cbn [mbind outcome_bind]. by apply Hnext. }
    by apply Hnext.
Qed.

(** X28. [extractTextFromContentStream] returns a text for every content
    stream, the same for every bound above the length of the data: each
    round of its loops moves forward in the data, so as many rounds as the
    data has bytes, and one more, are enough. *)
Theorem extractTextFromContentStream_returns (data : list Z) :
  exists text, forall fuel,
    (length data < fuel)%nat -> extractTextFromContentStream fuel data = Ok text.
Proof.
  destruct (extractLoop_ok data (S (length data)) 0 false []) as [r Hr]; [lia |].
  exists (TrimSpace r). intros fuel Hfuel. unfold extractTextFromContentStream.
  by rewrite (extractLoop_mono _ _ _ _ _ _ Hr fuel) by lia.
Qed.

Lemma operatorAt_head x tl a b :
  operatorAt (x :: tl) a b = true -> x = a /\ exists tl', tl = b :: tl'.
Proof.
  unfold operatorAt. destruct tl as [|y tl']; [discriminate |].
  intros Hop. apply andb_true_iff in Hop as [Hop _].
  apply andb_true_iff in Hop as [Hx Hy].
  apply Z.eqb_eq in Hx, Hy. subst. eauto.
Qed.

Lemma replicate_snoc {A} (n : nat) (x : A) :
  replicate n x ++ [x] = replicate (S n) x.
Proof. induction n as [|n IH]; [reflexivity |]. simpl. by rewrite IH. Qed.

Lemma extractLoop_outside data fuel :
  (forall k, data !! k = Some (ch "B") -> data !! S k <> Some (ch "T")) ->
  forall i n, (length data - i < fuel)%nat ->
  exists m, extractLoop fuel data i false (replicate n (ch " "))
            = Ok (replicate m (ch " ")).
Proof.
  intros Hno. induction fuel as [|fuel IH]; intros i n Hfuel; [lia |].
  cbn [extractLoop]. destruct (length data <=? i)%nat; [by exists n |].
  set (i1 := (i + blankRun (drop i data))%nat).
  assert (Hi1 : (i <= i1)%nat) by (subst i1; lia). clearbody i1.
  destruct (drop i1 data) as [|b tl] eqn:Hdrop; [by exists n |].
  apply drop_cons_lookup in Hdrop as (Hb & Hlt & Htl).
  assert (Hnext : forall i' n', (i1 < i')%nat ->
            exists m, extractLoop fuel data i' false (replicate n' (ch " "))
                      = Ok (replicate m (ch " "))).
  { intros i' n' Hi'. apply IH. lia. }
  destruct (operatorAt (b :: tl) (ch "B") (ch "T")) eqn:Hbt.
  { exfalso. apply operatorAt_head in Hbt as (-> & tl' & ->).
    symmetry in Htl. apply drop_cons_lookup in Htl as (Hnext_byte & _).
    exact (Hno i1 Hb Hnext_byte). }
  destruct (operatorAt (b :: tl) (ch "E") (ch "T")).
  { rewrite replicate_snoc. apply Hnext. lia. }
  cbn [negb].
  destruct (b =? ch "("); [apply Hnext, skipLiteralString_advances |].
  destruct (b =? ch "<"); [apply Hnext, skipAngleBrackets_advances |].
  destruct (b =? ch "[").
  { unfold skipArray.
    destruct (skipArrayLoop_ok data (S fuel) (S i1) 1) as (p & -> & Hp); [lia |].
    cbn [mbind outcome_bind]. apply Hnext. lia. }
  apply Hnext. lia.
Qed.

(** X29. Without the operator BT nothing is extracted: when no byte 'B' of
    the data is followed by 'T', the text is what [strings.TrimSpace] leaves
    of a run of blanks, one for each ET. *)
Theorem extractTextFromContentStream_outside_text_objects (data : list Z)
    (fuel : nat) :
  (length data < fuel)%nat ->
  (forall k, data !! k = Some (ch "B") -> data !! S k <> Some (ch "T")) ->
  exists n,
    extractTextFromContentStream fuel data = Ok (TrimSpace (replicate n (ch " "))).
Proof.
  intros Hfuel Hno. unfold extractTextFromContentStream.
  destruct (extractLoop_outside data fuel Hno 0 0) as [m Hm]; [lia |].
  change (replicate 0 (ch " ")) with (@nil Z) in Hm. rewrite Hm.
  by exists m.
Qed.

End TextExtractionFacts.
Section FieldNames.
Context `{GoLib}.

Lemma parseKids_names (parseKid : Object -> list Z -> outcome FormField)
    (fullName type : list Z) :
  (forall o k, parseKid o fullName = Ok k ->
     FullName k = qualifiedName fullName (ff_Name k)) ->
  forall kidsArr kids,
    parseKids parseKid kidsArr fullName type = Ok kids ->
    Forall (fun k => FullName k = qualifiedName fullName (ff_Name k)) kids.
Proof.
  intros Hkid. induction kidsArr as [|o kidsArr IH]; intros kids; cbn [parseKids].
  { intros Hk. apply Ok_injective in Hk. subst kids. constructor. }
  destruct (parseKid o fullName) as [k | e | e |] eqn:Hk; cbn [mbind outcome_bind orElse];
    try discriminate.
  - destruct (parseKids parseKid kidsArr fullName type) as [tl | | |];
      cbn [mbind outcome_bind]; try discriminate.
    intros Hks. apply Ok_injective in Hks. subst kids. constructor; [| by apply IH].
    specialize (Hkid o k Hk). by destruct (decide (ff_Type k = [])).
  - destruct (parseKids parseKid kidsArr fullName type) as [tl | | |];
      cbn [mbind outcome_bind]; try discriminate.
    intros Hks. apply Ok_injective in Hks. subst kids. by apply IH.
Qed.

Lemma parseFormFieldBody_names (parseKid : Object -> list Z -> outcome FormField)
    (d : Document) (obj : Object) (parentName : list Z) (f : FormField) :
  (forall o p k, parseKid o p = Ok k -> FullName k = qualifiedName p (ff_Name k)) ->
  parseFormFieldBody parseKid d obj parentName = Ok f ->
  FullName f = qualifiedName parentName (ff_Name f) /\
  Forall (fun k => FullName k = qualifiedName (FullName f) (ff_Name k)) (Kids f).
Proof.
  intros Hkid. unfold parseFormFieldBody.
  destruct (resolveIfRef d obj) as [resolved | | |]; cbn [mbind outcome_bind];
    try discriminate.
  destruct resolved; try discriminate.
  match goal with dict : gmap (list Z) Object |- _ => rename dict into dict0 end.
  match goal with
  | |- (mbind _ ?r) = _ -> _ => destruct r as [rect | | |]
  end; cbn [mbind outcome_bind]; try discriminate.
  match goal with
  | |- (mbind _ ?r) = _ -> _ => destruct r as [options | | |]
  end; cbn [mbind outcome_bind]; try discriminate.
  match goal with
  | |- (mbind _ ?r) = _ -> _ => destruct r as [kids | | |] eqn:Hkids
  end; cbn [mbind outcome_bind]; try discriminate.
  intros Hf. apply Ok_injective in Hf. subst f. cbn [FullName ff_Name Kids].
  split; [reflexivity |].
  destruct (dict0 !! bytes_of "Kids") as [kidsObj |]; [| apply Ok_injective in Hkids; subst kids; constructor].
  destruct (orElse (resolveIfRef d kidsObj) Null) as [kidsResolved | | |];
    cbn [mbind outcome_bind] in Hkids; try discriminate Hkids.
  destruct kidsResolved;
    try (apply Ok_injective in Hkids; subst kids; constructor).
  eapply parseKids_names; [| exact Hkids]. intros o k. apply Hkid.
Qed.

(** X30. The fully qualified name of a parsed field is the name of its
    parent, a dot and its partial name, and only one of the two names when
    the other is empty; the kids of the field are named in this way under
    the fully qualified name of the field. *)
Theorem parseFormField_qualified_names (fuel : nat) (d : Document) (obj : Object)
    (parentName : list Z) (f : FormField) :
  parseFormField fuel d obj parentName = Ok f ->
  FullName f = qualifiedName parentName (ff_Name f) /\
  Forall (fun k => FullName k = qualifiedName (FullName f) (ff_Name k)) (Kids f).
Proof.
  revert obj parentName f. induction fuel as [|fuel IH]; intros obj parentName f;
    cbn [parseFormField]; [discriminate |].
  apply parseFormFieldBody_names. intros o p k Hk. by apply IH in Hk as [Hk _].
Qed.

End FieldNames.

(** * The claims on concrete files *)

Section Samples.
Import GoRef.

Lemma Ok_inj {A} (a b : A) : Ok a = Ok b -> a = b.
Proof. by intros [= ->]. Qed.

Lemma Dict_inj (m1 m2 : gmap (list Z) Object) : Dict m1 = Dict m2 -> m1 = m2.
Proof. by intros [= ->]. Qed.

Lemma sectionAt_ok (d : list Z) (offset : Z) :
  match parseXRefSection d offset with Some (Ok _) => true | _ => false end = true ->
  parseXRefSection d offset = Some (Ok (sectionAt d offset)).
Proof.
  unfold sectionAt. destruct (parseXRefSection d offset) as [[s| | |]|]; by intros.
Qed.

Lemma docOf_ok (d : list Z) :
  isOk (ReadFrom 10 d) = true -> ReadFrom 10 d = Ok (docOf d).
Proof. unfold docOf. by destruct (ReadFrom 10 d). Qed.

Lemma fieldsOf_ok (doc : Document) :
  isOk (FormFields 10 doc) = true -> FormFields 10 doc = Ok (fieldsOf doc).
Proof. unfold fieldsOf. by destruct (FormFields 10 doc). Qed.

Lemma formPDF_reads : ReadFrom 10 formPDF = Ok (docOf formPDF).
Proof. apply docOf_ok. reflexivity. Qed.

Lemma formPDF_fields :
  FormFields 10 (docOf formPDF) = Ok (fieldsOf (docOf formPDF)).
Proof. apply fieldsOf_ok. reflexivity. Qed.

Lemma formPDF_field_names :
  FullName <$> flattenFields (fieldsOf (docOf formPDF)) = [bytes_of "name"].
Proof. reflexivity. Qed.

Lemma plainPDF_reads : ReadFrom 10 plainPDF = Ok (docOf plainPDF).
Proof. apply docOf_ok. reflexivity. Qed.

Lemma plainPDF_fields : FormFields 10 (docOf plainPDF) = Ok [].
Proof. reflexivity. Qed.

(** ** C1 on [updatedPDF] *)

Lemma updatedPDF_chain :
  PrevChain updatedPDF 422 [sectionAt updatedPDF 422; sectionAt updatedPDF 186].
Proof.
  pose proof (sectionAt_ok updatedPDF 422 ltac:(reflexivity)) as H1.
  pose proof (sectionAt_ok updatedPDF 186 ltac:(reflexivity)) as H2.
  assert (P1 : GetInt (sectionAt updatedPDF 422).2 (bytes_of "Prev") = Some 186)
    by reflexivity.
  assert (P2 : GetInt (sectionAt updatedPDF 186).2 (bytes_of "Prev") = None)
    by reflexivity.
  assert (L : Z.of_nat (length updatedPDF) = 539) by reflexivity.
  destruct (sectionAt updatedPDF 422) as [t1 tr1].
  destruct (sectionAt updatedPDF 186) as [t2 tr2].
  apply (chain_prev updatedPDF 422 t1 tr1 186); [lia | exact H1 | exact P1 |].
  apply chain_last; [lia | exact H2 | exact P2].
Qed.


(** Object 3 is defined in both sections and the entry of the update (offset
    329) is the one kept; objects 1 is taken from the older section. *)
Example updatedPDF_merged :
  (sectionAt updatedPDF 422).1 !! 3 = Some (mkEntry 329 0 true) /\
  (sectionAt updatedPDF 186).1 !! 3 = Some (mkEntry 139 0 true) /\
  (sectionAt updatedPDF 422).1 !! 1 = None /\
  xref (docOf updatedPDF) !! 3 = Some (mkEntry 329 0 true) /\
  xref (docOf updatedPDF) !! 1 = Some (mkEntry 9 0 true) /\
  xref (docOf updatedPDF) !! 5 = Some (mkEntry 387 0 true) /\
  xref (docOf updatedPDF) !! 4 = None /\
  Rotate <$> pages (docOf updatedPDF) = [90].
Proof. repeat split; reflexivity. Qed.

(** ** C2, C4 on [formPDF] and C10 on [plainPDF] *)

Lemma Fill_unknown_field_fails_formPDF :
  (({[ bytes_of "nope" := bytes_of "x" ]} : gmap (list Z) (list Z)) !! bytes_of "nope"
    = Some (bytes_of "x")) /\
  (bytes_of "nope" ∉ FullName <$> flattenFields (fieldsOf (docOf formPDF))) /\
  exists r, Fill 10 (mkReader formPDF 0) [] {[ bytes_of "nope" := bytes_of "x" ]}
              = (r, mkEdit [] None) /\
    isOk r = false /\ isErr r = true.
Proof.
  assert (Hnot : bytes_of "nope" ∉ FullName <$> flattenFields (fieldsOf (docOf formPDF))).
  { rewrite formPDF_field_names. intros Hin. apply list_elem_of_singleton in Hin.
    discriminate Hin. }
  split; [apply lookup_singleton_eq |]. split; [exact Hnot |].
  destruct (Fill_unknown_field_fails 10 (mkReader formPDF 0) []
              {[ bytes_of "nope" := bytes_of "x" ]} (bytes_of "nope") (bytes_of "x"))
    as (r & Hfill & Hok & Herr).
  - apply lookup_singleton_eq.
  - intros doc fields Hdoc Hfields.
    change (ReadAll (mkReader formPDF 0)) with formPDF in Hdoc.
    rewrite formPDF_reads in Hdoc. apply Ok_inj in Hdoc. subst doc.
    rewrite formPDF_fields in Hfields. apply Ok_inj in Hfields. subst fields.
    exact Hnot.
  - exists r. split; [exact Hfill |]. split; [exact Hok |].
    apply (Herr (docOf formPDF) (fieldsOf (docOf formPDF)));
      [exact formPDF_reads | exact formPDF_fields].
Defined.


(** What [Flatten] leaves of the catalog and of the field dictionary of
    [formPDF]. *)
Example Flatten_formPDF_dicts :
  match (Flatten 10 (mkReader formPDF 0) []).2 with
  | mkEdit w _ => (take 87 (drop 17 w), take 93 (drop 343 w))
  end = (bytes_of "<< /Type /Catalog /Pages 2 0 R                                                       >>",
         bytes_of "<< /Type /Annot                  /T (name)                               /Rect [0 0 10 10] >>").
Proof. reflexivity. Qed.

Lemma Flatten_no_fields_identity_plainPDF :
  ReadFrom 10 (ReadAll (mkReader plainPDF 0)) = Ok (docOf plainPDF) /\
  FormFields 10 (docOf plainPDF) = Ok [] /\
  Flatten 10 (mkReader plainPDF 0) []
    = (Ok (), mkEdit ([] ++ ReadAll (mkReader plainPDF 0)) None).
Proof.
  split; [exact plainPDF_reads |]. split; [exact plainPDF_fields |].
  exact (Flatten_no_fields_identity 10 (mkReader plainPDF 0) [] (docOf plainPDF)
           plainPDF_reads plainPDF_fields).
Defined.

(** ** C5: a one-byte /U *)

(** The claim fails: with a /U of one byte, the password validates although
    the 32 bytes of the RC4 output are not equal to /U. *)
Lemma validateUserPassword_accepts_prefix :
  revision shortU = 2 /\
  validateUserPassword weakKey shortU = true /\
  exists c, rc4.NewCipher weakKey = Some c /\
    length (rc4.XORKeyStream c pdfPadding).1 = 32%nat /\
    length (userHash shortU) = 1%nat /\
    (rc4.XORKeyStream c pdfPadding).1 <> userHash shortU.
Proof.
  split; [reflexivity |]. split; [vm_compute; reflexivity |].
  destruct (rc4.NewCipher weakKey) as [c|] eqn:Hc; [| by vm_compute in Hc].
  exists c. split; [reflexivity |].
  assert (Hlen : length (rc4.XORKeyStream c pdfPadding).1 = 32%nat)
    by apply XORKeyStream_length.
  split; [exact Hlen |]. split; [reflexivity |].
  intros Heq. rewrite Heq in Hlen. discriminate Hlen.
Qed.

Lemma validateUserPassword_revision2_shortU :
  revision shortU = 2 /\
  (validateUserPassword weakKey shortU = true <->
   exists c, rc4.NewCipher weakKey = Some c /\ userHash shortU <> [] /\
     let n := Nat.min 32 (length (userHash shortU)) in
     take n (rc4.XORKeyStream c pdfPadding).1 = take n (userHash shortU)).
Proof.
  split; [reflexivity |].
  exact (validateUserPassword_revision2 weakKey shortU eq_refl).
Defined.

(** ** C7: a page tree with a cycle *)

Lemma dictAt_ok (doc : Document) (num gen : Z) :
  match resolve doc num gen with Ok (Dict _) => true | _ => false end = true ->
  resolve doc num gen = Ok (Dict (dictAt doc num gen)).
Proof.
  unfold dictAt. destruct (resolve doc num gen) as [[]| | |]; by intros.
Qed.

(** A file whose only section has no /Prev is read with any fuel. *)
Lemma parseXRefTable_single (d : list Z) (offset : Z) (fuel : nat) :
  0 <= offset < Z.of_nat (length d) ->
  match parseXRefSection d offset with Some (Ok _) => true | _ => false end = true ->
  GetInt (sectionAt d offset).2 (bytes_of "Prev") = None ->
  parseXRefTable (S fuel) d offset = Ok (sectionAt d offset).
Proof.
  intros Hin Hsec Hprev. cbn [parseXRefTable].
  replace ((offset <? 0) || (Z.of_nat (length d) <=? offset)) with false by lia.
  rewrite (sectionAt_ok _ _ Hsec). cbn [mbind outcome_bind].
  destruct (sectionAt d offset) as [table tr]. cbn [snd] in Hprev. by rewrite Hprev.
Qed.

Lemma pagesRoot_through_references (d : Document) (n1 g1 n2 g2 : Z)
    (catalog node : gmap (list Z) Object) :
  trailer d !! bytes_of "Root" = Some (Reference n1 g1) ->
  resolve d n1 g1 = Ok (Dict catalog) ->
  catalog !! bytes_of "Pages" = Some (Reference n2 g2) ->
  resolve d n2 g2 = Ok (Dict node) ->
  pagesRoot d = Ok node.
Proof.
  intros Hroot Hcat Hpages Hnode. unfold pagesRoot, GetDict.
  rewrite Hroot, Hcat. cbn [wrapErr mbind outcome_bind].
  rewrite Hpages, Hnode. reflexivity.
Qed.

Lemma cyclicPDF_root :
  pagesRoot (documentAt cyclicPDF 115) = Ok (dictAt (documentAt cyclicPDF 115) 2 0).
Proof.
  apply (pagesRoot_through_references _ 1 0 2 0 (dictAt (documentAt cyclicPDF 115) 1 0)).
  - reflexivity.
  - apply dictAt_ok. reflexivity.
  - reflexivity.
  - apply dictAt_ok. reflexivity.
Qed.

Lemma cyclicPDF_cycle fuel acc inherited rotate :
  traversePageTree fuel (documentAt cyclicPDF 115) acc
    (dictAt (documentAt cyclicPDF 115) 2 0) inherited rotate = OutOfFuel.
Proof.
  apply (traversePageTree_self_kid _ _ 2 0 []).
  - assert (Ht : GetName (dictAt (documentAt cyclicPDF 115) 2 0) (bytes_of "Type")
                 = bytes_of "Pages") by reflexivity.
    rewrite Ht. discriminate.
  - reflexivity.
  - apply dictAt_ok. reflexivity.
Qed.


(** The page tree of [plainPDF] has depth 1: the /Pages node and its page. *)
Lemma plainPDF_depth :
  PageTreeDepth (documentAt plainPDF 265) (dictAt (documentAt plainPDF 265) 2 0) 1.
Proof.
  apply depth_pages.
  - assert (Ht : GetName (dictAt (documentAt plainPDF 265) 2 0) (bytes_of "Type")
                 = bytes_of "Pages") by reflexivity.
    rewrite Ht. discriminate.
  - intros kids kid kidDict Hkids Hkid Hres.
    assert (Hk : pageKids (documentAt plainPDF 265) (dictAt (documentAt plainPDF 265) 2 0)
                 = Ok [Reference 3 0]) by reflexivity.
    rewrite Hk in Hkids. apply Ok_inj in Hkids. subst kids.
    apply list_elem_of_singleton in Hkid. subst kid. cbn [resolveIfRef] in Hres.
    rewrite (dictAt_ok (documentAt plainPDF 265) 3 0 ltac:(reflexivity)) in Hres.
    apply Ok_inj, Dict_inj in Hres. subst kidDict.
    apply depth_page. reflexivity.
Qed.



(** ** C8: the line feed after the last stream *)

(** The claim fails: the content of the single-stream page of [plainPDF] is
    not the decoded payload of its stream but the payload and a line feed;
    and the two streams "q" and "Q" of [twoStreamsPDF] give "q\nQ\n", with
    a line feed after the last. *)
Lemma ContentStream_appends_line_feed :
  (fun s => decodeStream s.1 s.2) <$> Contents (firstPage (docOf plainPDF))
    = [Ok (bytes_of "BT (Hi) Tj ET")] /\
  ContentStream (firstPage (docOf plainPDF)) = Ok (bytes_of "BT (Hi) Tj ET" ++ [10]) /\
  ContentStream (firstPage (docOf plainPDF)) <> Ok (bytes_of "BT (Hi) Tj ET") /\
  (fun s => decodeStream s.1 s.2) <$> Contents (firstPage (docOf twoStreamsPDF))
    = [Ok (bytes_of "q"); Ok (bytes_of "Q")] /\
  ContentStream (firstPage (docOf twoStreamsPDF))
    = Ok (bytes_of "q" ++ [10] ++ bytes_of "Q" ++ [10]).
Proof.
  assert (Hc : ContentStream (firstPage (docOf plainPDF))
               = Ok (bytes_of "BT (Hi) Tj ET" ++ [10])) by reflexivity.
  split; [reflexivity |]. split; [exact Hc |]. split; [| split; reflexivity].
  rewrite Hc. intros Heq. apply Ok_inj in Heq. apply (f_equal length) in Heq.
  discriminate Heq.
Qed.

Lemma Forall2_decoded (streams : list (gmap (list Z) Object * list Z))
    (ds : list (list Z)) :
  (fun s => decodeStream s.1 s.2) <$> streams = Ok <$> ds ->
  Forall2 (fun s dec => decodeStream s.1 s.2 = Ok dec) streams ds.
Proof.
  revert ds. induction streams as [|s streams IH]; intros [|dec ds] Heq;
    try discriminate Heq; constructor.
  - by injection Heq.
  - apply IH. by injection Heq.
Qed.

Lemma ContentStream_newline_after_each_twoStreamsPDF :
  Forall2 (fun s dec => decodeStream s.1 s.2 = Ok dec)
    (Contents (firstPage (docOf twoStreamsPDF))) [bytes_of "q"; bytes_of "Q"] /\
  ContentStream (firstPage (docOf twoStreamsPDF))
    = Ok ([bytes_of "q"; bytes_of "Q"] ≫= fun dec => dec ++ [10]).
Proof.
  assert (Hall : Forall2 (fun s dec => decodeStream s.1 s.2 = Ok dec)
                   (Contents (firstPage (docOf twoStreamsPDF)))
                   [bytes_of "q"; bytes_of "Q"]).
  { apply Forall2_decoded. reflexivity. }
  split; [exact Hall |].
  exact (ContentStream_newline_after_each _ _ Hall).
Defined.

(** ** C9, C6, C3 on the sample files *)

Lemma resolve_absent_or_free_plainPDF :
  xref (docOf plainPDF) !! 9 = None /\
  InUse <$> xref (docOf plainPDF) !! 0 = Some false /\
  resolve (docOf plainPDF) 9 0 = Ok Null /\
  resolve (docOf plainPDF) 0 65535 = Ok Null.
Proof.
  assert (H9 : xref (docOf plainPDF) !! 9 = None) by reflexivity.
  assert (H0 : xref (docOf plainPDF) !! 0 = Some (mkEntry 0 65535 false)) by reflexivity.
  split; [exact H9 |]. split; [by rewrite H0 |]. split.
  - apply (resolve_absent_or_free (docOf plainPDF) 9 0). by left.
  - apply (proj1 (resolve_absent_or_free (docOf plainPDF) 0 65535)). right.
    eexists. split; [exact H0 | reflexivity].
Defined.

Example parseNumberOrRef_examples :
  parseNumberOrRef (newParser (bytes_of "12 0 R /X"))
    = Ok (Reference 12 0, mkParser (bytes_of "12 0 R /X") 6 None) /\
  parseNumberOrRef (newParser (bytes_of "12 0 3"))
    = Ok (Integer 12, mkParser (bytes_of "12 0 3") 2 None) /\
  parseNumberOrRef (newParser (bytes_of "12 -1 R"))
    = Ok (Integer 12, mkParser (bytes_of "12 -1 R") 2 None) /\
  parseNumberOrRef (newParser (bytes_of "1 2 Rx"))
    = Ok (Reference 1 2, mkParser (bytes_of "1 2 Rx") 5 None).
Proof. repeat split; reflexivity. Qed.

Example Fill_empty_values_plainPDF :
  Fill 10 (mkReader plainPDF 0) [] ∅ = (Ok (), mkEdit plainPDF None).
Proof. reflexivity. Qed.

(** ** Further properties on concrete inputs *)

Lemma ch_range (c : ascii) : 0 <= ch c < 256.
Proof. unfold ch. pose proof (N_ascii_bounded c). lia. Qed.

Lemma bytes_of_range (s : string) : Forall (fun b => 0 <= b < 256) (bytes_of s).
Proof.
  unfold bytes_of. apply Forall_fmap, Forall_forall. intros c _. apply ch_range.
Qed.

Lemma parseLiteralStringRaw_agrees_on_sample :
  cipher literalSample = None /\
  parseLiteralString literalSample
    = Ok (String (bytes_of "a(b)" ++ [10] ++ bytes_of "c") false,
          mkParser (data literalSample) 9 None) /\
  exists v, String (bytes_of "a(b)" ++ [10] ++ bytes_of "c") false = String v false /\
    parseLiteralStringRaw (data literalSample) (pos literalSample) = (v, 9%nat).
Proof.
  split; [reflexivity |]. split; [reflexivity |].
  exact (parseLiteralStringRaw_agrees_with_parser literalSample
           (mkParser (data literalSample) 9 None) _ eq_refl eq_refl).
Defined.

Lemma parseHexStringRaw_agrees_on_sample :
  cipher hexSample = None /\
  parseHexString hexSample
    = Ok (String (bytes_of "Hello" ++ [112]) true, mkParser (data hexSample) 16 None) /\
  exists v, String (bytes_of "Hello" ++ [112]) true = String v true /\
    parseHexStringRaw (data hexSample) (pos hexSample) = (v, 16%nat).
Proof.
  split; [reflexivity |]. split; [reflexivity |].
  exact (parseHexStringRaw_agrees_with_parser hexSample
           (mkParser (data hexSample) 16 None) _ eq_refl eq_refl).
Defined.

Example escapePDFString_example :
  escapePDFString (bytes_of "a(b)") = [97; 92; 40; 98; 92; 41] /\
  parseBytes (bytes_of "(" ++ escapePDFString (bytes_of "a)(b") ++ bytes_of ")")
    = Ok (String (bytes_of "a)(b") false).
Proof. split; reflexivity. Qed.

Lemma hex_String_parses_back_Hello :
  Forall (fun b => 0 <= b < 256) (bytes_of "Hello") /\
  ObjectString (String (bytes_of "Hello") true) = bytes_of "<48656c6c6f>" /\
  parseBytes (ObjectString (String (bytes_of "Hello") true))
    = Ok (String (bytes_of "Hello") true).
Proof.
  split; [apply bytes_of_range |]. split; [reflexivity |].
  exact (hex_String_parses_back (bytes_of "Hello") (bytes_of_range "Hello")).
Defined.

Lemma asciiHexDecode_reads_back_Hello :
  Forall (fun b => 0 <= b < 256) (bytes_of "Hello") /\
  asciiHexDecode (hexLower (bytes_of "Hello") ++ ch ">" :: bytes_of " junk")
    = Ok (bytes_of "Hello").
Proof.
  split; [apply bytes_of_range |].
  exact (asciiHexDecode_reads_back (bytes_of "Hello") (bytes_of " junk")
           (bytes_of_range "Hello")).
Defined.

Example asciiHexDecode_examples :
  asciiHexDecode (bytes_of "48 65 6C 6c 6F 7>zz") = Ok (bytes_of "Hello" ++ [112]) /\
  isErr (asciiHexDecode (bytes_of "4G>")) = true.
Proof. split; reflexivity. Qed.

Lemma xrefSubsections_keep_first_entry_on_sample :
  exists table' p',
    xrefSubsections 10 (advance duplicateSubsections 24) {[0 := mkEntry 10 0 true]}
      = Ok (table', p') /\
    ({[0 := mkEntry 10 0 true]} : gmap Z xrefEntry) !! 0 = Some (mkEntry 10 0 true) /\
    table' !! 0 = Some (mkEntry 10 0 true).
Proof.
  destruct (xrefSubsections 10 (advance duplicateSubsections 24)
              {[0 := mkEntry 10 0 true]}) as [[table' p']| | |] eqn:Hrun;
    [| vm_compute in Hrun; discriminate Hrun ..].
  exists table', p'. split; [reflexivity |].
  split; [apply lookup_singleton_eq |].
  apply (xrefSubsections_keep_first_entry 10 _ _ _ _ _ _ Hrun).
  apply lookup_singleton_eq.
Defined.

(** Both subsections define object 0; the entry of the first is kept. *)
Example xrefSubsections_duplicate_object :
  match xrefSubsections 10 duplicateSubsections ∅ with
  | Ok (table, _) => map_to_list table
  | _ => []
  end = [(0, mkEntry 10 0 true)].
Proof. vm_compute. reflexivity. Qed.

Lemma xrefStreamEntries_in_bounds_on_sample :
  0 <= 1 /\ 0 <= 2 /\ 0 <= 1 /\
  Z.of_nat (length [1; 0; 9; 0; 1; 0; 58; 0; 7]) + (1 + 2 + 1) < 2 ^ 63 /\
  0 <= 0 <= Z.of_nat (length [1; 0; 9; 0; 1; 0; 58; 0; 7]) /\
  exists table' dataPos',
    xrefStreamEntries 5 0 1 (1, 2, 1) [1; 0; 9; 0; 1; 0; 58; 0; 7] 0 ∅
    = Ok (table', dataPos') /\
    0 <= dataPos' <= Z.of_nat (length [1; 0; 9; 0; 1; 0; 58; 0; 7]).
Proof.
  repeat (split; [simpl; lia |]).
  apply xrefStreamEntries_in_bounds; simpl; lia.
Defined.

(** Widths 1, 2, 1: two records fit in nine bytes, the third does not; and
    with a negative width the same loop indexes outside the data. *)
Example xrefStreamEntries_examples :
  match xrefStreamEntries 5 0 1 (1, 2, 1) [1; 0; 9; 0; 1; 0; 58; 0; 7] 0 ∅ with
  | Ok (table, dataPos) => (table !! 1, table !! 2, table !! 3, dataPos)
  | _ => (None, None, None, -1)
  end = (Some (mkEntry 9 0 true), Some (mkEntry 58 0 true), None, 8) /\
  xrefStreamEntries 1 0 1 (5, -5, 0) [1; 0] 0 ∅ = Panic "index out of range".
Proof. split; vm_compute; reflexivity. Qed.

Lemma validateUserPassword_revision3_on_sample :
  revision revision3Info <> 2 /\
  validateUserPassword weakKey revision3Info = true /\
  length (userHash revision3Info) = 32%nat /\
  (validateUserPassword weakKey revision3Info = true <->
   exists c digest,
     rc4.NewCipher weakKey = Some c /\
     rc4Passes weakKey (Z.of_nat <$> seq 1 19)
       (rc4.XORKeyStream c (md5sum (pdfPadding ++ fileID revision3Info))).1
       = Some digest /\
     (16 <= length (userHash revision3Info))%nat /\ (16 <= length digest)%nat /\
     take 16 digest = take 16 (userHash revision3Info)).
Proof.
  assert (Hrev : revision revision3Info <> 2) by discriminate.
  split; [exact Hrev |]. split; [vm_compute; reflexivity |].
  split; [vm_compute; reflexivity |].
  exact (validateUserPassword_revision3 weakKey revision3Info Hrev).
Defined.

Lemma decrypt_panics_on_emptyKeyPDF :
  parseEncryptDict (documentAt emptyKeyPDF 265) = Ok (Some emptyKeyInfo) /\
  version emptyKeyInfo <= 2 /\
  keyLength emptyKeyInfo = 0 /\
  ownerHash emptyKeyInfo <> [] /\
  decrypt (documentAt emptyKeyPDF 265) [] = Panic "nil pointer dereference".
Proof.
  assert (Hinfo : parseEncryptDict (documentAt emptyKeyPDF 265) = Ok (Some emptyKeyInfo))
    by reflexivity.
  split; [exact Hinfo |]. split; [simpl; lia |]. split; [reflexivity |].
  split; [discriminate |].
  apply (decrypt_panics_on_empty_key _ _ emptyKeyInfo Hinfo);
    [simpl; lia | reflexivity | discriminate].
Defined.

(** Reading [emptyKeyPDF] ends in that panic. *)
Example ReadFrom_emptyKeyPDF :
  ReadFrom 10 emptyKeyPDF = Panic "nil pointer dereference".
Proof. reflexivity. Qed.

Lemma resolve_uses_only_the_entry_on_plainPDF :
  encrypt (docOf plainPDF) = None /\
  xref (docOf plainPDF) !! 3 = xref (docOf plainPDF) !! 3 /\
  resolve (docOf plainPDF) 3 0 = resolve (docOf plainPDF) 3 7.
Proof.
  split; [reflexivity |]. split; [reflexivity |].
  exact (resolve_uses_only_the_entry (docOf plainPDF) 3 0 3 7 eq_refl eq_refl).
Defined.

Lemma Page_returns_the_page_numbered_1_of_plainPDF :
  ReadFrom 10 plainPDF = Ok (docOf plainPDF) /\
  NumPages (docOf plainPDF) = 1%nat /\
  (exists p, Document_Page (docOf plainPDF) 1 = Ok p /\ pg_Number p = 1) /\
  Document_Page (docOf plainPDF) 0 = Err "reader: page out of range" /\
  Document_Page (docOf plainPDF) 2 = Err "reader: page out of range".
Proof.
  assert (Hn : NumPages (docOf plainPDF) = 1%nat) by reflexivity.
  split; [exact plainPDF_reads |]. split; [exact Hn |].
  split; [| split].
  - apply (Page_returns_the_page_numbered_n 10 plainPDF (docOf plainPDF) 1 plainPDF_reads).
    rewrite Hn. lia.
  - apply (Page_returns_the_page_numbered_n 10 plainPDF (docOf plainPDF) 0 plainPDF_reads).
    lia.
  - apply (Page_returns_the_page_numbered_n 10 plainPDF (docOf plainPDF) 2 plainPDF_reads).
    rewrite Hn. lia.
Defined.

Lemma decodePDFString_latin1_on_sample :
  Forall (fun b => 0 <= b < 256) (bytes_of "Hi" ++ [233]) /\
  take 2 (bytes_of "Hi" ++ [233]) <> [0xFE; 0xFF] /\
  decodePDFString (bytes_of "Hi" ++ [233]) = bytes_of "Hi" ++ [195; 169] /\
  decodePDFString (bytes_of "Hi") = bytes_of "Hi".
Proof.
  assert (Hr : Forall (fun b => 0 <= b < 256) (bytes_of "Hi" ++ [233])).
  { apply Forall_app. split; [apply bytes_of_range | repeat constructor; lia]. }
  assert (Hno : take 2 (bytes_of "Hi" ++ [233]) <> [0xFE; 0xFF]) by discriminate.
  split; [exact Hr |]. split; [exact Hno |]. split.
  - rewrite (proj1 (decodePDFString_latin1 _ Hr) Hno). reflexivity.
  - apply (decodePDFString_latin1 _ (bytes_of_range "Hi")).
    apply Forall_forall. intros b Hb.
    apply list_elem_of_In in Hb. simpl in Hb. unfold ch in Hb. simpl in Hb. lia.
Defined.

Example Metadata_and_parser_examples :
  Metadata (docOf plainPDF) = Ok ∅ /\
  parseBytes (bytes_of "/A#20B") = Ok (Name (bytes_of "A B")) /\
  parseBytes (bytes_of "% this is a comment" ++ [10] ++ bytes_of "42") = Ok (Integer 42).
Proof. repeat split; reflexivity. Qed.

Lemma rebuildXref_startxref_points_to_table_on_filled_form :
  rebuildXref staleFormPDF = Ok rebuiltFormPDF /\
  (rebuiltFormPDF = staleFormPDF \/
   exists N : nat,
     findStartXRef rebuiltFormPDF = Ok (Z.of_nat N) /\
     take N rebuiltFormPDF = take N staleFormPDF /\
     take 5 (drop N rebuiltFormPDF) = bytes_of "xref" ++ [10]).
Proof.
  assert (Hr : rebuildXref staleFormPDF = Ok rebuiltFormPDF) by (vm_compute; reflexivity).
  split; [exact Hr |].
  exact (rebuildXref_startxref_points_to_table staleFormPDF rebuiltFormPDF
           ltac:(vm_compute; reflexivity) Hr).
Defined.

(** The value is written into the field of [formPDF]; the file cannot be read
    before the table is rebuilt, and can be read after it. *)
Example Fill_rebuilds_the_table :
  setAll (fieldMapOf (flattenFields (fieldsOf (docOf formPDF))))
         (rangeOrder {[ bytes_of "name" := bytes_of "Ada" ]}) formPDF
  = Ok staleFormPDF /\
  Fill 10 (mkReader formPDF 0) [] {[ bytes_of "name" := bytes_of "Ada" ]}
  = (Ok (), mkEdit rebuiltFormPDF (Some rebuiltFormPDF)) /\
  findStartXRef staleFormPDF = Ok 444 /\
  findStartXRef rebuiltFormPDF = Ok 453 /\
  halts (ReadFrom 10 staleFormPDF) = true /\
  (length (pages (docOf staleFormPDF)) = 0)%nat /\
  (length (pages (docOf rebuiltFormPDF)) = 1)%nat /\
  ff_Value <$> fieldsOf (docOf rebuiltFormPDF) = [bytes_of "Ada"].
Proof. repeat split; vm_compute; reflexivity. Qed.

Lemma extractTextFromContentStream_outside_text_objects_on_sample :
  exists n,
    extractTextFromContentStream 30 outsideSample
    = Ok (TrimSpace (replicate n (ch " "))).
Proof.
  apply (extractTextFromContentStream_outside_text_objects outsideSample 30).
  - vm_compute. lia.
  - intros k Hk Hk'.
    do 25 (destruct k as [|k]; [discriminate Hk || discriminate Hk' |]).
    discriminate Hk.
Defined.

Example extractTextFromContentStream_examples :
  extractTextFromContentStream 100 textSample = Ok (bytes_of "Hello (W)abc He") /\
  extractTextFromContentStream 30 outsideSample = Ok [] /\
  extractTextFromContentStream 30 (bytes_of "BT (a" ++ [backslash]) = Ok (bytes_of "a") /\
  extractTextFromContentStream 5 textSample = OutOfFuel.
Proof. repeat split; vm_compute; reflexivity. Qed.

Lemma parseFormField_qualified_names_of_personField :
  parseFormField 10 (docOf nestedFormPDF) (Reference 4 0) [] = Ok personField /\
  FullName personField = qualifiedName [] (ff_Name personField) /\
  Forall (fun k => FullName k = qualifiedName (FullName personField) (ff_Name k))
         (Kids personField).
Proof.
  assert (Hp : parseFormField 10 (docOf nestedFormPDF) (Reference 4 0) [] = Ok personField)
    by reflexivity.
  split; [exact Hp |].
  exact (parseFormField_qualified_names 10 (docOf nestedFormPDF) (Reference 4 0) []
           personField Hp).
Defined.

(** The widget without a name has the fully qualified name of its parent:
    [findField] returns the parent for this name, the map of [Fill] the
    widget. *)
Example nestedFormPDF_names :
  FullName <$> flattenFields (fieldsOf (docOf nestedFormPDF))
  = [bytes_of "person"; bytes_of "person.first"; bytes_of "person"] /\
  Document_FormField 10 (docOf nestedFormPDF) (bytes_of "person") = Ok (Some personField) /\
  fieldMapOf (flattenFields (fieldsOf (docOf nestedFormPDF))) !! bytes_of "person"
  = Some widgetKid /\
  ff_Name personField = bytes_of "person" /\ ff_Name widgetKid = [] /\
  ff_Type widgetKid = bytes_of "Tx" /\
  Document_FormField 10 (docOf nestedFormPDF) (bytes_of "first") = Ok None.
Proof. repeat split; reflexivity. Qed.

(** The text of the page of [formPDF], before and after its form is filled. *)
Example ExtractText_of_sample_pages :
  ExtractText 100 (firstPage (docOf formPDF)) = Ok (bytes_of "Hi") /\
  ExtractText 100 (firstPage (docOf rebuiltFormPDF)) = Ok (bytes_of "Hi").
Proof. split; vm_compute; reflexivity. Qed.

End Samples.
